(** * Order fulfilment against a shared inventory

    A shallow embedding of the order processor ([app/tasks/order_tasks.py]),
    the periodic inventory scan ([app/tasks/inventory_tasks.py]), the
    manual retry and the detail endpoints ([app/api/orders.py]), the
    Shopify webhook ([app/api/webhooks.py]), the low-stock alerts
    ([app/api/inventory.py]), the metrics ([app/api/monitoring.py]) and the
    seed script ([scripts/seed_data.py]) over the ORM models of
    [app/db/models.py].

    The database is a record of tables, each table a list of rows in
    storage order.  A SQLAlchemy session is a pair of stores (the committed
    one and the session's pending view of it); the Python code becomes a
    computation in a state-and-exception monad over sessions.  Exceptions
    that do not originate in the Python code itself (connectivity faults,
    lock timeouts) are injected by a fault schedule that every database
    round trip consults.

    What the database and the ORM do beyond storing rows is modelled where
    the code depends on it:
    - a session expires its rows when it commits ([expire_on_commit] is
      left at its default): the next read of an attribute of such a row is
      one more round trip, which can fail after the commit went through
      ([reload]);
    - [sync_logs.order_id] is a foreign key to [orders.id]: a commit that
      would insert a record for an order that does not exist is refused
      ([flush_ok]);
    - a SELECT without [ORDER BY] returns the rows in an order of the
      database's choosing, a parameter [arrange] of the queries concerned;
    - the ids of new rows come from sequences, which are not rolled back
      with the transaction that drew from them ([Sequences], [Skipped]);
    - the rows the webhook inserts carry values of the request, which have
      to fit their columns: the INTEGER range, and for the texts what the
      driver and the database make of them ([Texts]).

    The model stops short of the following.  There is one session at a
    time: row locks are recorded, not contended.  The stock levels are
    integers without bound: an UPDATE that takes a stock level out of the
    INTEGER range is not refused.  The sequences do not run out.  The
    texts the tasks themselves write (task ids, messages, the constants of
    the seed script) fit their columns.

    Integers are Python integers ([Z]); timestamps are seconds ([Z]);
    floating point columns (prices) are left out of the rows: of a price
    the operations modelled here only need to know whether Python reads
    its text as a float. *)

From Stdlib Require Import ZArith Ascii String List Bool Lia DecimalString Permutation.
Import ListNotations.
Local Open Scope string_scope.
Local Open Scope list_scope.
Local Open Scope Z_scope.

(** ** Text helpers *)

(** [str(n)] for a Python integer. *)
Definition str_of_Z (z : Z) : string := NilZero.string_of_int (Z.to_int z).

(** [str(len(l))]. *)
Definition str_of_len {A} (l : list A) : string := str_of_Z (Z.of_nat (length l)).

(** An f-string: the concatenation of its pieces. *)
Definition fstr (pieces : list string) : string := String.concat "" pieces.

(** ** Generic table operations *)

(** [query.filter(p).first()]: the first row satisfying [p], together with
    its position, which stands for the identity of the ORM object. *)
Fixpoint first_from {A} (p : A -> bool) (l : list A) (i : nat) : option (nat * A) :=
  match l with
  | [] => None
  | x :: l' => if p x then Some (i, x) else first_from p l' (S i)
  end.

Definition first {A} (p : A -> bool) (l : list A) : option (nat * A) :=
  first_from p l 0.

(** Attribute assignment on a loaded ORM object: the row at position [i]
    is replaced; a position outside the table changes nothing. *)
Fixpoint set_row {A} (i : nat) (x : A) (l : list A) : list A :=
  match l, i with
  | [], _ => []
  | _ :: l', O => x :: l'
  | y :: l', S j => y :: set_row j x l'
  end.

(** ** app/db/models.py *)

Inductive OrderStatus := PENDING | PROCESSING | COMPLETED | FAILED | CANCELLED.

Inductive SyncStatus := SUCCESS | FAILURE | RETRY.

Definition OrderStatus_eqb (a b : OrderStatus) : bool :=
  match a, b with
  | PENDING, PENDING | PROCESSING, PROCESSING | COMPLETED, COMPLETED
  | FAILED, FAILED | CANCELLED, CANCELLED => true
  | _, _ => false
  end.

(** [OrderStatus.value] *)
Definition OrderStatus_value (s : OrderStatus) : string :=
  match s with
  | PENDING => "pending"
  | PROCESSING => "processing"
  | COMPLETED => "completed"
  | FAILED => "failed"
  | CANCELLED => "cancelled"
  end.

Module Product.
Record t := mk { id : Z; sku : string; name : string }.
End Product.

Module Inventory.
Record t := mk {
  id : Z;
  product_id : Z;
  quantity : Z;
  reserved : Z;
  reorder_level : Z;
  updated_at : Z
}.

(** Available stock = total quantity - reserved. *)
Definition available (self : t) : Z := quantity self - reserved self.

(** Check if stock is at or below reorder level. *)
Definition is_low_stock (self : t) : bool := available self <=? reorder_level self.

Definition set_quantity (self : t) (q : Z) (now : Z) : t :=
  mk (id self) (product_id self) q (reserved self) (reorder_level self) now.
End Inventory.

Module Order.
Record t := mk {
  id : Z;
  external_order_id : string;
  status : OrderStatus;
  processed_at : option Z;
  error_message : option string;
  retry_count : Z
}.

Definition set_status (self : t) (s : OrderStatus) : t :=
  mk (id self) (external_order_id self) s (processed_at self)
     (error_message self) (retry_count self).

Definition set_processed_at (self : t) (ts : option Z) : t :=
  mk (id self) (external_order_id self) (status self) ts
     (error_message self) (retry_count self).

Definition set_error_message (self : t) (m : option string) : t :=
  mk (id self) (external_order_id self) (status self) (processed_at self)
     m (retry_count self).

Definition set_retry_count (self : t) (n : Z) : t :=
  mk (id self) (external_order_id self) (status self) (processed_at self)
     (error_message self) n.
End Order.

Module OrderItem.
Record t := mk { id : Z; order_id : Z; sku : string; quantity : Z }.
End OrderItem.

Module SyncLog.
Record t := mk {
  task_id : option string;
  task_name : string;
  status : SyncStatus;
  order_id : option Z;
  details : option string;
  error_message : option string;
  traceback : option string;
  duration_ms : option Z
}.
End SyncLog.

(** The tables. *)
Record DB := mkDB {
  products : list Product.t;
  inventory : list Inventory.t;
  orders : list Order.t;
  order_items : list OrderItem.t;
  sync_logs : list SyncLog.t
}.

Definition with_inventory (db : DB) (l : list Inventory.t) : DB :=
  mkDB (products db) l (orders db) (order_items db) (sync_logs db).

Definition with_orders (db : DB) (l : list Order.t) : DB :=
  mkDB (products db) (inventory db) l (order_items db) (sync_logs db).

Definition with_sync_logs (db : DB) (l : list SyncLog.t) : DB :=
  mkDB (products db) (inventory db) (orders db) (order_items db) l.

(** ** Sessions, exceptions and the task monad *)

(** Python exceptions met by the tasks: [ValueError] raised by the
    processor itself, any other exception class (with the text of its
    traceback), and Celery's [Retry], raised by [self.retry]. *)
Inductive exn :=
| ValueError (msg : string)
| OtherError (type_name : string) (msg : string) (tb : string)
| Retry (countdown : Z) (exc : exn).

(** [str(e)].  No handler of these tasks ever receives Celery's [Retry];
    its text is given up to the rendering of the cause. *)
Definition exn_str (e : exn) : string :=
  match e with
  | ValueError msg => msg
  | OtherError _ msg _ => msg
  | Retry countdown _ => fstr ["Retry in "; str_of_Z countdown; "s"]
  end.

(** [type(e).__name__] *)
Definition exn_type_name (e : exn) : string :=
  match e with
  | ValueError _ => "ValueError"
  | OtherError n _ _ => n
  | Retry _ _ => "Retry"
  end.

(** [traceback.format_exc()] inside the handler of [e]. *)
Definition format_exc (e : exn) : string :=
  match e with
  | OtherError _ _ tb => tb
  | _ => fstr [exn_type_name e; ": "; exn_str e]
  end.

(** An injected infrastructure fault: the exception class, its message and
    its traceback. *)
Record Fault := mkFault { fault_type : string; fault_msg : string; fault_tb : string }.

(** A session: the committed store, the session's own view with its
    uncommitted changes, the SKUs whose inventory row lock the session
    acquired (in acquisition order), and the fault schedule: one entry is
    consumed by each database round trip, [Some f] making it raise. *)
Record Session := mkSession {
  committed : DB;
  pending : DB;
  lock_trace : list string;
  faults : list (option Fault)
}.

(** [SessionLocal()] *)
Definition SessionLocal (db : DB) (fs : list (option Fault)) : Session :=
  mkSession db db [] fs.

Inductive result (A : Type) :=
| Ok (a : A)
| Raise (e : exn).
Arguments Ok {A} a.
Arguments Raise {A} e.

Definition M (A : Type) : Type := Session -> result A * Session.

Definition ret {A} (a : A) : M A := fun s => (Ok a, s).

Definition bind {A B} (c : M A) (k : A -> M B) : M B :=
  fun s => match c s with
           | (Ok a, s') => k a s'
           | (Raise e, s') => (Raise e, s')
           end.

Definition raise {A} (e : exn) : M A := fun s => (Raise e, s).

(** [try: c  except Exception as e: h e] *)
Definition try_except {A} (c : M A) (h : exn -> M A) : M A :=
  fun s => match c s with
           | (Ok a, s') => (Ok a, s')
           | (Raise e, s') => h e s'
           end.

(** [try: c  finally: f], for a [f] that does not raise. *)
Definition try_finally {A} (c : M A) (f : Session -> Session) : M A :=
  fun s => let '(r, s') := c s in (r, f s').

Declare Scope task_scope.
Delimit Scope task_scope with task.
Notation "x <- c1 ;; c2" := (bind c1 (fun x => c2))
  (at level 61, c1 at next level, right associativity) : task_scope.
Notation "c1 ;; c2" := (bind c1 (fun _ => c2))
  (at level 61, right associativity) : task_scope.
Local Open Scope task_scope.

(** One database round trip: consumes the next entry of the fault schedule. *)
Definition db_op : M unit :=
  fun s =>
    match faults s with
    | [] => (Ok tt, s)
    | None :: fs => (Ok tt, mkSession (committed s) (pending s) (lock_trace s) fs)
    | Some f :: fs =>
        (Raise (OtherError (fault_type f) (fault_msg f) (fault_tb f)),
         mkSession (committed s) (pending s) (lock_trace s) fs)
    end.

(** Reading and changing the session's view. *)
Definition view : M DB := fun s => (Ok (pending s), s).

Definition change (f : DB -> DB) : M unit :=
  fun s => (Ok tt, mkSession (committed s) (f (pending s)) (lock_trace s) (faults s)).

(** The rows a session has added to a table: those after the rows that
    were there. *)
Definition added {A} (old new : list A) : list A := skipn (length old) new.

(** [sync_logs.order_id] is a foreign key to [orders.id]: a record that
    names an order can only be inserted when an order row has that id. *)
Definition log_ref_ok (db : DB) (l : SyncLog.t) : bool :=
  match SyncLog.order_id l with
  | None => true
  | Some order_id => existsb (fun o => Order.id o =? order_id) (orders db)
  end.

(** The database takes the records the session has added to the audit log. *)
Definition flush_ok (s : Session) : bool :=
  forallb (log_ref_ok (pending s)) (added (sync_logs (committed s)) (sync_logs (pending s))).

(** The exception of a commit that the foreign key refuses.  Its text is
    abridged: both places where it can be raised swallow it. *)
Definition foreign_key_violation : exn :=
  OtherError "IntegrityError"
    "insert or update on table sync_logs violates foreign key constraint"
    "Traceback".

(** [db.commit()]: the pending changes are flushed and, when the database
    takes them, committed. *)
Definition commit : M unit :=
  db_op ;;
  fun s =>
    if flush_ok s then
      (Ok tt, mkSession (pending s) (pending s) (lock_trace s) (faults s))
    else
      (Raise foreign_key_violation, s).

(** [db.rollback()] *)
Definition rollback_session (s : Session) : Session :=
  mkSession (committed s) (committed s) (lock_trace s) (faults s).

Definition rollback : M unit := fun s => (Ok tt, rollback_session s).

(** [db.close()]: whatever is still uncommitted is dropped. *)
Definition close (s : Session) : Session := rollback_session s.

(** The sessions expire on commit ([SessionLocal] keeps the default): a
    commit expires the rows the session has loaded, and the next read of an
    attribute of such a row loads the row again, in one more round trip.
    The row comes back as the session committed it: there is no other
    session. *)
Definition reload : M unit := db_op.

(** [db.add(SyncLog(...))] *)
Definition add_log (l : SyncLog.t) : M unit :=
  change (fun db => with_sync_logs db (sync_logs db ++ [l])).

(** [db.query(Order).filter(Order.id == order_id).first()] *)
Definition query_order (order_id : Z) : M (option (nat * Order.t)) :=
  db_op ;;
  db <- view ;;
  ret (first (fun o => Order.id o =? order_id) (orders db)).

(** [order.items]: the relationship is loaded from [order_items] at its
    first use, and again at its first use after a commit. *)
Definition load_items (order : Order.t) : M (list OrderItem.t) :=
  db_op ;;
  db <- view ;;
  ret (filter (fun it => OrderItem.order_id it =? Order.id order) (order_items db)).

(** [db.query(Product).filter(Product.sku == sku).first()] *)
Definition query_product (sku : string) : M (option (nat * Product.t)) :=
  db_op ;;
  db <- view ;;
  ret (first (fun p => String.eqb (Product.sku p) sku) (products db)).

(** [db.query(Inventory).filter(Inventory.product_id == pid).with_for_update().first()] *)
Definition query_inventory_for_update (pid : Z) : M (option (nat * Inventory.t)) :=
  db_op ;;
  db <- view ;;
  ret (first (fun i => Inventory.product_id i =? pid) (inventory db)).

(** The row lock taken by [with_for_update] for the line item [sku] is held
    from here to the end of the transaction. *)
Definition lock_acquired (sku : string) : M unit :=
  fun s => (Ok tt, mkSession (committed s) (pending s) (lock_trace s ++ [sku]) (faults s)).

Definition write_order (i : nat) (o : Order.t) : M unit :=
  change (fun db => with_orders db (set_row i o (orders db))).

Definition write_inventory (i : nat) (r : Inventory.t) : M unit :=
  change (fun db => with_inventory db (set_row i r (inventory db))).

Fixpoint for_each {A} (body : A -> M unit) (l : list A) : M unit :=
  match l with
  | [] => ret tt
  | x :: l' => body x ;; for_each body l'
  end.

(** ** app/tasks/order_tasks.py *)

(** [self] of the bound task: [self.request.id], [self.request.retries]. *)
Record Task := mkTask { request_id : string; request_retries : nat }.

(** [max_retries=3] of the task decorator. *)
Definition max_retries : nat := 3.

(** The clock readings of one attempt: [datetime.now(timezone.utc)] and
    [int((time.time() - start_time) * 1000)]. *)
Record Clock := mkClock { utcnow : Z; elapsed_ms : Z }.

(** The dictionaries the task returns. *)
Inductive TaskReturn :=
| RetError (message : string)
| RetCompleted (order_id : Z) (external_order_id : string) (duration_ms : Z)
| RetFailed (order_id : Z) (error : string).

Definition msg_order_not_found (order_id : Z) : string :=
  fstr ["Order "; str_of_Z order_id; " not found"].

Definition msg_product_not_found (sku : string) : string :=
  fstr ["Product with SKU '"; sku; "' not found in catalog"].

Definition msg_no_inventory (sku : string) : string :=
  fstr ["No inventory record for '"; sku; "'"].

Definition msg_insufficient_stock (sku : string) (requested available : Z) : string :=
  fstr ["Insufficient stock for '"; sku; "': ";
        "requested="; str_of_Z requested; ", available="; str_of_Z available].

(** The body of [for item in order.items]. *)
Definition process_item (clock : Clock) (item : OrderItem.t) : M unit :=
  product <- query_product (OrderItem.sku item) ;;
  match product with
  | None => raise (ValueError (msg_product_not_found (OrderItem.sku item)))
  | Some (_, product) =>
      inventory <- query_inventory_for_update (Product.id product) ;;
      match inventory with
      | None => raise (ValueError (msg_no_inventory (OrderItem.sku item)))
      | Some (i, inventory) =>
          lock_acquired (OrderItem.sku item) ;;
          let available := Inventory.quantity inventory - Inventory.reserved inventory in
          if available <? OrderItem.quantity item then
            raise (ValueError (msg_insufficient_stock (OrderItem.sku item)
                                 (OrderItem.quantity item) available))
          else
            write_inventory i
              (Inventory.set_quantity inventory
                 (Inventory.quantity inventory - OrderItem.quantity item)
                 (utcnow clock))
      end
  end.

Definition success_log (self : Task) (clock : Clock) (order : Order.t)
    (items : list OrderItem.t) : SyncLog.t :=
  SyncLog.mk (Some (request_id self)) "process_order" SUCCESS (Some (Order.id order))
    (Some (fstr ["Order "; Order.external_order_id order; " processed — ";
                 str_of_len items; " items fulfilled."]))
    None None (Some (elapsed_ms clock)).

(** The [try] block of [process_order]. *)
Definition process_order_try (self : Task) (clock : Clock) (order_id : Z) : M TaskReturn :=
  order <- query_order order_id ;;
  match order with
  | None => ret (RetError (msg_order_not_found order_id))
  | Some (oi, order) =>
      (* len(order.items), for the log line *)
      load_items order ;;
      let order := Order.set_status order PROCESSING in
      write_order oi order ;;
      commit ;;
      (* for item in order.items: the order is loaded again, then its items *)
      reload ;;
      items <- load_items order ;;
      for_each (process_item clock) items ;;
      let order :=
        Order.set_error_message
          (Order.set_processed_at (Order.set_status order COMPLETED)
             (Some (utcnow clock)))
          None in
      write_order oi order ;;
      add_log (success_log self clock order items) ;;
      commit ;;
      (* order.external_order_id, for the log line and the result *)
      reload ;;
      ret (RetCompleted order_id (Order.external_order_id order) (elapsed_ms clock))
  end.

Definition failure_log (order_id : Z) (error_message : string) (task_id : string)
    (clock : Clock) (tb : option string) : SyncLog.t :=
  SyncLog.mk (Some task_id) "process_order" FAILURE (Some order_id)
    None (Some error_message) tb (Some (elapsed_ms clock)).

(** Set order status to FAILED and write a failure log. *)
Definition _mark_failed (order_id : Z) (error_message : string) (task_id : string)
    (clock : Clock) (tb : option string) : M unit :=
  try_except
    (order <- query_order order_id ;;
     match order with
     | Some (oi, order) =>
         write_order oi
           (Order.set_error_message (Order.set_status order FAILED) (Some error_message))
     | None => ret tt
     end ;;
     add_log (failure_log order_id error_message task_id clock tb) ;;
     commit)
    (fun _ => rollback).

Definition retry_log (order_id : Z) (task_id : string) (attempt : nat)
    (error : string) : SyncLog.t :=
  SyncLog.mk (Some task_id) "process_order" RETRY (Some order_id)
    (Some (fstr ["Retry attempt "; str_of_Z (Z.of_nat attempt)]))
    (Some error) None None.

(** Write a retry entry to sync_logs. *)
Definition _log_retry (order_id : Z) (task_id : string) (attempt : nat)
    (error : string) : M unit :=
  try_except
    (add_log (retry_log order_id task_id attempt error) ;;
     commit)
    (fun _ => rollback).

(** [60 * (2 ** self.request.retries)] *)
Definition retry_delay (retries : nat) : Z := 60 * 2 ^ Z.of_nat retries.

(** The two [except] clauses of [process_order]. *)
Definition process_order_except (self : Task) (clock : Clock) (order_id : Z) (e : exn)
    : M TaskReturn :=
  match e with
  | ValueError _ =>
      (* business logic errors — no retry *)
      rollback ;;
      _mark_failed order_id (exn_str e) (request_id self) clock None ;;
      ret (RetFailed order_id (exn_str e))
  | _ =>
      (* unexpected errors — retry with exponential backoff *)
      rollback ;;
      let error_msg := fstr [exn_type_name e; ": "; exn_str e] in
      let tb := format_exc e in
      _mark_failed order_id error_msg (request_id self) clock (Some tb) ;;
      if (request_retries self <? max_retries)%nat then
        let delay := retry_delay (request_retries self) in
        _log_retry order_id (request_id self) (request_retries self + 1) error_msg ;;
        raise (Retry delay e)
      else
        ret (RetFailed order_id error_msg)
  end.

(** [process_order(self, order_id)] *)
Definition process_order (self : Task) (clock : Clock) (order_id : Z) : M TaskReturn :=
  try_finally
    (try_except (process_order_try self clock order_id)
       (process_order_except self clock order_id))
    close.

(** One delivery of the job to a worker: a fresh session on the store, the
    task, and what is left afterwards: how the task ended, the committed
    store and the lock acquisitions of the attempt. *)
Record Attempt := mkAttempt {
  outcome : result TaskReturn;
  store : DB;
  locked : list string
}.

Definition deliver (self : Task) (clock : Clock) (fs : list (option Fault))
    (order_id : Z) (db : DB) : Attempt :=
  let '(r, s) := process_order self clock order_id (SessionLocal db fs) in
  mkAttempt r (committed s) (lock_trace s).

(** ** app/tasks/inventory_tasks.py *)

(** The dictionaries collected in [out_of_stock] and [low_stock]. *)
Module OutOfStock.
Record t := mk { sku : string; name : string; available : Z }.
End OutOfStock.

Module LowStock.
Record t := mk { sku : string; name : string; available : Z; reorder_level : Z }.
End LowStock.

Inductive ScanReturn :=
| ScanCompleted (total_products low_stock out_of_stock : nat) (duration_ms : Z)
| ScanFailed (error : string).

(** [db.query(Inventory).options(joinedload(Inventory.product)).all()]:
    every inventory row with its product, if the catalog has it.  The
    query has no [ORDER BY]: the database returns the rows in an order of
    its choosing, which is the parameter [arrange]. *)
Definition query_inventory_all (arrange : list Inventory.t -> list Inventory.t)
    : M (list (Inventory.t * option Product.t)) :=
  db_op ;;
  db <- view ;;
  ret (map (fun inv =>
              (inv, find (fun p => Product.id p =? Inventory.product_id inv) (products db)))
           (arrange (inventory db))).

(** The body of [for inv in items]. *)
Definition scan_row (acc : list LowStock.t * list OutOfStock.t)
    (row : Inventory.t * option Product.t) : list LowStock.t * list OutOfStock.t :=
  let '(low_stock, out_of_stock) := acc in
  let '(inv, product) := row in
  let name := match product with
              | Some p => Product.name p
              | None => fstr ["product_id="; str_of_Z (Inventory.product_id inv)]
              end in
  let sku := match product with
             | Some p => Product.sku p
             | None => "?"
             end in
  let available := Inventory.quantity inv - Inventory.reserved inv in
  if available <=? 0 then
    (low_stock, out_of_stock ++ [OutOfStock.mk sku name available])
  else if available <=? Inventory.reorder_level inv then
    (low_stock ++ [LowStock.mk sku name available (Inventory.reorder_level inv)], out_of_stock)
  else
    (low_stock, out_of_stock).

Definition out_of_stock_log (duration_ms : Z) (item : OutOfStock.t) : SyncLog.t :=
  SyncLog.mk None "sync_inventory" FAILURE None
    (Some (fstr ["OUT OF STOCK: "; OutOfStock.sku item; " — "; OutOfStock.name item]))
    (Some (fstr ["Available: "; str_of_Z (OutOfStock.available item)]))
    None (Some duration_ms).

Definition low_stock_log (duration_ms : Z) (item : LowStock.t) : SyncLog.t :=
  SyncLog.mk None "sync_inventory" SUCCESS None
    (Some (fstr ["LOW STOCK: "; LowStock.sku item; " — "; LowStock.name item; ", ";
                 "available="; str_of_Z (LowStock.available item);
                 ", reorder_level="; str_of_Z (LowStock.reorder_level item)]))
    None None (Some duration_ms).

Definition scan_summary (total : nat) (low_stock : list LowStock.t)
    (out_of_stock : list OutOfStock.t) : string :=
  fstr ["Inventory sync done: "; str_of_Z (Z.of_nat total); " products checked, ";
        str_of_len low_stock; " low stock, "; str_of_len out_of_stock; " out of stock."].

Definition summary_log (duration_ms : Z) (summary : string) (has_issues : bool) : SyncLog.t :=
  SyncLog.mk None "sync_inventory" (if negb has_issues then SUCCESS else SUCCESS) None
    (Some summary) None None (Some duration_ms).

Definition scan_failure_log (duration_ms : Z) (error : string) : SyncLog.t :=
  SyncLog.mk None "sync_inventory" FAILURE None None (Some error) None (Some duration_ms).

(** The [try] block of [sync_inventory]. *)
Definition sync_inventory_try (arrange : list Inventory.t -> list Inventory.t)
    (clock : Clock) : M ScanReturn :=
  items <- query_inventory_all arrange ;;
  let total := length items in
  let '(low_stock, out_of_stock) := fold_left scan_row items ([], []) in
  let duration_ms := elapsed_ms clock in
  let summary := scan_summary total low_stock out_of_stock in
  for_each (fun item => add_log (out_of_stock_log duration_ms item)) out_of_stock ;;
  for_each (fun item => add_log (low_stock_log duration_ms item)) low_stock ;;
  let has_issues := (0 <? length low_stock)%nat || (0 <? length out_of_stock)%nat in
  add_log (summary_log duration_ms summary has_issues) ;;
  commit ;;
  ret (ScanCompleted total (length low_stock) (length out_of_stock) duration_ms).

(** [sync_inventory()] *)
Definition sync_inventory (arrange : list Inventory.t -> list Inventory.t)
    (clock : Clock) : M ScanReturn :=
  try_finally
    (try_except (sync_inventory_try arrange clock)
       (fun e =>
          rollback ;;
          let duration_ms := elapsed_ms clock in
          try_except
            (add_log (scan_failure_log duration_ms (exn_str e)) ;;
             commit)
            (fun _ => rollback) ;;
          ret (ScanFailed (exn_str e))))
    close.

(** One run of the scan on the store. *)
Definition run_scan (arrange : list Inventory.t -> list Inventory.t) (clock : Clock)
    (fs : list (option Fault)) (db : DB) : result ScanReturn * DB :=
  let '(r, s) := sync_inventory arrange clock (SessionLocal db fs) in (r, committed s).

(** ** app/api/orders.py *)

(** What the retry endpoint answers: an [HTTPException] or the
    [WebhookResponse]. *)
Inductive RetryReply :=
| HTTPException (status_code : Z) (detail : string)
| WebhookResponse (status : string) (message : string) (order_id : Z)
    (task_id : option string).

(** [retry_order(order_id, db)].  [dispatch] is what
    [process_order.delay(order.id)] gives: the id of the queued task, or
    nothing when dispatching raised. *)
Definition retry_order (dispatch : Z -> option string) (order_id : Z) : M RetryReply :=
  try_finally
    (order <- query_order order_id ;;
     match order with
     | None =>
         ret (HTTPException 404 (msg_order_not_found order_id))
     | Some (oi, order) =>
         if negb (OrderStatus_eqb (Order.status order) FAILED
                  || OrderStatus_eqb (Order.status order) PENDING) then
           ret (HTTPException 400
                  (fstr ["Can only retry failed or pending orders. Current status: ";
                         OrderStatus_value (Order.status order)]))
         else
           (* Reset order status *)
           let order :=
             Order.set_retry_count
               (Order.set_error_message (Order.set_status order PENDING) None)
               (Order.retry_count order + 1) in
           write_order oi order ;;
           commit ;;
           (* Re-dispatch Celery task: [order.id] is read inside the [try],
              which swallows the failure of the reload with that of the
              dispatch *)
           reloaded <- try_except (reload ;; ret true) (fun _ => ret false) ;;
           let task_id := if reloaded then dispatch (Order.id order) else None in
           (* [order.retry_count], for the message *)
           (if reloaded then ret tt else reload) ;;
           ret (WebhookResponse "retrying"
                  (fstr ["Order "; str_of_Z order_id;
                         " has been re-queued for processing (retry #";
                         str_of_Z (Order.retry_count order); ")."])
                  (Order.id order) task_id)
     end)
    close.

Definition run_retry_order (dispatch : Z -> option string) (fs : list (option Fault))
    (order_id : Z) (db : DB) : result RetryReply * DB :=
  let '(r, s) := retry_order dispatch order_id (SessionLocal db fs) in (r, committed s).

(** * Assertions

    The notions in which the properties of the tasks are stated. *)

(** [wp c Q E s]: run from [s], the computation [c] either returns a value
    and a session satisfying [Q], or raises an exception and leaves a
    session satisfying [E]. *)
Definition wp {A} (c : M A) (Q : A -> Session -> Prop) (E : exn -> Session -> Prop)
    (s : Session) : Prop :=
  match c s with
  | (Ok a, s') => Q a s'
  | (Raise e, s') => E e s'
  end.

(** An exception that does not come from the Python code: one of the
    injected faults. *)
Definition is_fault (e : exn) : Prop :=
  exists ty m tb, e = OtherError ty m tb.

(** What [process_item] decides from the session's view alone. *)
Inductive ItemVerdict :=
| Accepted (i : nat) (row : Inventory.t)
| Rejected (msg : string) (lock_held : bool).

Definition check_item (db : DB) (item : OrderItem.t) : ItemVerdict :=
  match first (fun p => String.eqb (Product.sku p) (OrderItem.sku item)) (products db) with
  | None => Rejected (msg_product_not_found (OrderItem.sku item)) false
  | Some (_, product) =>
      match first (fun i => Inventory.product_id i =? Product.id product) (inventory db) with
      | None => Rejected (msg_no_inventory (OrderItem.sku item)) false
      | Some (i, row) =>
          if Inventory.available row <? OrderItem.quantity item then
            Rejected (msg_insufficient_stock (OrderItem.sku item)
                        (OrderItem.quantity item) (Inventory.available row)) true
          else Accepted i row
      end
  end.

(** The inventory row after the decrement of [item]. *)
Definition decremented (now : Z) (row : Inventory.t) (item : OrderItem.t) : Inventory.t :=
  Inventory.set_quantity row (Inventory.quantity row - OrderItem.quantity item) now.

(** ** Invariants of the committed store and the session's view *)

Definition both (Q : DB -> Prop) (s : Session) : Prop :=
  Q (committed s) /\ Q (pending s).

(** [o'] is [o] with another status, processing time or error message. *)
Definition order_touch (o o' : Order.t) : Prop :=
  Order.id o' = Order.id o /\
  Order.external_order_id o' = Order.external_order_id o /\
  Order.retry_count o' = Order.retry_count o.

(** A property of stores that the fulfilment task cannot break: it does
    not look at the audit log, survives the decrement of an accepted line
    item, and survives a change of status, processing time or error
    message of an order. *)
Record TaskInvariant (Q : DB -> Prop) : Prop := {
  inv_logs : forall db l, Q db -> Q (with_sync_logs db l);
  inv_decrement : forall db item i row now,
      Q db -> check_item db item = Accepted i row ->
      Q (with_inventory db (set_row i (decremented now row item) (inventory db)));
  inv_order : forall db i o o',
      Q db -> nth_error (orders db) i = Some o -> order_touch o o' ->
      Q (with_orders db (set_row i o' (orders db)))
}.

(** [c] keeps the invariant [Q] of the committed store and of the session's
    view, however it ends. *)
Definition keeps_both (Q : DB -> Prop) {A} (c : M A) : Prop :=
  forall s, both Q s -> wp c (fun _ => both Q) (fun _ => both Q) s.

(** No inventory row has negative available stock. *)
Definition stock_ok (db : DB) : Prop :=
  Forall (fun r => 0 <= Inventory.available r) (inventory db).

(** The line items in turn, decided on the session's view alone: the
    message of the first rejected item if there is one, the view and the
    lock trace at that point. *)
Fixpoint fulfil (now : Z) (items : list OrderItem.t) (p : DB) (t : list string)
    : option string * DB * list string :=
  match items with
  | [] => (None, p, t)
  | item :: rest =>
      match check_item p item with
      | Accepted i row =>
          fulfil now rest
            (with_inventory p (set_row i (decremented now row item) (inventory p)))
            (t ++ [OrderItem.sku item])
      | Rejected msg lock_held =>
          (Some msg, p, if lock_held then t ++ [OrderItem.sku item] else t)
      end
  end.

(** [order.items] *)
Definition items_of (db : DB) (order : Order.t) : list OrderItem.t :=
  filter (fun it => OrderItem.order_id it =? Order.id order) (order_items db).

(** The store once [order.status = PROCESSING] is committed. *)
Definition claimed (db : DB) (oi : nat) (order : Order.t) : DB :=
  with_orders db (set_row oi (Order.set_status order PROCESSING) (orders db)).

(** The order row a completed attempt leaves. *)
Definition completed_order (clock : Clock) (order : Order.t) : Order.t :=
  Order.set_error_message
    (Order.set_processed_at
       (Order.set_status (Order.set_status order PROCESSING) COMPLETED)
       (Some (utcnow clock)))
    None.

(** The order row [_mark_failed] leaves. *)
Definition failed_order (order : Order.t) (msg : string) : Order.t :=
  Order.set_error_message (Order.set_status order FAILED) (Some msg).

(** The store after [_mark_failed] met no fault on the store [db].  When
    no order has the id, the record breaks the foreign key: the commit is
    refused, the refusal is swallowed and nothing is written. *)
Definition marked_failed (db : DB) (order_id : Z) (msg : string) (task_id : string)
    (clock : Clock) (tb : option string) : DB :=
  match first (fun o => Order.id o =? order_id) (orders db) with
  | Some (oi, order) =>
      let db' := with_orders db (set_row oi (failed_order order msg) (orders db)) in
      with_sync_logs db' (sync_logs db' ++ [failure_log order_id msg task_id clock tb])
  | None => db
  end.

(** The store a completed attempt commits, from the view [p] the loop left. *)
Definition completed_store (self : Task) (clock : Clock) (db : DB) (oi : nat)
    (order : Order.t) (p : DB) : DB :=
  let order' := completed_order clock order in
  let p' := with_orders p (set_row oi order' (orders p)) in
  with_sync_logs p'
    (sync_logs p' ++ [success_log self clock order' (items_of db order)]).

(** The store after [_log_retry] met no fault on the store [db]; nothing
    is written when no order has the id. *)
Definition retry_logged (db : DB) (order_id : Z) (task_id : string) (attempt : nat)
    (error : string) : DB :=
  if existsb (fun o => Order.id o =? order_id) (orders db) then
    with_sync_logs db (sync_logs db ++ [retry_log order_id task_id attempt error])
  else db.

(** The available stock behind a line item, when its SKU resolves to a
    catalog product that has an inventory row. *)
Definition stock_for (db : DB) (item : OrderItem.t) : option Z :=
  match first (fun p => String.eqb (Product.sku p) (OrderItem.sku item)) (products db) with
  | None => None
  | Some (_, product) =>
      match first (fun i => Inventory.product_id i =? Product.id product) (inventory db) with
      | None => None
      | Some (_, row) => Some (Inventory.available row)
      end
  end.


(** The store a business failure leaves: the order row marked, one
    failure log appended, everything else as before the attempt. *)
Definition business_failure_store (self : Task) (clock : Clock) (order_id : Z) (db : DB)
    (oi : nat) (order : Order.t) (msg : string) : DB :=
  mkDB (products db) (inventory db)
       (set_row oi (failed_order order msg) (orders db))
       (order_items db)
       (sync_logs db ++ [failure_log order_id msg (request_id self) clock None]).

(** ** Sample data: a small shop *)

Definition shop : DB :=
  mkDB
    [Product.mk 1 "W1" "Widget"; Product.mk 2 "X1" "Gadget"; Product.mk 3 "N1" "Novelty"]
    [Inventory.mk 10 1 5 0 15 0; Inventory.mk 11 2 2 0 1 0]
    [Order.mk 100 "E100" PENDING None None 0;
     Order.mk 101 "E101" COMPLETED (Some 500) None 0;
     Order.mk 102 "E102" PENDING None None 0;
     Order.mk 103 "E103" PENDING None None 0;
     Order.mk 104 "E104" PENDING None None 0;
     Order.mk 105 "E105" PENDING None None 0;
     Order.mk 106 "E106" PENDING None None 0;
     Order.mk 107 "E107" PENDING None None 0;
     Order.mk 108 "E108" CANCELLED None None 0]
    [OrderItem.mk 1 100 "W1" 3;
     OrderItem.mk 2 101 "W1" 3;
     OrderItem.mk 3 102 "X1" 5;
     OrderItem.mk 4 103 "GHOST" 1; OrderItem.mk 5 103 "X1" 5;
     OrderItem.mk 6 104 "X1" (-5); OrderItem.mk 7 104 "X1" 5;
     OrderItem.mk 8 105 "X1" 1; OrderItem.mk 9 105 "W1" 1;
     OrderItem.mk 10 106 "GHOST" 1; OrderItem.mk 11 106 "N1" 1;
     OrderItem.mk 12 107 "N1" 1;
     OrderItem.mk 13 108 "X1" 1]
    [].

Definition worker : Task := mkTask "task-1" 0.

Definition noon : Clock := mkClock 1000 7.

(** The line items of the job's order, in the order [order.items] yields
    them; none when the order does not exist. *)
Definition job_items (db : DB) (order_id : Z) : list OrderItem.t :=
  match first (fun o => Order.id o =? order_id) (orders db) with
  | Some (_, order) => items_of db order
  | None => []
  end.

(** The position of the inventory row a line item is charged to. *)
Definition row_of (db : DB) (item : OrderItem.t) : option nat :=
  match first (fun p => String.eqb (Product.sku p) (OrderItem.sku item)) (products db) with
  | None => None
  | Some (_, product) =>
      match first (fun i => Inventory.product_id i =? Product.id product) (inventory db) with
      | None => None
      | Some (i, _) => Some i
      end
  end.

(** What a line item asks of the inventory row at position [i]. *)
Definition charge (db : DB) (i : nat) (item : OrderItem.t) : Z :=
  match row_of db item with
  | Some j => if (j =? i)%nat then OrderItem.quantity item else 0
  | None => 0
  end.

(** What the line items together ask of the inventory row at position [i]. *)
Definition demand (db : DB) (items : list OrderItem.t) (i : nat) : Z :=
  fold_right Z.add 0 (map (charge db i) items).

(** [sum(inventory.quantity)] over the table, [sum(item.quantity)] over the
    line items. *)
Definition stock_total (rows : list Inventory.t) : Z :=
  fold_right Z.add 0 (map Inventory.quantity rows).

Definition ordered_total (items : list OrderItem.t) : Z :=
  fold_right Z.add 0 (map OrderItem.quantity items).

(** SKUs in ascending order. *)
Fixpoint ascending (skus : list string) : bool :=
  match skus with
  | [] => true
  | x :: rest =>
      match rest with
      | [] => true
      | y :: _ => String.leb x y && ascending rest
      end
  end.

(** What holds at the end of an attempt on the store [db], whatever the
    fault schedule: the locks were taken along the line items in their
    stored order, and a completed attempt committed what the loop computed
    on the claimed store. *)
Definition attempt_envelope (self : Task) (clock : Clock) (order_id : Z) (db : DB)
    (completed : bool) (s' : Session) : Prop :=
  (exists k, lock_trace s' = firstn k (map OrderItem.sku (job_items db order_id))) /\
  (completed = true ->
   exists oi order p,
     first (fun o => Order.id o =? order_id) (orders db) = Some (oi, order) /\
     fulfil (utcnow clock) (items_of db order) (claimed db oi order) []
       = (None, p, lock_trace s') /\
     committed s' = completed_store self clock db oi order p).

Definition is_completed (r : TaskReturn) : bool :=
  match r with
  | RetCompleted _ _ _ => true
  | _ => false
  end.

(** [row'] is [row] with [delta] taken off its quantity (and its time of
    update possibly moved). *)
Definition restocked (row row' : Inventory.t) (delta : Z) : Prop :=
  Inventory.id row' = Inventory.id row /\
  Inventory.product_id row' = Inventory.product_id row /\
  Inventory.reserved row' = Inventory.reserved row /\
  Inventory.reorder_level row' = Inventory.reorder_level row /\
  Inventory.quantity row' = Inventory.quantity row - delta.


(** The queue's side of [raise self.retry(countdown=delay, exc=e)]: Celery
    delivers the same job again, under the same task id, with
    [request.retries] one higher.  [fss] lists the fault schedules of the
    successive deliveries; the job is over at the first delivery that does
    not raise [Retry]. *)
Fixpoint run_job (task_id : string) (clock : Clock) (fss : list (list (option Fault)))
    (retries : nat) (order_id : Z) (db : DB) : list (result TaskReturn) * DB :=
  match fss with
  | [] => ([], db)
  | fs :: fss' =>
      let a := deliver (mkTask task_id retries) clock fs order_id db in
      match outcome a with
      | Raise (Retry _ _) =>
          let '(rs, db') := run_job task_id clock fss' (S retries) order_id (store a) in
          (outcome a :: rs, db')
      | r => ([r], store a)
      end
  end.

(** A fault schedule under which the lock on the first line item's
    inventory row cannot be had: the seventh round trip of the attempt,
    the [SELECT ... FOR UPDATE] of the first line item, raises. *)
Definition lock_timeout : list (option Fault) :=
  [None; None; None; None; None; None;
   Some (mkFault "OperationalError" "lock timeout" "Traceback")].

(** [retry_count] of every order, in table order. *)
Definition retry_counts (db : DB) : list Z := map Order.retry_count (orders db).

(** The classification of the scan in the words of its specification:
    [available <= 0] is out of stock, [0 < available <= reorder_level] is
    low stock, anything else is healthy. *)
Inductive StockClass := OutOfStockClass | LowStockClass | HealthyClass.

Definition classify (inv : Inventory.t) : StockClass :=
  let available := Inventory.quantity inv - Inventory.reserved inv in
  if available <=? 0 then OutOfStockClass
  else if (0 <? available) && (available <=? Inventory.reorder_level inv) then LowStockClass
  else HealthyClass.

(** [inv.product.sku if inv.product else "?"] and the like. *)
Definition scan_sku (product : option Product.t) : string :=
  match product with
  | Some p => Product.sku p
  | None => "?"
  end.

Definition scan_name (inv : Inventory.t) (product : option Product.t) : string :=
  match product with
  | Some p => Product.name p
  | None => fstr ["product_id="; str_of_Z (Inventory.product_id inv)]
  end.

(** The per-item records the specification asks of the scan for one
    inventory row, written out: one FAILURE record when the row is out of
    stock, one SUCCESS record when it is low on stock, none when it is
    healthy. *)
Definition row_logs (duration_ms : Z) (row : Inventory.t * option Product.t)
    : list SyncLog.t :=
  let '(inv, product) := row in
  let available := Inventory.quantity inv - Inventory.reserved inv in
  match classify inv with
  | OutOfStockClass =>
      [SyncLog.mk None "sync_inventory" FAILURE None
         (Some (fstr ["OUT OF STOCK: "; scan_sku product; " — "; scan_name inv product]))
         (Some (fstr ["Available: "; str_of_Z available]))
         None (Some duration_ms)]
  | LowStockClass =>
      [SyncLog.mk None "sync_inventory" SUCCESS None
         (Some (fstr ["LOW STOCK: "; scan_sku product; " — "; scan_name inv product; ", ";
                      "available="; str_of_Z available;
                      ", reorder_level="; str_of_Z (Inventory.reorder_level inv)]))
         None None (Some duration_ms)]
  | HealthyClass => []
  end.

(** The rows the scan reads: every inventory row with its product. *)
Definition scan_rows (db : DB) : list (Inventory.t * option Product.t) :=
  map (fun inv =>
         (inv, find (fun p => Product.id p =? Inventory.product_id inv) (products db)))
      (inventory db).

(** Everything of a store but its audit log. *)
Definition business_tables (db : DB)
    : list Product.t * list Inventory.t * list Order.t * list OrderItem.t :=
  (products db, inventory db, orders db, order_items db).

(** ** Further assertions on attempts *)


(** A property of stores that an attempt on the order [order_id] cannot
    break: it survives a record appended to the audit log, and a change of
    status, processing time or error message of a row of that order. *)
Record AttemptInvariant (order_id : Z) (Q : DB -> Prop) : Prop := {
  att_log : forall db l, Q db -> Q (with_sync_logs db (sync_logs db ++ [l]));
  att_order : forall db i o o',
      Q db -> nth_error (orders db) i = Some o -> Order.id o = order_id ->
      order_touch o o' ->
      Q (with_orders db (set_row i o' (orders db)))
}.

(** It survives the decrement of an accepted line item as well. *)
Definition survives_decrement (Q : DB -> Prop) : Prop :=
  forall db item i row now,
    Q db -> check_item db item = Accepted i row ->
    Q (with_inventory db (set_row i (decremented now row item) (inventory db))).

(** [db'] has the catalog and the line items of [db], and the same order
    rows but for the status, processing time and error message of the rows
    of the order [order_id]. *)
Definition untouched_but (order_id : Z) (db db' : DB) : Prop :=
  products db' = products db /\
  order_items db' = order_items db /\
  length (orders db') = length (orders db) /\
  (forall j o, nth_error (orders db) j = Some o -> Order.id o <> order_id ->
               nth_error (orders db') j = Some o) /\
  (forall j o, nth_error (orders db) j = Some o ->
               exists o', nth_error (orders db') j = Some o' /\ order_touch o o').

(** The audit log of [db'] is that of [db] with records appended. *)
Definition log_extends (db db' : DB) : Prop :=
  exists l, sync_logs db' = sync_logs db ++ l.

(** ** Ids

    The [id] columns are SERIAL: the database draws the id of a new row
    from the sequence of its table.  A sequence is not rolled back with
    the transaction that drew from it, so the next value of a sequence is
    above every id of the table, but not always the one just above the
    largest: the values drawn by transactions that were rolled back are
    skipped. *)
Record Sequences := mkSequences {
  products_id_seq : Z;
  inventory_id_seq : Z;
  orders_id_seq : Z;
  order_items_id_seq : Z
}.

(** How many values each sequence has skipped above the largest id of its
    table. *)
Record Skipped := mkSkipped {
  skipped_products : nat;
  skipped_inventory : nat;
  skipped_orders : nat;
  skipped_order_items : nat
}.

(** The next value of the sequence of a table with the ids [ids]. *)
Definition next_id (skipped : nat) (ids : list Z) : Z :=
  1 + fold_right Z.max 0 ids + Z.of_nat skipped.

(** The sequences of a store. *)
Definition sequences (skipped : Skipped) (db : DB) : Sequences :=
  mkSequences
    (next_id (skipped_products skipped) (map Product.id (products db)))
    (next_id (skipped_inventory skipped) (map Inventory.id (inventory db)))
    (next_id (skipped_orders skipped) (map Order.id (orders db)))
    (next_id (skipped_order_items skipped) (map OrderItem.id (order_items db))).

(** No transaction was rolled back since the last row of each table. *)
Definition none_skipped : Skipped := mkSkipped 0 0 0 0.

(** ** Columns

    What becomes of a value of the request that is sent to the database.
    An INTEGER column takes the integers of 32 bits.  For the texts, what
    Python's [str.strip] removes and what the driver and the database make
    of a text are parameters:
    - [strip text] is [text.strip()];
    - [adapt text] is the exception of the driver when it cannot send the
      text as a parameter of a statement (psycopg2 refuses a text with a
      NUL character);
    - [varchar n text] is what an INSERT stores in a column [String(n)]
      for [text] (PostgreSQL stores the text itself, or its first [n]
      characters when only spaces are cut), or the exception that
      refuses it. *)
Record Texts := mkTexts {
  strip : string -> string;
  adapt : string -> option exn;
  varchar : nat -> string -> string + exn
}.

Definition int4_ok (n : Z) : bool := (-2147483648 <=? n) && (n <=? 2147483647).

Definition integer_out_of_range : exn :=
  OtherError "DataError" "integer out of range" "Traceback".

Definition unique_violation : exn :=
  OtherError "IntegrityError"
    "duplicate key value violates unique constraint ix_orders_external_order_id" "Traceback".

(** The checks of one INSERT, column after column. *)
Definition and_then {A B} (x : A + exn) (k : A -> B + exn) : B + exn :=
  match x with
  | inl a => k a
  | inr e => inr e
  end.

Definition varchar_opt (texts : Texts) (n : nat) (text : option string)
    : option string + exn :=
  match text with
  | None => inl None
  | Some s => and_then (varchar texts n s) (fun s' => inl (Some s'))
  end.

(** ** app/api/webhooks.py *)

(** The fields of the Shopify payload that reach the columns of the rows
    (app/schemas.py); the others go to [raw_payload] only, a JSON column. *)
Module ShopifyCustomer.
Record t := mk {
  first_name : option string;
  last_name : option string;
  email : option string
}.
End ShopifyCustomer.

Module ShopifyLineItem.
Record t := mk {
  sku : option string;
  title : option string;
  name : option string;
  quantity : Z;
  price : string;
  variant_id : option Z;
  product_id : option Z
}.
End ShopifyLineItem.

Module ShopifyOrderWebhook.
Record t := mk {
  id : Z;
  email : option string;
  total_price : string;
  currency : string;
  customer : option ShopifyCustomer.t;
  line_items : list ShopifyLineItem.t
}.
End ShopifyOrderWebhook.

Definition with_order_items (db : DB) (l : list OrderItem.t) : DB :=
  mkDB (products db) (inventory db) (orders db) l (sync_logs db).

(** [a or b] on optional integers: [None] and [0] are falsy. *)
Definition or_int (a : option Z) (b : option Z) : option Z :=
  match a with
  | Some 0 | None => b
  | Some _ => a
  end.

(** Truth of an optional text: [None] and the empty text are falsy. *)
Definition truthy (a : option string) : bool :=
  match a with
  | Some s => negb (String.eqb s "")
  | None => false
  end.

(** [a or b] on optional texts. *)
Definition or_text (a b : option string) : option string :=
  if truthy a then a else b.

(** [a or ""] *)
Definition or_empty (a : option string) : string :=
  match a with
  | Some s => s
  | None => ""
  end.

(** [item.sku or f"UNKNOWN-{item.variant_id or item.product_id or 'N/A'}"] *)
Definition line_sku (item : ShopifyLineItem.t) : string :=
  let fallback :=
    fstr ["UNKNOWN-";
          match or_int (ShopifyLineItem.variant_id item) (ShopifyLineItem.product_id item) with
          | Some 0 | None => "N/A"
          | Some n => str_of_Z n
          end] in
  match ShopifyLineItem.sku item with
  | None => fallback
  | Some s => if String.eqb s "" then fallback else s
  end.

(** [customer_name], as built from [payload.customer]. *)
Definition customer_name (texts : Texts) (payload : ShopifyOrderWebhook.t) : option string :=
  match ShopifyOrderWebhook.customer payload with
  | None => None
  | Some customer =>
      let parts := [or_empty (ShopifyCustomer.first_name customer);
                    or_empty (ShopifyCustomer.last_name customer)] in
      let name :=
        strip texts (String.concat " " (filter (fun p => negb (String.eqb p "")) parts)) in
      if String.eqb name "" then None else Some name
  end.

(** [customer_email]: that of the payload, or else that of its customer. *)
Definition customer_email (payload : ShopifyOrderWebhook.t) : option string :=
  match ShopifyOrderWebhook.customer payload with
  | None => ShopifyOrderWebhook.email payload
  | Some customer =>
      if negb (truthy (ShopifyOrderWebhook.email payload))
         && truthy (ShopifyCustomer.email customer)
      then ShopifyCustomer.email customer
      else ShopifyOrderWebhook.email payload
  end.

(** [float(text)], for its effect: a [ValueError] unless Python reads [text]
    as a float.  Which texts it reads is the parameter [float_ok]; the
    message is Python's for a text without quote or escape. *)
Definition float (float_ok : string -> bool) (text : string) : M unit :=
  if float_ok text then ret tt
  else raise (ValueError (fstr ["could not convert string to float: '"; text; "'"])).

(** [db.query(Order).filter(Order.external_order_id == external_id).first()] *)
Definition query_order_by_external (external_id : string) : M (option (nat * Order.t)) :=
  db_op ;;
  db <- view ;;
  ret (first (fun o => String.eqb (Order.external_order_id o) external_id) (orders db)).

(** The INSERT of the order row: the texts have to fit their columns and
    [external_order_id] is unique; the other columns get their defaults. *)
Definition insert_order (texts : Texts) (id : Z) (db : DB) (external_id : string)
    (customer_name customer_email : option string) (currency : string) : Order.t + exn :=
  and_then (varchar texts 100 external_id) (fun external_id =>
  and_then (varchar_opt texts 255 customer_name) (fun _ =>
  and_then (varchar_opt texts 255 customer_email) (fun _ =>
  and_then (varchar texts 10 currency) (fun _ =>
  if existsb (fun o => String.eqb (Order.external_order_id o) external_id) (orders db)
  then inr unique_violation
  else inl (Order.mk id external_id PENDING None None 0))))).

(** [order = Order(external_order_id=..., status=PENDING, ...); db.add(order);
    db.flush()]: the row is inserted and gets its id from the sequence. *)
Definition flush_order (texts : Texts) (seqs : Sequences) (external_id : string)
    (customer_name customer_email : option string) (currency : string) : M Order.t :=
  db_op ;;
  db <- view ;;
  match insert_order texts (orders_id_seq seqs) db external_id customer_name customer_email
          currency with
  | inr e => raise e
  | inl order =>
      change (fun db => with_orders db (orders db ++ [order])) ;;
      ret order
  end.

(** An [OrderItem] that was added to the session and is not yet flushed,
    with the columns that come from the request. *)
Module NewOrderItem.
Record t := mk {
  order_id : Z;
  sku : string;
  name : option string;
  quantity : Z
}.
End NewOrderItem.

(** The [OrderItem] the loop builds for a line of the payload. *)
Definition new_line (order : Order.t) (item : ShopifyLineItem.t) : NewOrderItem.t :=
  NewOrderItem.mk (Order.id order) (line_sku item)
    (or_text (ShopifyLineItem.title item) (ShopifyLineItem.name item))
    (ShopifyLineItem.quantity item).

(** The body of [for item in payload.line_items]: the product is looked up
    by a SKU that comes from the request. *)
Definition add_line (float_ok : string -> bool) (texts : Texts) (order : Order.t)
    (item : ShopifyLineItem.t) : M NewOrderItem.t :=
  let sku := line_sku item in
  product <- match adapt texts sku with
             | Some e => raise e
             | None => query_product sku
             end ;;
  float float_ok (ShopifyLineItem.price item) ;;
  ret (new_line order item).

(** A loop that adds an object to the session in every round: the objects
    wait there, in their order, for the flush (the session does not flush
    before a query: [autoflush=False]). *)
Fixpoint collect {A B} (body : A -> M B) (l : list A) : M (list B) :=
  match l with
  | [] => ret []
  | x :: l' => y <- body x ;; ys <- collect body l' ;; ret (y :: ys)
  end.

(** The INSERT of one line item. *)
Definition insert_order_item (texts : Texts) (id : Z) (line : NewOrderItem.t)
    : OrderItem.t + exn :=
  and_then (varchar texts 50 (NewOrderItem.sku line)) (fun sku =>
  and_then (varchar_opt texts 255 (NewOrderItem.name line)) (fun _ =>
  if int4_ok (NewOrderItem.quantity line)
  then inl (OrderItem.mk id (NewOrderItem.order_id line) sku (NewOrderItem.quantity line))
  else inr integer_out_of_range)).

(** The INSERTs of the line items, in the order they were added, with the
    ids the sequence hands out from [id] on. *)
Fixpoint insert_order_items (texts : Texts) (id : Z) (lines : list NewOrderItem.t)
    : list OrderItem.t + exn :=
  match lines with
  | [] => inl []
  | line :: rest =>
      and_then (insert_order_item texts id line) (fun row =>
      and_then (insert_order_items texts (id + 1) rest) (fun rows =>
      inl (row :: rows)))
  end.

(** [db.commit()] with the line items waiting in the session: they are
    flushed, then the transaction is committed. *)
Definition commit_order_items (texts : Texts) (seqs : Sequences)
    (lines : list NewOrderItem.t) : M unit :=
  db_op ;;
  fun s =>
    match insert_order_items texts (order_items_id_seq seqs) lines with
    | inr e => (Raise e, s)
    | inl rows =>
        let db := with_order_items (pending s) (order_items (pending s) ++ rows) in
        (Ok tt, mkSession db db (lock_trace s) (faults s))
    end.

(** [receive_shopify_order(payload, request, db)]; the session is the one
    of [get_db], closed when the request is over. *)
Definition receive_shopify_order (float_ok : string -> bool) (texts : Texts)
    (dispatch : Z -> option string) (seqs : Sequences) (payload : ShopifyOrderWebhook.t)
    : M RetryReply :=
  try_finally
    (let external_id := str_of_Z (ShopifyOrderWebhook.id payload) in
     (* idempotency — skip if we already have this order *)
     existing <- query_order_by_external external_id ;;
     match existing with
     | Some (_, existing) =>
         ret (WebhookResponse "duplicate"
                (fstr ["Order "; external_id; " already exists."])
                (Order.id existing) None)
     | None =>
         (* build customer info *)
         let customer_name := customer_name texts payload in
         let customer_email := customer_email payload in
         (* persist order *)
         float float_ok (ShopifyOrderWebhook.total_price payload) ;;
         order <- flush_order texts seqs external_id customer_name customer_email
                    (ShopifyOrderWebhook.currency payload) ;;
         (* line items *)
         lines <- collect (add_line float_ok texts order)
                    (ShopifyOrderWebhook.line_items payload) ;;
         commit_order_items texts seqs lines ;;
         (* db.refresh(order) *)
         db_op ;;
         (* dispatch celery task *)
         let task_id := dispatch (Order.id order) in
         ret (WebhookResponse "accepted"
                (fstr ["Order "; external_id; " queued for processing."])
                (Order.id order) task_id)
     end)
    close.

Definition run_webhook (float_ok : string -> bool) (texts : Texts)
    (dispatch : Z -> option string) (skipped : Skipped) (fs : list (option Fault))
    (payload : ShopifyOrderWebhook.t) (db : DB) : result RetryReply * DB :=
  let '(r, s) :=
    receive_shopify_order float_ok texts dispatch (sequences skipped db) payload
      (SessionLocal db fs) in
  (r, committed s).

(** What the INSERTs of the webhook make of a payload: the order row and
    the store with the order and its line items, or nothing when the
    database refuses a row. *)
Definition inserted (texts : Texts) (skipped : Skipped) (payload : ShopifyOrderWebhook.t)
    (db : DB) : option (Order.t * DB) :=
  match insert_order texts (orders_id_seq (sequences skipped db)) db
          (str_of_Z (ShopifyOrderWebhook.id payload))
          (customer_name texts payload) (customer_email payload)
          (ShopifyOrderWebhook.currency payload) with
  | inr _ => None
  | inl order =>
      match insert_order_items texts (order_items_id_seq (sequences skipped db))
              (map (new_line order) (ShopifyOrderWebhook.line_items payload)) with
      | inr _ => None
      | inl rows =>
          Some (order,
                mkDB (products db) (inventory db) (orders db ++ [order])
                  (order_items db ++ rows) (sync_logs db))
      end
  end.

(** The line-item rows of a payload whose texts are stored as they are:
    one per line, in the order of the lines, numbered from [id] on. *)
Fixpoint accepted_lines (id : Z) (order_id : Z) (lines : list ShopifyLineItem.t)
    : list OrderItem.t :=
  match lines with
  | [] => []
  | item :: rest =>
      OrderItem.mk id order_id (line_sku item) (ShopifyLineItem.quantity item)
        :: accepted_lines (id + 1) order_id rest
  end.

(** The order row of an accepted payload. *)
Definition accepted_order (skipped : Skipped) (payload : ShopifyOrderWebhook.t) (db : DB)
    : Order.t :=
  Order.mk (next_id (skipped_orders skipped) (map Order.id (orders db)))
    (str_of_Z (ShopifyOrderWebhook.id payload)) PENDING None None 0.

(** The store once a payload is accepted. *)
Definition accepted_store (skipped : Skipped) (payload : ShopifyOrderWebhook.t) (db : DB)
    : DB :=
  mkDB (products db) (inventory db)
       (orders db ++ [accepted_order skipped payload db])
       (order_items db
          ++ accepted_lines
               (next_id (skipped_order_items skipped) (map OrderItem.id (order_items db)))
               (Order.id (accepted_order skipped payload db))
               (ShopifyOrderWebhook.line_items payload))
       (sync_logs db).

(** The database stores the text as it is. *)
Definition kept (texts : Texts) (n : nat) (text : string) : Prop :=
  varchar texts n text = inl text.

(** The database takes the text, if there is one. *)
Definition taken (texts : Texts) (n : nat) (text : option string) : Prop :=
  exists stored, varchar_opt texts n text = inl stored.

(** The line fits the columns of [order_items], and the driver can send
    its SKU. *)
Definition line_fits (texts : Texts) (item : ShopifyLineItem.t) : Prop :=
  adapt texts (line_sku item) = None /\
  kept texts 50 (line_sku item) /\
  taken texts 255 (or_text (ShopifyLineItem.title item) (ShopifyLineItem.name item)) /\
  int4_ok (ShopifyLineItem.quantity item) = true.

(** The payload fits the columns of [orders] and [order_items]: the
    external id and the SKUs are stored as they are, the database takes the
    other texts, and the quantities are integers of 32 bits. *)
Definition payload_fits (texts : Texts) (payload : ShopifyOrderWebhook.t) : Prop :=
  kept texts 100 (str_of_Z (ShopifyOrderWebhook.id payload)) /\
  taken texts 255 (customer_name texts payload) /\
  taken texts 255 (customer_email payload) /\
  taken texts 10 (Some (ShopifyOrderWebhook.currency payload)) /\
  Forall (line_fits texts) (ShopifyOrderWebhook.line_items payload).

(** Every text is a float. *)
Definition any_float (text : string) : bool := true.

(** Texts for the examples: blanks are stripped at both ends, the driver
    sends every text, and a column takes the texts of at most as many
    bytes as it has characters, as they are. *)
Fixpoint lstrip (text : string) : string :=
  match text with
  | String " "%char rest => lstrip rest
  | _ => text
  end.

Fixpoint reverse (text acc : string) : string :=
  match text with
  | EmptyString => acc
  | String c rest => reverse rest (String c acc)
  end.

Definition short_texts : Texts :=
  mkTexts
    (fun text => reverse (lstrip (reverse (lstrip text) "")) "")
    (fun _ => None)
    (fun n text =>
       if (String.length text <=? n)%nat then inl text
       else inr (OtherError "DataError" "value too long for type character varying"
                   "Traceback")).

(** A broker that takes every job. *)
Definition broker_up (order_id : Z) : option string :=
  Some (fstr ["job-"; str_of_Z order_id]).


(** Every line item belongs to an order of the store: the foreign key of
    [order_items.order_id]. *)
Definition items_have_orders (db : DB) : Prop :=
  forall it, In it (order_items db) -> In (OrderItem.order_id it) (map Order.id (orders db)).

(** The next [n] round trips of the schedule meet no fault. *)
Definition calm (n : nat) (fs : list (option Fault)) : Prop :=
  Forall (fun f => f = None) (firstn n fs).

(** Python reads the total and every line price of the payload as floats. *)
Definition prices_ok (float_ok : string -> bool) (payload : ShopifyOrderWebhook.t) : bool :=
  float_ok (ShopifyOrderWebhook.total_price payload)
  && forallb (fun item => float_ok (ShopifyLineItem.price item))
       (ShopifyOrderWebhook.line_items payload).

(** The reply to an accepted payload. *)
Definition accepted_reply (dispatch : Z -> option string) (skipped : Skipped)
    (payload : ShopifyOrderWebhook.t) (db : DB) : RetryReply :=
  WebhookResponse "accepted"
    (fstr ["Order "; str_of_Z (ShopifyOrderWebhook.id payload); " queued for processing."])
    (Order.id (accepted_order skipped payload db))
    (dispatch (Order.id (accepted_order skipped payload db))).

(** No order of the store has the external id of the payload. *)
Definition is_new (payload : ShopifyOrderWebhook.t) (db : DB) : Prop :=
  first (fun o => String.eqb (Order.external_order_id o)
                    (str_of_Z (ShopifyOrderWebhook.id payload)))
        (orders db) = None.

(** What holds when the webhook is over, under every fault schedule: a
    duplicate is answered without a change; an accepted payload is new,
    has readable prices and is stored whole, as the database takes it; an
    exception leaves the store as it was or, when raised after the commit,
    with the payload stored whole. *)
Definition webhook_envelope (float_ok : string -> bool) (texts : Texts)
    (dispatch : Z -> option string) (skipped : Skipped) (payload : ShopifyOrderWebhook.t)
    (db : DB) (r : result RetryReply) (db' : DB) : Prop :=
  match r with
  | Ok (WebhookResponse st m i t) =>
      (st = "duplicate" /\ db' = db /\ t = None /\
       exists oi existing,
         first (fun o => String.eqb (Order.external_order_id o)
                           (str_of_Z (ShopifyOrderWebhook.id payload)))
               (orders db) = Some (oi, existing) /\
         i = Order.id existing) \/
      (exists order,
          inserted texts skipped payload db = Some (order, db') /\
          st = "accepted" /\
          m = fstr ["Order "; str_of_Z (ShopifyOrderWebhook.id payload);
                    " queued for processing."] /\
          i = Order.id order /\ t = dispatch (Order.id order) /\
          is_new payload db /\ prices_ok float_ok payload = true)
  | Ok (HTTPException _ _) => False
  | Raise e =>
      db' = db \/
      (exists order,
          inserted texts skipped payload db = Some (order, db') /\
          is_new payload db /\ prices_ok float_ok payload = true /\ is_fault e)
  end.

(** A payload for two W1 and one article without SKU. *)
Definition sample_payload : ShopifyOrderWebhook.t :=
  ShopifyOrderWebhook.mk 90001 (Some "ada@example.com") "10.00" "USD"
    (Some (ShopifyCustomer.mk (Some "Ada") None None))
    [ShopifyLineItem.mk (Some "W1") (Some "Widget") None 2 "5.00" None None;
     ShopifyLineItem.mk None None None 1 "1.00" (Some 0) (Some 77)].

(** A payload without lines. *)
Definition empty_payload : ShopifyOrderWebhook.t :=
  ShopifyOrderWebhook.mk 90001 None "10.00" "USD" None [].

(** A schedule under which the webhook for [sample_payload] commits and then
    fails to refresh the order. *)
Definition refresh_fails : list (option Fault) :=
  [None; None; None; None; None; Some (mkFault "OperationalError" "connection lost" "Traceback")].

(** ** app/api/inventory.py *)

Module InventoryResponse.
Record t := mk {
  id : Z;
  product_id : Z;
  product_name : option string;
  product_sku : option string;
  quantity : Z;
  reserved : Z;
  available : Z;
  reorder_level : Z;
  is_low_stock : bool;
  updated_at : Z
}.
End InventoryResponse.

(** Build an InventoryResponse from an Inventory ORM instance: the row with
    its joined product. *)
Definition _build_inventory_response (row : Inventory.t * option Product.t)
    : InventoryResponse.t :=
  let '(inv, product) := row in
  InventoryResponse.mk
    (Inventory.id inv)
    (Inventory.product_id inv)
    (match product with Some p => Some (Product.name p) | None => None end)
    (match product with Some p => Some (Product.sku p) | None => None end)
    (Inventory.quantity inv)
    (Inventory.reserved inv)
    (Inventory.available inv)
    (Inventory.reorder_level inv)
    (Inventory.is_low_stock inv)
    (Inventory.updated_at inv).

(** [inventory_alerts(db)]; the session is the one of [get_db].  The query
    has no [ORDER BY] (the one of [list_inventory] has): the rows come in
    the order [arrange] of the database's choosing. *)
Definition inventory_alerts (arrange : list Inventory.t -> list Inventory.t)
    : M (list InventoryResponse.t) :=
  try_finally
    (items <- query_inventory_all arrange ;;
     let low_stock := filter (fun row => Inventory.is_low_stock (fst row)) items in
     ret (map _build_inventory_response low_stock))
    close.

Definition run_inventory_alerts (arrange : list Inventory.t -> list Inventory.t)
    (fs : list (option Fault)) (db : DB) : result (list InventoryResponse.t) * DB :=
  let '(r, s) := inventory_alerts arrange (SessionLocal db fs) in (r, committed s).

(** ** app/api/monitoring.py *)

(** The counters of the metrics; the success rate and the average
    processing time are floating point numbers, and the orders of the last
    hour are read off a creation time the rows here do not carry: the three
    queries behind them are round trips whose result is not kept. *)
Module MetricsResponse.
Record t := mk {
  total_orders : Z;
  completed_orders : Z;
  failed_orders : Z;
  pending_orders : Z;
  low_stock_alerts : Z;
  total_sync_logs : Z
}.
End MetricsResponse.

(** [db.query(func.count(Order.id)).filter(p).scalar() or 0] *)
Definition count_orders (p : Order.t -> bool) : M Z :=
  db_op ;;
  db <- view ;;
  ret (Z.of_nat (length (filter p (orders db)))).

(** [sum(1 for inv in rows if inv.is_low_stock)] *)
Definition count_low_stock (rows : list Inventory.t) : Z :=
  fold_left (fun n inv => if Inventory.is_low_stock inv then n + 1 else n) rows 0.

(** [get_metrics(db)] *)
Definition get_metrics : M MetricsResponse.t :=
  try_finally
    ((* Order counts by status *)
     total_orders <- count_orders (fun _ => true) ;;
     completed <- count_orders (fun o => OrderStatus_eqb (Order.status o) COMPLETED) ;;
     failed <- count_orders (fun o => OrderStatus_eqb (Order.status o) FAILED) ;;
     pending <- count_orders (fun o => OrderStatus_eqb (Order.status o) PENDING
                                       || OrderStatus_eqb (Order.status o) PROCESSING) ;;
     (* Orders in last hour *)
     db_op ;;
     (* Average processing time from sync logs *)
     db_op ;;
     (* Low stock alerts count *)
     all_inventory <- (db_op ;; db <- view ;; ret (inventory db)) ;;
     let low_stock_count := count_low_stock all_inventory in
     (* Total sync logs *)
     total_logs <- (db_op ;; db <- view ;; ret (Z.of_nat (length (sync_logs db)))) ;;
     ret (MetricsResponse.mk total_orders completed failed pending low_stock_count total_logs))
    close.

Definition run_get_metrics (fs : list (option Fault)) (db : DB)
    : result MetricsResponse.t * DB :=
  let '(r, s) := get_metrics (SessionLocal db fs) in (r, committed s).

(** An inventory row the scan reports out of stock that is not low stock
    by [is_low_stock]: there is nothing available, and the reorder level
    is lower still. *)
Definition out_but_not_low (inv : Inventory.t) : bool :=
  (Inventory.quantity inv - Inventory.reserved inv <=? 0) && negb (Inventory.is_low_stock inv).

(** The orders in a given status. *)
Definition orders_in (st : OrderStatus) (db : DB) : list Order.t :=
  filter (fun o => OrderStatus_eqb (Order.status o) st) (orders db).

(** ** scripts/seed_data.py *)

(** An entry of [SEED_PRODUCTS], with the fields the rows here carry. *)
Module SeedProduct.
Record t := mk { sku : string; name : string }.
End SeedProduct.

(** An entry of [INVENTORY_LEVELS]. *)
Module InventoryLevel.
Record t := mk { qty : Z; reserved : Z; reorder : Z }.
End InventoryLevel.

Definition SEED_PRODUCTS : list SeedProduct.t :=
  [ (* Electronics *)
    SeedProduct.mk "LAPTOP-001" "ProBook 15 Laptop";
    SeedProduct.mk "PHONE-001" "SmartPhone X12 Pro";
    SeedProduct.mk "TABLET-001" "DigiPad Air 10";
    SeedProduct.mk "WATCH-001" "FitWatch Ultra";
    SeedProduct.mk "EARBUDS-001" "SoundPods Pro";
    (* Clothing *)
    SeedProduct.mk "TSHIRT-001" "Essential Cotton Tee";
    SeedProduct.mk "JEANS-001" "Classic Slim Jeans";
    SeedProduct.mk "JACKET-001" "Urban Bomber Jacket";
    SeedProduct.mk "SNEAKER-001" "CloudStep Runners";
    SeedProduct.mk "CAP-001" "Snapback Logo Cap";
    (* Home & Kitchen *)
    SeedProduct.mk "COFFEE-001" "BrewMaster 3000";
    SeedProduct.mk "BLENDER-001" "TurboBlend Pro";
    SeedProduct.mk "LAMP-001" "Nordic Desk Lamp";
    SeedProduct.mk "PILLOW-001" "DreamCloud Memory Pillow";
    SeedProduct.mk "MUG-001" "Ceramic Travel Mug";
    (* Sports & Outdoors *)
    SeedProduct.mk "YOGA-001" "ProFlex Yoga Mat";
    SeedProduct.mk "BOTTLE-001" "HydroFlask 32oz";
    SeedProduct.mk "DUMBBELL-001" "Adjustable Dumbbell Set";
    SeedProduct.mk "BACKPACK-001" "TrailBlazer 40L Pack";
    SeedProduct.mk "TENT-001" "QuickPitch 2P Tent" ].

(** Inventory quantities, some purposely low to trigger alerts. *)
Definition INVENTORY_LEVELS : list (string * InventoryLevel.t) :=
  [ ("LAPTOP-001", InventoryLevel.mk 45 3 10);
    ("PHONE-001", InventoryLevel.mk 120 8 20);
    ("TABLET-001", InventoryLevel.mk 30 2 10);
    ("WATCH-001", InventoryLevel.mk 8 0 15);
    ("EARBUDS-001", InventoryLevel.mk 200 15 25);
    ("TSHIRT-001", InventoryLevel.mk 500 20 50);
    ("JEANS-001", InventoryLevel.mk 3 1 10);
    ("JACKET-001", InventoryLevel.mk 60 5 10);
    ("SNEAKER-001", InventoryLevel.mk 75 0 15);
    ("CAP-001", InventoryLevel.mk 150 10 20);
    ("COFFEE-001", InventoryLevel.mk 40 2 8);
    ("BLENDER-001", InventoryLevel.mk 5 3 10);
    ("LAMP-001", InventoryLevel.mk 90 0 15);
    ("PILLOW-001", InventoryLevel.mk 0 0 10);
    ("MUG-001", InventoryLevel.mk 300 25 30);
    ("YOGA-001", InventoryLevel.mk 55 0 10);
    ("BOTTLE-001", InventoryLevel.mk 180 12 20);
    ("DUMBBELL-001", InventoryLevel.mk 22 0 5);
    ("BACKPACK-001", InventoryLevel.mk 7 2 10);
    ("TENT-001", InventoryLevel.mk 15 1 5) ].

Definition with_products (db : DB) (l : list Product.t) : DB :=
  mkDB l (inventory db) (orders db) (order_items db) (sync_logs db).

(** [levels.get(sku, {})] followed by [.get("qty", 50)], [.get("reserved", 0)]
    and [.get("reorder", 10)]. *)
Definition inventory_level (levels : list (string * InventoryLevel.t)) (sku : string)
    : InventoryLevel.t :=
  match find (fun entry => String.eqb (fst entry) sku) levels with
  | Some (_, level) => level
  | None => InventoryLevel.mk 50 0 10
  end.

(** [db.add(product); db.flush()] for the product made of [product_data]:
    the row is inserted and gets its id from the sequence, from which the
    script has drawn [created] ids so far.  The rows of the script are
    constants of the source that fit their columns. *)
Definition flush_product (seqs : Sequences) (created : Z) (product_data : SeedProduct.t)
    : M Product.t :=
  db_op ;;
  let product := Product.mk (products_id_seq seqs + created)
                   (SeedProduct.sku product_data) (SeedProduct.name product_data) in
  change (fun db => with_products db (products db ++ [product])) ;;
  ret product.

(** The inventory row created for a new product, the one after [created]
    others: the rows are flushed in the order they were added. *)
Definition seed_inventory (levels : list (string * InventoryLevel.t)) (seqs : Sequences)
    (now : Z) (created : Z) (product : Product.t) : Inventory.t :=
  let inv_data := inventory_level levels (Product.sku product) in
  Inventory.mk (inventory_id_seq seqs + created) (Product.id product)
    (InventoryLevel.qty inv_data) (InventoryLevel.reserved inv_data)
    (InventoryLevel.reorder inv_data) now.

(** The body of [for product_data in SEED_PRODUCTS], on the counters
    [(created, skipped)]. *)
Definition seed_product (levels : list (string * InventoryLevel.t)) (seqs : Sequences)
    (clock : Clock) (counters : Z * Z) (product_data : SeedProduct.t) : M (Z * Z) :=
  let '(created, skipped) := counters in
  (* Check if product already exists *)
  existing <- query_product (SeedProduct.sku product_data) ;;
  match existing with
  | Some _ => ret (created, skipped + 1)
  | None =>
      (* Create product *)
      product <- flush_product seqs created product_data ;;
      (* Create inventory record *)
      change (fun db =>
                with_inventory db
                  (inventory db ++ [seed_inventory levels seqs (utcnow clock) created product])) ;;
      ret (created + 1, skipped)
  end.

(** A loop that carries local variables from one round to the next. *)
Fixpoint fold_each {A S} (body : S -> A -> M S) (l : list A) (acc : S) : M S :=
  match l with
  | [] => ret acc
  | x :: l' => acc' <- body acc x ;; fold_each body l' acc'
  end.

(** What the script prints when it is through. *)
Record SeedSummary := mkSeedSummary {
  seed_created : Z;
  seed_skipped : Z;
  seed_total : Z;
  seed_low_stock : Z
}.

(** [seed()], for any list of products and any table of levels. *)
Definition seed_with (seed_products : list SeedProduct.t)
    (levels : list (string * InventoryLevel.t)) (seqs : Sequences) (clock : Clock)
    : M SeedSummary :=
  try_finally
    (try_except
       (counters <- fold_each (seed_product levels seqs clock) seed_products (0, 0) ;;
        commit ;;
        (* Summary *)
        total <- (db_op ;; db <- view ;; ret (Z.of_nat (length (products db)))) ;;
        rows <- (db_op ;; db <- view ;; ret (inventory db)) ;;
        ret (mkSeedSummary (fst counters) (snd counters) total (count_low_stock rows)))
       (fun e => rollback ;; raise e))
    close.

(** [seed()] *)
Definition seed : Sequences -> Clock -> M SeedSummary :=
  seed_with SEED_PRODUCTS INVENTORY_LEVELS.

Definition run_seed_with (seed_products : list SeedProduct.t)
    (levels : list (string * InventoryLevel.t)) (clock : Clock) (skipped : Skipped)
    (fs : list (option Fault)) (db : DB) : result SeedSummary * DB :=
  let '(r, s) :=
    seed_with seed_products levels (sequences skipped db) clock (SessionLocal db fs) in
  (r, committed s).

Definition run_seed : Clock -> Skipped -> list (option Fault) -> DB -> result SeedSummary * DB :=
  run_seed_with SEED_PRODUCTS INVENTORY_LEVELS.

(** The loop of [seed] on the store alone. *)
Definition seed_row (levels : list (string * InventoryLevel.t)) (seqs : Sequences) (now : Z)
    (state : DB * (Z * Z)) (product_data : SeedProduct.t) : DB * (Z * Z) :=
  let '(db, (created, skipped)) := state in
  match first (fun p => String.eqb (Product.sku p) (SeedProduct.sku product_data))
              (products db) with
  | Some _ => (db, (created, skipped + 1))
  | None =>
      let product := Product.mk (products_id_seq seqs + created)
                       (SeedProduct.sku product_data) (SeedProduct.name product_data) in
      (mkDB (products db ++ [product])
            (inventory db ++ [seed_inventory levels seqs now created product])
            (orders db) (order_items db) (sync_logs db),
       (created + 1, skipped))
  end.

(** The store once seeded. *)
Definition seeded_with (seed_products : list SeedProduct.t)
    (levels : list (string * InventoryLevel.t)) (skipped : Skipped) (now : Z) (db : DB) : DB :=
  fst (fold_left (seed_row levels (sequences skipped db) now) seed_products (db, (0, 0))).

Definition seeded : Skipped -> Z -> DB -> DB := seeded_with SEED_PRODUCTS INVENTORY_LEVELS.

(** The products of the catalog that have no inventory row. *)
Definition unstocked (db : DB) : list Product.t :=
  filter (fun p => negb (existsb (fun inv => Inventory.product_id inv =? Product.id p)
                           (inventory db)))
         (products db).

(** The SKU is in the catalog. *)
Definition in_catalog (db : DB) (sku : string) : Prop :=
  exists i p, first (fun p => String.eqb (Product.sku p) sku) (products db) = Some (i, p).

(** The shop without the product that has no inventory row. *)
Definition stocked_shop : DB := with_products shop (firstn 2 (products shop)).

(** ** app/api/orders.py: the detail endpoint *)

(** The dictionary built for a line item, and the [OrderResponse], with the
    fields the rows here carry. *)
Module OrderItemResponse.
Record t := mk { id : Z; sku : string; quantity : Z }.
End OrderItemResponse.

Module OrderResponse.
Record t := mk {
  id : Z;
  external_order_id : string;
  status : string;
  retry_count : Z;
  error_message : option string;
  processed_at : option Z;
  items : list OrderItemResponse.t
}.
End OrderResponse.

(** What the detail endpoint answers: an [HTTPException] or the
    [OrderResponse]. *)
Inductive OrderReply :=
| OrderHTTPException (status_code : Z) (detail : string)
| OrderFound (response : OrderResponse.t).

(** [get_order(order_id, db)]: the order and, joined in the same query, its
    line items. *)
Definition get_order (order_id : Z) : M OrderReply :=
  try_finally
    (db_op ;;
     db <- view ;;
     match first (fun o => Order.id o =? order_id) (orders db) with
     | None => ret (OrderHTTPException 404 (fstr ["Order "; str_of_Z order_id; " not found"]))
     | Some (_, order) =>
         let items :=
           map (fun item =>
                  OrderItemResponse.mk (OrderItem.id item) (OrderItem.sku item)
                    (OrderItem.quantity item))
               (filter (fun it => OrderItem.order_id it =? Order.id order) (order_items db)) in
         ret (OrderFound
                (OrderResponse.mk (Order.id order) (Order.external_order_id order)
                   (OrderStatus_value (Order.status order)) (Order.retry_count order)
                   (Order.error_message order) (Order.processed_at order) items))
     end)
    close.

Definition run_get_order (fs : list (option Fault)) (order_id : Z) (db : DB)
    : result OrderReply * DB :=
  let '(r, s) := get_order order_id (SessionLocal db fs) in (r, committed s).

(** The [OrderResponse] for the order row [order] and the line items of
    the store [db]. *)
Definition order_response (db : DB) (order : Order.t) : OrderResponse.t :=
  OrderResponse.mk (Order.id order) (Order.external_order_id order)
    (OrderStatus_value (Order.status order)) (Order.retry_count order)
    (Order.error_message order) (Order.processed_at order)
    (map (fun item =>
            OrderItemResponse.mk (OrderItem.id item) (OrderItem.sku item)
              (OrderItem.quantity item))
         (filter (fun it => OrderItem.order_id it =? Order.id order) (order_items db))).

(** * Reasoning about tasks: weakest preconditions *)

Section WP.
Context {A : Type}.
Implicit Types (Q : A -> Session -> Prop) (E : exn -> Session -> Prop).

Lemma wp_ret Q E (a : A) s : Q a s -> wp (ret a) Q E s.
Proof. exact (fun H => H). Qed.

Lemma wp_raise Q E e s : E e s -> wp (@raise A e) Q E s.
Proof. exact (fun H => H). Qed.

Lemma wp_conseq (c : M A) Q Q' E E' s :
  wp c Q E s ->
  (forall a s', Q a s' -> Q' a s') ->
  (forall e s', E e s' -> E' e s') ->
  wp c Q' E' s.
Proof.
  unfold wp. destruct (c s) as [[a|e] s']; auto.
Qed.

Lemma wp_bind {B} (c : M B) (k : B -> M A) Q E s :
  wp c (fun b => wp (k b) Q E) E s -> wp (bind c k) Q E s.
Proof.
  unfold wp, bind. destruct (c s) as [[b|e] s']; auto.
Qed.

Lemma wp_try_except (c : M A) (h : exn -> M A) Q E s :
  wp c Q (fun e => wp (h e) Q E) s -> wp (try_except c h) Q E s.
Proof.
  unfold wp, try_except. destruct (c s) as [[a|e] s']; auto.
Qed.

Lemma wp_try_finally (c : M A) (f : Session -> Session) Q E s :
  wp c (fun a s' => Q a (f s')) (fun e s' => E e (f s')) s ->
  wp (try_finally c f) Q E s.
Proof.
  unfold wp, try_finally. destruct (c s) as [[a|e] s']; auto.
Qed.
End WP.

Section WPPrimitives.
Context {A : Type}.
Implicit Types (E : exn -> Session -> Prop).

(** A round trip in an arbitrary fault schedule. *)
Lemma wp_db_op (Q : unit -> Session -> Prop) E c p t f :
  (forall f', Q tt (mkSession c p t f')) ->
  (forall e f', is_fault e -> E e (mkSession c p t f')) ->
  wp db_op Q E (mkSession c p t f).
Proof.
  intros HQ HE. unfold wp, db_op; cbn.
  destruct f as [|[ft|] f]; auto.
  apply HE. now exists (fault_type ft), (fault_msg ft), (fault_tb ft).
Qed.

(** A round trip when no fault is scheduled. *)
Lemma wp_db_op_quiet (Q : unit -> Session -> Prop) E c p t :
  Q tt (mkSession c p t []) -> wp db_op Q E (mkSession c p t []).
Proof. exact (fun H => H). Qed.

Lemma wp_view (Q : DB -> Session -> Prop) E s : Q (pending s) s -> wp view Q E s.
Proof. exact (fun H => H). Qed.

Lemma wp_change (g : DB -> DB) (Q : unit -> Session -> Prop) E c p t f :
  Q tt (mkSession c (g p) t f) -> wp (change g) Q E (mkSession c p t f).
Proof. exact (fun H => H). Qed.

Lemma wp_lock_acquired sku (Q : unit -> Session -> Prop) E c p t f :
  Q tt (mkSession c p (t ++ [sku]) f) -> wp (lock_acquired sku) Q E (mkSession c p t f).
Proof. exact (fun H => H). Qed.

Lemma wp_rollback (Q : unit -> Session -> Prop) E c p t f :
  Q tt (mkSession c c t f) -> wp rollback Q E (mkSession c p t f).
Proof. exact (fun H => H). Qed.

Lemma foreign_key_violation_fault : is_fault foreign_key_violation.
Proof. unfold is_fault, foreign_key_violation. eauto. Qed.

(** A commit in an arbitrary fault schedule: it goes through, or it ends in
    an exception that is none of the Python code's, a fault of the round
    trip or the refusal of the database, and nothing is committed. *)
Lemma wp_commit (Q : unit -> Session -> Prop) E c p t f :
  (forall f', Q tt (mkSession p p t f')) ->
  (forall e f', is_fault e -> E e (mkSession c p t f')) ->
  wp commit Q E (mkSession c p t f).
Proof.
  intros HQ HE. apply wp_bind, wp_db_op; [|auto].
  intros f'. unfold wp. destruct (flush_ok _); [apply HQ|].
  apply HE, foreign_key_violation_fault.
Qed.

(** The same, keeping what a commit that goes through tells: the database
    took the records the session had added. *)
Lemma wp_commit_checked (Q : unit -> Session -> Prop) E c p t f :
  (forall f', flush_ok (mkSession c p t f') = true -> Q tt (mkSession p p t f')) ->
  (forall e f', is_fault e -> E e (mkSession c p t f')) ->
  wp commit Q E (mkSession c p t f).
Proof.
  intros HQ HE. apply wp_bind, wp_db_op; [|auto].
  intros f'. unfold wp. destruct (flush_ok _) eqn:Hok; [now apply HQ|].
  apply HE, foreign_key_violation_fault.
Qed.

Lemma wp_reload (Q : unit -> Session -> Prop) E c p t f :
  (forall f', Q tt (mkSession c p t f')) ->
  (forall e f', is_fault e -> E e (mkSession c p t f')) ->
  wp reload Q E (mkSession c p t f).
Proof. apply wp_db_op. Qed.

Lemma wp_commit_quiet (Q : unit -> Session -> Prop) E c p t :
  flush_ok (mkSession c p t []) = true ->
  Q tt (mkSession p p t []) -> wp commit Q E (mkSession c p t []).
Proof.
  intros Hok HQ. unfold wp, commit, bind, db_op. cbn [faults]. now rewrite Hok.
Qed.

(** A query: a round trip, then a value read off the session's view. *)
Lemma wp_query (read : DB -> A) (Q : A -> Session -> Prop) E c p t f :
  (forall f', Q (read p) (mkSession c p t f')) ->
  (forall e f', is_fault e -> E e (mkSession c p t f')) ->
  wp (db_op ;; db <- view ;; ret (read db)) Q E (mkSession c p t f).
Proof.
  intros HQ HE. apply wp_bind, wp_db_op; auto.
Qed.

Lemma wp_for_each (body : A -> M unit) (I : list A -> Session -> Prop) E l :
  (forall done x rest s,
      l = done ++ x :: rest -> I done s ->
      wp (body x) (fun _ => I (done ++ [x])) E s) ->
  forall s, I [] s -> wp (for_each body l) (fun _ => I l) E s.
Proof.
  intros Hbody.
  assert (G : forall rest done s, l = done ++ rest -> I done s ->
              wp (for_each body rest) (fun _ => I l) E s).
  { induction rest as [|x rest IH]; intros done s Hl HI.
    - rewrite app_nil_r in Hl. subst done. exact HI.
    - cbn [for_each]. apply wp_bind.
      eapply wp_conseq; [apply (Hbody done x rest s Hl HI) | | auto].
      intros u s' HI'. apply (IH (done ++ [x])); [|exact HI'].
      now rewrite <- app_assoc. }
  intros s HI. now apply (G l []).
Qed.
End WPPrimitives.

Lemma wp_query_quiet {A} (read : DB -> A) (Q : A -> Session -> Prop) E c p t :
  Q (read p) (mkSession c p t []) ->
  wp (db_op ;; db <- view ;; ret (read db)) Q E (mkSession c p t []).
Proof. exact (fun H => H). Qed.

Lemma wp_reload_quiet (Q : unit -> Session -> Prop) E c p t :
  Q tt (mkSession c p t []) -> wp reload Q E (mkSession c p t []).
Proof. exact (fun H => H). Qed.

(** A computation that is known to run to [(Ok a, s')]. *)
Lemma wp_of_run {A} (c : M A) (Q : A -> Session -> Prop) E s a s' :
  c s = (Ok a, s') -> Q a s' -> wp c Q E s.
Proof. intros H HQ. unfold wp. now rewrite H. Qed.

(** Round trips at the head of a given fault schedule. *)
Lemma wp_db_op_at (Q : unit -> Session -> Prop) E c p t fs :
  match fs with
  | Some f :: _ =>
      E (OtherError (fault_type f) (fault_msg f) (fault_tb f)) (mkSession c p t (skipn 1 fs))
  | _ => Q tt (mkSession c p t (skipn 1 fs))
  end ->
  wp db_op Q E (mkSession c p t fs).
Proof.
  unfold wp, db_op. cbn. destruct fs as [|[f|] fs]; auto.
Qed.


(** ** What a commit flushes *)

Lemma added_app {A} (l x : list A) : added l (l ++ x) = x.
Proof.
  unfold added. rewrite skipn_app, Nat.sub_diag, skipn_all. reflexivity.
Qed.

Lemma added_same {A} (l : list A) : added l l = [].
Proof. unfold added. apply skipn_all. Qed.

(** A session that has added no record can commit. *)
Lemma flush_ok_no_log c p t f :
  sync_logs p = sync_logs c -> flush_ok (mkSession c p t f) = true.
Proof.
  intros H. unfold flush_ok. cbn [committed pending]. now rewrite H, added_same.
Qed.

(** A session that has added one record can commit when the record names
    no order, or an order that the session sees. *)
Lemma flush_ok_one_log c p t f l :
  sync_logs p = sync_logs c ++ [l] ->
  flush_ok (mkSession c p t f) = log_ref_ok p l.
Proof.
  intros H. unfold flush_ok. cbn [committed pending]. rewrite H, added_app.
  cbn. apply andb_true_r.
Qed.

Lemma commit_quiet c p t :
  flush_ok (mkSession c p t []) = true ->
  commit (mkSession c p t []) = (Ok tt, mkSession p p t []).
Proof.
  intros H. unfold commit, bind, db_op. cbn [faults]. now rewrite H.
Qed.

Lemma commit_refused c p t :
  flush_ok (mkSession c p t []) = false ->
  commit (mkSession c p t []) = (Raise foreign_key_violation, mkSession c p t []).
Proof.
  intros H. unfold commit, bind, db_op. cbn [faults]. now rewrite H.
Qed.

(** The line-item step in full: a fault at one of its two queries, or the
    verdict of [check_item] on the session's view. *)
Lemma wp_process_item clock item (Q : unit -> Session -> Prop) E c p t f :
  (forall f',
      match check_item p item with
      | Accepted i row =>
          Q tt (mkSession c
                  (with_inventory p (set_row i (decremented (utcnow clock) row item) (inventory p)))
                  (t ++ [OrderItem.sku item]) f')
      | Rejected msg lock_held =>
          E (ValueError msg)
            (mkSession c p (if lock_held then t ++ [OrderItem.sku item] else t) f')
      end) ->
  (forall e f', is_fault e -> E e (mkSession c p t f')) ->
  wp (process_item clock item) Q E (mkSession c p t f).
Proof.
  intros HV HF. unfold process_item. unfold check_item, Inventory.available in HV.
  apply wp_bind. apply wp_query; [|exact HF]. intros f1.
  destruct (first _ (products p)) as [[pi product]|].
  2:{ apply wp_raise, (HV f1). }
  apply wp_bind. apply wp_query; [|exact HF]. intros f2.
  destruct (first _ (inventory p)) as [[i row]|].
  2:{ apply wp_raise, (HV f2). }
  apply wp_bind, wp_lock_acquired.
  specialize (HV f2).
  destruct (_ <? _); [apply wp_raise | apply wp_change]; exact HV.
Qed.

(** ** Tables: [first] and [set_row] *)

Section Tables.
Context {A : Type}.
Implicit Types (p : A -> bool) (l : list A).

Lemma first_from_spec p l k i x :
  first_from p l k = Some (i, x) ->
  exists j, i = (k + j)%nat /\ nth_error l j = Some x /\ p x = true
            /\ forall j' y, (j' < j)%nat -> nth_error l j' = Some y -> p y = false.
Proof.
  revert k. induction l as [|y l IH]; intros k H; cbn in H; [discriminate|].
  destruct (p y) eqn:Hy.
  - injection H as <- <-. exists 0%nat.
    split; [lia|]. split; [reflexivity|]. split; [exact Hy|].
    intros j' z Hj. inversion Hj.
  - apply IH in H as (j & -> & Hn & Hp & Hlt). exists (S j).
    split; [lia|]. split; [exact Hn|]. split; [exact Hp|].
    intros [|j'] z Hj Hz; cbn in Hz; [congruence|].
    apply (Hlt j'); auto. lia.
Qed.

Lemma first_spec p l i x :
  first p l = Some (i, x) -> nth_error l i = Some x /\ p x = true.
Proof.
  intros H. apply first_from_spec in H as (j & -> & Hn & Hp & _). auto.
Qed.

Lemma first_from_none p l k :
  first_from p l k = None -> forall x, In x l -> p x = false.
Proof.
  revert k. induction l as [|y l IH]; intros k H x Hx; [destruct Hx|].
  cbn in H. destruct (p y) eqn:Hy; [discriminate|].
  destruct Hx as [<-|Hx]; eauto.
Qed.

Lemma first_from_shift p l k :
  first_from p l (S k) =
  match first_from p l k with Some (i, x) => Some (S i, x) | None => None end.
Proof.
  revert k. induction l as [|y l IH]; intros k; cbn; [reflexivity|].
  destruct (p y); auto.
Qed.

Lemma set_row_length i x l : length (set_row i x l) = length l.
Proof.
  revert i. induction l as [|y l IH]; intros [|i]; cbn; auto.
Qed.

Lemma nth_error_set_row_eq i x l y :
  nth_error l i = Some y -> nth_error (set_row i x l) i = Some x.
Proof.
  revert i. induction l as [|z l IH]; intros [|i] H; cbn in *; try discriminate; auto.
Qed.

Lemma nth_error_set_row_neq i j x l :
  i <> j -> nth_error (set_row i x l) j = nth_error l j.
Proof.
  revert i j. induction l as [|z l IH]; intros [|i] [|j] H; cbn; auto; try congruence.
Qed.

Lemma set_row_same i x l : nth_error l i = Some x -> set_row i x l = l.
Proof.
  revert i. induction l as [|z l IH]; intros [|i] H; cbn in *; try congruence.
  f_equal. auto.
Qed.

Lemma map_set_row {B} (g : A -> B) i x l :
  map g (set_row i x l) = set_row i (g x) (map g l).
Proof.
  revert i. induction l as [|z l IH]; intros [|i]; cbn; auto. f_equal. auto.
Qed.

Lemma Forall_set_row (P : A -> Prop) i x l :
  Forall P l -> P x -> Forall P (set_row i x l).
Proof.
  intros Hl Hx. revert i. induction Hl as [|z l Hz Hl IH]; intros [|i]; cbn; auto.
Qed.

Lemma set_row_twice i x y l : set_row i x (set_row i y l) = set_row i x l.
Proof.
  revert i. induction l as [|z l IH]; intros [|i]; cbn; auto. f_equal. auto.
Qed.
End Tables.

(** ** What an accepted line item guarantees *)

Lemma check_item_accepted db item i row :
  check_item db item = Accepted i row ->
  nth_error (inventory db) i = Some row /\
  OrderItem.quantity item <= Inventory.available row.
Proof.
  unfold check_item. intros H.
  destruct (first _ (products db)) as [[pi product]|]; [|discriminate].
  destruct (first _ (inventory db)) as [[i' row']|] eqn:Hi; [|discriminate].
  destruct (_ <? _) eqn:Hlt; [discriminate|].
  injection H as <- <-. apply first_spec in Hi as [Hn _].
  split; [exact Hn|]. now apply Z.ltb_ge.
Qed.

Section Invariance.
Variable Q : DB -> Prop.
Hypothesis HQ : TaskInvariant Q.
Variables (self : Task) (clock : Clock) (order_id : Z).

Lemma for_each_items_keeps items oi o :
  forall s, both Q s /\ nth_error (orders (pending s)) oi = Some o ->
    wp (for_each (process_item clock) items)
       (fun _ s' => both Q s' /\ nth_error (orders (pending s')) oi = Some o)
       (fun _ => both Q) s.
Proof.
  intros s Hs.
  apply (wp_for_each (process_item clock)
           (fun _ s' => both Q s' /\ nth_error (orders (pending s')) oi = Some o));
    [|exact Hs].
  intros done x rest [c p t f] _ [[Hc Hp] Ho]. cbn in *.
  apply wp_process_item.
  - intros f'. destruct (check_item p x) as [i row|msg lk] eqn:Hv.
    + repeat split; cbn; auto. eapply inv_decrement; eauto.
    + split; assumption.
  - intros e f' _. split; assumption.
Qed.

Lemma process_order_try_keeps : keeps_both Q (process_order_try self clock order_id).
Proof.
  intros [c p t f] [Hc Hp]. cbn in Hc, Hp. unfold process_order_try.
  apply wp_bind, wp_query; [|intros; split; assumption]. intros f1.
  destruct (first _ (orders p)) as [[oi order]|] eqn:Ho.
  2:{ apply wp_ret. split; assumption. }
  apply first_spec in Ho as [Ho _].
  apply wp_bind, wp_query; [|intros; split; assumption]. intros f2.
  apply wp_bind, wp_change.
  assert (Hp1 : Q (with_orders p (set_row oi (Order.set_status order PROCESSING) (orders p)))).
  { eapply inv_order; eauto. repeat split. }
  apply wp_bind, wp_commit; [|intros; split; assumption]. intros f3.
  apply wp_bind, wp_reload; [|intros; split; assumption]. intros f3'.
  apply wp_bind, wp_query; [|intros; split; assumption]. intros f3''.
  apply wp_bind.
  eapply wp_conseq;
    [apply (for_each_items_keeps _ oi (Order.set_status order PROCESSING)) | | auto].
  { repeat split; cbn; auto. eapply nth_error_set_row_eq; eauto. }
  intros u [c4 p4 t4 f4] [[Hc4 Hp4] Ho4]. cbn in *.
  apply wp_bind, wp_change. apply wp_bind, wp_change.
  assert (Hp5 : forall o' l, order_touch (Order.set_status order PROCESSING) o' ->
            Q (with_sync_logs (with_orders p4 (set_row oi o' (orders p4))) l)).
  { intros o' l Ht. apply inv_logs; auto. eapply inv_order; eauto. }
  apply wp_bind, wp_commit.
  - intros f5. apply wp_bind, wp_reload.
    + intros f6. apply wp_ret. split; cbn; apply Hp5; repeat split.
    + intros e f6 _. split; cbn; apply Hp5; repeat split.
  - intros e f5 _. split; cbn; [assumption|]. apply Hp5; repeat split.
Qed.

Lemma _mark_failed_keeps msg task_id tb :
  keeps_both Q (_mark_failed order_id msg task_id clock tb).
Proof.
  intros [c p t f] [Hc Hp]. cbn in Hc, Hp. unfold _mark_failed.
  apply wp_try_except.
  apply wp_bind, wp_query; [|intros; apply wp_rollback; split; assumption].
  intros f1. apply wp_bind.
  assert (G : forall p', Q p' ->
            wp (add_log (failure_log order_id msg task_id clock tb) ;; commit)
               (fun _ : unit => both Q)
               (fun e => wp (rollback : M unit) (fun _ => both Q) (fun _ => both Q))
               (mkSession c p' t f1)).
  { intros p' Hp'. apply wp_bind, wp_change, wp_commit.
    - intros f2. split; cbn; apply inv_logs; auto.
    - intros e f2 _. apply wp_rollback. split; assumption. }
  destruct (first _ (orders p)) as [[oi order]|] eqn:Ho.
  - apply wp_change. apply G. apply first_spec in Ho as [Ho _].
    eapply inv_order; eauto. repeat split.
  - apply wp_ret. apply G, Hp.
Qed.

Lemma _log_retry_keeps task_id attempt error :
  keeps_both Q (_log_retry order_id task_id attempt error).
Proof.
  intros [c p t f] [Hc Hp]. cbn in Hc, Hp. unfold _log_retry.
  apply wp_try_except, wp_bind, wp_change, wp_commit.
  - intros f2. split; cbn; apply inv_logs; auto.
  - intros e f2 _. apply wp_rollback. split; assumption.
Qed.

(** Whatever the fault schedule and however the attempt ends, the
    invariant holds of the committed store afterwards. *)
Lemma process_order_keeps : keeps_both Q (process_order self clock order_id).
Proof.
  intros s Hs. unfold process_order.
  assert (Hclose : forall s', both Q s' -> both Q (close s')).
  { intros [c p t f] [Hc _]. split; exact Hc. }
  apply wp_try_finally, wp_try_except.
  eapply wp_conseq; [apply process_order_try_keeps, Hs | auto | ].
  intros e [c p t f] [Hc Hp]. cbn in Hc, Hp. unfold process_order_except.
  assert (Hroll : both Q (mkSession c c t f)) by (split; assumption).
  destruct e as [msg|ty msg tb|n e'].
  - apply wp_bind, wp_rollback, wp_bind.
    eapply wp_conseq; [apply _mark_failed_keeps, Hroll | | auto].
    intros u s' Hs'. apply wp_ret; auto.
  - apply wp_bind, wp_rollback, wp_bind.
    eapply wp_conseq; [apply _mark_failed_keeps, Hroll | | auto].
    intros u s' Hs'.
    destruct (_ <? _)%nat; [|apply wp_ret; auto].
    apply wp_bind. eapply wp_conseq; [apply _log_retry_keeps, Hs' | | auto].
    intros u' s'' Hs''. apply wp_raise; auto.
  - apply wp_bind, wp_rollback, wp_bind.
    eapply wp_conseq; [apply _mark_failed_keeps, Hroll | | auto].
    intros u s' Hs'.
    destruct (_ <? _)%nat; [|apply wp_ret; auto].
    apply wp_bind. eapply wp_conseq; [apply _log_retry_keeps, Hs' | | auto].
    intros u' s'' Hs''. apply wp_raise; auto.
Qed.

Lemma deliver_keeps fs db : Q db -> Q (store (deliver self clock fs order_id db)).
Proof.
  intros Hdb. unfold deliver.
  pose proof (process_order_keeps (SessionLocal db fs)) as H.
  unfold wp in H.
  destruct (process_order self clock order_id (SessionLocal db fs)) as [[r|e] s'];
    apply H; split; exact Hdb.
Qed.
End Invariance.

(** * The stock invariant *)

Lemma stock_ok_invariant : TaskInvariant stock_ok.
Proof.
  split; unfold stock_ok; cbn; auto.
  intros db item i row now Hdb Hv.
  apply check_item_accepted in Hv as [Hn Hq].
  apply Forall_set_row; [exact Hdb|].
  unfold Inventory.available in *. cbn. lia.
Qed.

(** C1.  If no inventory row has negative available stock before an
    attempt of [process_order], none has afterwards in the committed
    store, whatever the order, the faults met and the way the attempt
    ends (completed, failed, not found or retried): a decrement is only
    made after [check_item] found [available >= quantity] for the row. *)
Theorem C1_available_never_negative :
  forall self clock fs order_id db,
    stock_ok db ->
    stock_ok (store (deliver self clock fs order_id db)).
Proof.
  intros self clock fs order_id db Hdb.
  apply deliver_keeps; [apply stock_ok_invariant | exact Hdb].
Qed.

Lemma C1_witness :
  stock_ok shop /\ stock_ok (store (deliver worker noon lock_timeout 100 shop)).
Proof.
  assert (H : stock_ok shop).
  { unfold stock_ok, Inventory.available. cbn. repeat constructor; cbn; lia. }
  split; [exact H|]. apply (C1_available_never_negative worker noon lock_timeout 100 shop H).
Defined.

(** * Attempts without faults *)

Lemma process_item_quiet clock item c p t :
  process_item clock item (mkSession c p t []) =
  match check_item p item with
  | Accepted i row =>
      (Ok tt,
       mkSession c
         (with_inventory p (set_row i (decremented (utcnow clock) row item) (inventory p)))
         (t ++ [OrderItem.sku item]) [])
  | Rejected msg lock_held =>
      (Raise (ValueError msg),
       mkSession c p (if lock_held then t ++ [OrderItem.sku item] else t) [])
  end.
Proof.
  unfold process_item, check_item, Inventory.available. cbn.
  destruct (first _ (products p)) as [[pi product]|]; [|reflexivity]. cbn.
  destruct (first _ (inventory p)) as [[i row]|]; [|reflexivity]. cbn.
  destruct (_ <? _); reflexivity.
Qed.

Lemma for_each_quiet clock items : forall c p t,
  for_each (process_item clock) items (mkSession c p t []) =
  match fulfil (utcnow clock) items p t with
  | (None, p', t') => (Ok tt, mkSession c p' t' [])
  | (Some msg, p', t') => (Raise (ValueError msg), mkSession c p' t' [])
  end.
Proof.
  induction items as [|item rest IH]; intros c p t; [reflexivity|].
  cbn [for_each fulfil]. unfold bind. rewrite process_item_quiet.
  destruct (check_item p item) as [i row|msg lk]; [apply IH | reflexivity].
Qed.

(** The loop under an arbitrary fault schedule: it ends as [fulfil] says,
    or a fault interrupts it between two line items, at the lookups of the
    next one. *)
Lemma wp_items clock items (Q : unit -> Session -> Prop) E : forall c p t f,
  (forall f',
      match fulfil (utcnow clock) items p t with
      | (None, p', t') => Q tt (mkSession c p' t' f')
      | (Some msg, p', t') => E (ValueError msg) (mkSession c p' t' f')
      end) ->
  (forall done x rest p' t' e f',
      items = done ++ x :: rest ->
      fulfil (utcnow clock) done p t = (None, p', t') ->
      is_fault e -> E e (mkSession c p' t' f')) ->
  wp (for_each (process_item clock) items) Q E (mkSession c p t f).
Proof.
  induction items as [|item rest IH]; intros c p t f HV HF.
  - apply wp_ret, HV.
  - cbn [for_each]. apply wp_bind, wp_process_item.
    + intros f1. cbn [fulfil] in HV, HF.
      destruct (check_item p item) as [i row|msg lk] eqn:Hv; [|apply HV].
      apply IH; [exact HV|].
      intros done x rest' p' t' e f' Hi Hd He.
      apply (HF (item :: done) x rest' p' t' e f'); auto.
      * now rewrite Hi.
      * cbn [fulfil]. now rewrite Hv.
    + intros e f' He. now apply (HF [] item rest p t e f').
Qed.

Lemma first_from_set_row {A} (p : A -> bool) x' : forall l k i x,
  first_from p l k = Some (i, x) -> p x' = true ->
  first_from p (set_row (i - k) x' l) k = Some (i, x').
Proof.
  induction l as [|y l IH]; intros k i x H Hx'; cbn in H; [discriminate|].
  destruct (p y) eqn:Hy.
  - injection H as <- <-. rewrite Nat.sub_diag. cbn. now rewrite Hx'.
  - pose proof (first_from_spec _ _ _ _ _ H) as (j & -> & _).
    replace (S k + j - k)%nat with (S j) by lia. cbn. rewrite Hy.
    replace j with (S k + j - S k)%nat at 1 by lia. eapply IH; eauto.
Qed.

Lemma first_set_row {A} (p : A -> bool) l i x x' :
  first p l = Some (i, x) -> p x' = true -> first p (set_row i x' l) = Some (i, x').
Proof.
  intros H Hx'. unfold first in *.
  replace i with (i - 0)%nat at 1 by lia. eapply first_from_set_row; eauto.
Qed.

Lemma existsb_first {A} (p : A -> bool) l :
  existsb p l = match first p l with Some _ => true | None => false end.
Proof.
  unfold first. generalize 0%nat.
  induction l as [|y l IH]; intros k; cbn; [reflexivity|].
  destruct (p y); [reflexivity|]. apply IH.
Qed.

(** The bookkeeping of a failure on a session without uncommitted changes,
    when no fault is met. *)
Lemma _mark_failed_quiet order_id msg task_id clock tb c t :
  _mark_failed order_id msg task_id clock tb (mkSession c c t []) =
  (Ok tt,
   mkSession (marked_failed c order_id msg task_id clock tb)
             (marked_failed c order_id msg task_id clock tb) t []).
Proof.
  unfold _mark_failed, marked_failed, try_except, failed_order, query_order.
  unfold bind at 1. unfold bind at 1. cbn [db_op faults]. unfold bind at 1. cbn [view pending ret].
  destruct (first _ (orders c)) as [[oi order]|] eqn:Ho.
  - unfold bind at 1. cbn [write_order change pending committed lock_trace faults].
    unfold bind at 1. cbn [add_log change pending committed lock_trace faults].
    rewrite commit_quiet; [reflexivity|].
    rewrite (flush_ok_one_log _ _ _ _ (failure_log order_id msg task_id clock tb))
      by reflexivity.
    unfold log_ref_ok. cbn [failure_log SyncLog.order_id orders with_orders with_sync_logs].
    rewrite existsb_first.
    rewrite (first_set_row _ _ _ _
               (Order.set_error_message (Order.set_status order FAILED) (Some msg)) Ho);
      [reflexivity|].
    apply first_spec in Ho as [_ Hid]. exact Hid.
  - unfold bind at 1. cbn [ret]. unfold bind at 1.
    cbn [add_log change pending committed lock_trace faults].
    rewrite commit_refused; [reflexivity|].
    rewrite (flush_ok_one_log _ _ _ _ (failure_log order_id msg task_id clock tb))
      by reflexivity.
    unfold log_ref_ok. cbn [failure_log SyncLog.order_id orders with_sync_logs].
    now rewrite existsb_first, Ho.
Qed.

Lemma _log_retry_quiet order_id task_id attempt error c t :
  _log_retry order_id task_id attempt error (mkSession c c t []) =
  (Ok tt,
   mkSession (retry_logged c order_id task_id attempt error)
             (retry_logged c order_id task_id attempt error) t []).
Proof.
  unfold _log_retry, retry_logged, try_except.
  unfold bind at 1. cbn [add_log change pending committed lock_trace faults].
  destruct (existsb _ (orders c)) eqn:Hex.
  - rewrite commit_quiet; [reflexivity|].
    now rewrite (flush_ok_one_log _ _ _ _ (retry_log order_id task_id attempt error)).
  - rewrite commit_refused; [reflexivity|].
    now rewrite (flush_ok_one_log _ _ _ _ (retry_log order_id task_id attempt error)).
Qed.

Lemma fulfil_app now pre rest : forall p t,
  fulfil now (pre ++ rest) p t =
  match fulfil now pre p t with
  | (None, p', t') => fulfil now rest p' t'
  | r => r
  end.
Proof.
  induction pre as [|x pre IH]; intros p t; [reflexivity|].
  cbn [app fulfil]. destruct (check_item p x); [apply IH | reflexivity].
Qed.

(** The loop never touches another table than [inventory]. *)
Lemma fulfil_frame now items : forall p t r p' t',
  fulfil now items p t = (r, p', t') ->
  products p' = products p /\ orders p' = orders p /\
  order_items p' = order_items p /\ sync_logs p' = sync_logs p.
Proof.
  induction items as [|x items IH]; intros p t r p' t' H; cbn in H.
  - injection H as <- <- <-. auto.
  - destruct (check_item p x) as [i row|msg lk].
    + apply IH in H. exact H.
    + injection H as <- <- <-. auto.
Qed.

(** The record of a completed attempt names an order the session sees. *)
Lemma success_log_ref_ok self clock order_id db oi order p items :
  first (fun o => Order.id o =? order_id) (orders db) = Some (oi, order) ->
  orders p = orders (claimed db oi order) ->
  log_ref_ok
    (with_sync_logs (with_orders p (set_row oi (completed_order clock order) (orders p)))
       (sync_logs p ++ [success_log self clock (completed_order clock order) items]))
    (success_log self clock (completed_order clock order) items) = true.
Proof.
  intros Ho Hp. unfold log_ref_ok.
  cbn [success_log SyncLog.order_id orders with_orders with_sync_logs completed_order
       Order.set_error_message Order.set_processed_at Order.set_status Order.id].
  rewrite Hp. unfold claimed. cbn [orders with_orders]. rewrite set_row_twice.
  pose proof (first_spec _ _ _ _ Ho) as [_ Hid]. apply Z.eqb_eq in Hid.
  rewrite Hid, existsb_first.
  rewrite (first_set_row _ _ _ _ (completed_order clock order) Ho); [reflexivity|].
  cbn. now apply Z.eqb_eq.
Qed.

(** An attempt that meets no fault, in full. *)
Lemma deliver_quiet self clock order_id db :
  deliver self clock [] order_id db =
  match first (fun o => Order.id o =? order_id) (orders db) with
  | None => mkAttempt (Ok (RetError (msg_order_not_found order_id))) db []
  | Some (oi, order) =>
      match fulfil (utcnow clock) (items_of db order) (claimed db oi order) [] with
      | (None, p, t) =>
          mkAttempt
            (Ok (RetCompleted order_id (Order.external_order_id order) (elapsed_ms clock)))
            (completed_store self clock db oi order p) t
      | (Some msg, _, t) =>
          mkAttempt
            (Ok (RetFailed order_id msg))
            (marked_failed (claimed db oi order) order_id msg (request_id self) clock None) t
      end
  end.
Proof.
  match goal with |- _ = ?rhs => set (X := rhs) end.
  assert (H : wp (process_order self clock order_id)
                 (fun r s' => mkAttempt (Ok r) (committed s') (lock_trace s') = X)
                 (fun e s' => mkAttempt (Raise e) (committed s') (lock_trace s') = X)
                 (SessionLocal db [])).
  { unfold process_order, SessionLocal. apply wp_try_finally, wp_try_except.
    unfold process_order_try, query_order, load_items.
    apply wp_bind, wp_query_quiet.
    destruct (first _ (orders db)) as [[oi order]|] eqn:Ho; [|apply wp_ret; reflexivity].
    apply wp_bind, wp_query_quiet.
    apply wp_bind, wp_change. fold (claimed db oi order).
    apply wp_bind, wp_commit_quiet; [now apply flush_ok_no_log|].
    apply wp_bind, wp_reload_quiet.
    apply wp_bind, wp_query_quiet.
    cbn [Order.set_status Order.id order_items claimed with_orders].
    fold (items_of db order).
    apply wp_bind. unfold wp at 1. rewrite for_each_quiet.
    destruct (fulfil _ _ _ _) as [[[msg|] p] t] eqn:Hf.
    - unfold process_order_except. cbn [exn_str].
      apply wp_bind, wp_rollback, wp_bind.
      eapply wp_of_run; [apply _mark_failed_quiet|]. apply wp_ret. reflexivity.
    - pose proof (fulfil_frame _ _ _ _ _ _ _ Hf) as (_ & Hord & _ & Hlogs).
      apply wp_bind, wp_change, wp_bind, wp_change.
      fold (completed_order clock order).
      apply wp_bind, wp_commit_quiet.
      + rewrite (flush_ok_one_log _ _ _ _
                   (success_log self clock (completed_order clock order) (items_of db order))).
        * now apply (success_log_ref_ok self clock order_id db oi order p).
        * cbn [sync_logs with_sync_logs with_orders]. now rewrite Hlogs.
      + apply wp_bind, wp_reload_quiet, wp_ret. reflexivity. }
  unfold wp in H. unfold deliver.
  destruct (process_order self clock order_id (SessionLocal db [])) as [[r|e] s']; exact H.
Qed.

Lemma first_from_set_row_key {A} (p : A -> bool) y : forall l j k z,
  nth_error l j = Some z -> p y = p z ->
  first_from p (set_row j y l) k =
  match first_from p l k with
  | Some (i, r) => Some (i, if (i =? k + j)%nat then y else r)
  | None => None
  end.
Proof.
  induction l as [|z0 l IH]; intros [|j] k z Hn Hp; cbn in Hn; try discriminate.
  - injection Hn as ->. cbn. rewrite Hp. destruct (p z) eqn:Hz.
    + now rewrite Nat.add_0_r, Nat.eqb_refl.
    + destruct (first_from p l (S k)) as [[i r]|] eqn:Hf; [|reflexivity].
      apply first_from_spec in Hf as (j' & -> & _).
      replace (S k + j' =? k + 0)%nat with false; [reflexivity|].
      symmetry. apply Nat.eqb_neq. lia.
  - cbn. destruct (p z0).
    + replace (k =? k + S j)%nat with false; [reflexivity|].
      symmetry. apply Nat.eqb_neq. lia.
    + rewrite (IH j (S k) z Hn Hp).
      now replace (S k + j)%nat with (k + S j)%nat by lia.
Qed.

Lemma first_set_row_key {A} (p : A -> bool) y l j z :
  nth_error l j = Some z -> p y = p z ->
  first p (set_row j y l) =
  match first p l with
  | Some (i, r) => Some (i, if (i =? j)%nat then y else r)
  | None => None
  end.
Proof.
  intros Hn Hp. unfold first. now rewrite (first_from_set_row_key p y l j 0%nat z).
Qed.

(** ** Line items that are bound to fail *)

Section Doomed.
Variables (now : Z) (item : OrderItem.t).
Variable R : DB -> Prop.
Variable C : OrderItem.t -> Prop.
Hypothesis R_rejects : forall db, R db -> exists msg lk, check_item db item = Rejected msg lk.
Hypothesis R_stable : forall db x i row,
R db -> C x -> check_item db x = Accepted i row ->
R (with_inventory db (set_row i (decremented now row x) (inventory db))).


Lemma fulfil_doomed items : forall p t,
In item items -> Forall C items -> R p ->
exists msg p' t', fulfil now items p t = (Some msg, p', t').
Proof.
induction items as [|x items IH]; intros p t Hin HC HR; [destruct Hin|].
inversion HC as [|? ? Hx HC']; subst. cbn [fulfil].
destruct (check_item p x) as [i row|msg lk] eqn:Hv; [|eauto].
destruct Hin as [->|Hin].
- destruct (R_rejects p HR) as (msg & lk & Hrej). congruence.
- apply IH; [exact Hin | exact HC' | apply (R_stable p x i row HR Hx Hv)].
Qed.
End Doomed.

Lemma stock_for_after_decrement now db x i row item a :
  0 <= OrderItem.quantity x ->
  check_item db x = Accepted i row ->
  stock_for db item = Some a ->
  exists a',
    stock_for (with_inventory db (set_row i (decremented now row x) (inventory db))) item
      = Some a' /\ a' <= a.
Proof.
  intros Hx Hv Ha. apply check_item_accepted in Hv as [Hn _].
  unfold stock_for in *. cbn [products inventory with_inventory].
  destruct (first _ (products db)) as [[pi product]|]; [|discriminate].
  rewrite (first_set_row_key _ _ _ _ row Hn) by reflexivity.
  destruct (first _ (inventory db)) as [[j r]|] eqn:Hf; [|discriminate].
  injection Ha as <-. destruct (j =? i)%nat eqn:Hj.
  - apply Nat.eqb_eq in Hj. subst j.
    apply first_spec in Hf as [Hf _]. assert (r = row) by congruence. subst r.
    exists (Inventory.available (decremented now row x)). split; [reflexivity|].
    unfold Inventory.available. cbn. lia.
  - exists (Inventory.available r). split; [reflexivity | lia].
Qed.

Lemma first_none {A} (p : A -> bool) l :
  (forall x, In x l -> p x = false) -> first p l = None.
Proof.
  unfold first. generalize 0%nat.
  induction l as [|y l IH]; intros k H; [reflexivity|].
  cbn. rewrite (H y) by now left. apply IH. intros x Hx. apply H. now right.
Qed.

Lemma marked_failed_claimed self clock order_id db oi order msg :
  first (fun o => Order.id o =? order_id) (orders db) = Some (oi, order) ->
  marked_failed (claimed db oi order) order_id msg (request_id self) clock None =
  business_failure_store self clock order_id db oi order msg.
Proof.
  intros Ho. unfold marked_failed, claimed, business_failure_store.
  cbn [orders with_orders].
  rewrite (first_set_row _ _ _ _ (Order.set_status order PROCESSING) Ho).
  - cbn. now rewrite set_row_twice.
  - apply first_spec in Ho as [_ Hid]. exact Hid.
Qed.

Lemma check_item_short db item a :
  stock_for db item = Some a -> a < OrderItem.quantity item ->
  check_item db item =
  Rejected (msg_insufficient_stock (OrderItem.sku item) (OrderItem.quantity item) a) true.
Proof.
  unfold stock_for, check_item. intros Ha Hlt.
  destruct (first _ (products db)) as [[pi product]|]; [|discriminate].
  destruct (first _ (inventory db)) as [[i row]|]; [|discriminate].
  injection Ha as <-. apply Z.ltb_lt in Hlt. now rewrite Hlt.
Qed.



(** A fault-free attempt at an order one of whose line items is bound to be
    rejected: the order fails on the first rejected item. *)
Lemma deliver_doomed (R : DB -> Prop) (C : OrderItem.t -> Prop) self clock order_id db oi
    order item :
  (forall db', R db' -> exists msg lk, check_item db' item = Rejected msg lk) ->
  (forall db' x i row,
      R db' -> C x -> check_item db' x = Accepted i row ->
      R (with_inventory db' (set_row i (decremented (utcnow clock) row x) (inventory db')))) ->
  first (fun o => Order.id o =? order_id) (orders db) = Some (oi, order) ->
  In item (items_of db order) ->
  Forall C (items_of db order) ->
  R (claimed db oi order) ->
  exists msg p t,
    fulfil (utcnow clock) (items_of db order) (claimed db oi order) [] = (Some msg, p, t) /\
    deliver self clock [] order_id db =
    mkAttempt (Ok (RetFailed order_id msg))
              (business_failure_store self clock order_id db oi order msg) t.
Proof.
  intros Hrej Hst Ho Hin HC HR.
  destruct (fulfil_doomed (utcnow clock) item R C Hrej Hst (items_of db order)
              (claimed db oi order) [] Hin HC HR) as (msg & p & t & Hf).
  exists msg, p, t. split; [exact Hf|].
  rewrite deliver_quiet, Ho, Hf. now rewrite (marked_failed_claimed _ _ _ _ _ _ _ Ho).
Qed.

(** What the loop over the earlier items leaves, read back from a run. *)
Lemma for_each_passed clock pre c p t s1 :
  for_each (process_item clock) pre (mkSession c p t []) = (Ok tt, s1) ->
  exists p' t', fulfil (utcnow clock) pre p t = (None, p', t') /\ s1 = mkSession c p' t' [].
Proof.
  rewrite for_each_quiet. destruct (fulfil _ _ _ _) as [[[msg|] p'] t']; [discriminate|].
  intros H. injection H as <-. eauto.
Qed.

Lemma check_item_row_of db x i row :
  check_item db x = Accepted i row -> row_of db x = Some i.
Proof.
  unfold check_item, row_of.
  destruct (first _ (products db)) as [[pi product]|]; [|discriminate].
  destruct (first _ (inventory db)) as [[i' row']|]; [|discriminate].
  destruct (_ <? _); [discriminate|]. now intros [= -> _].
Qed.

Lemma row_of_after_decrement now db x i row item :
  check_item db x = Accepted i row ->
  row_of (with_inventory db (set_row i (decremented now row x) (inventory db))) item
  = row_of db item.
Proof.
  intros Hv. apply check_item_accepted in Hv as [Hn _].
  unfold row_of. cbn [products inventory with_inventory].
  destruct (first _ (products db)) as [[pi product]|]; [|reflexivity].
  rewrite (first_set_row_key _ _ _ _ row Hn) by reflexivity.
  now destruct (first _ (inventory db)) as [[j r]|].
Qed.

Lemma demand_after_decrement now db x i row items k :
  check_item db x = Accepted i row ->
  demand (with_inventory db (set_row i (decremented now row x) (inventory db))) items k
  = demand db items k.
Proof.
  intros Hv. unfold demand. f_equal. apply map_ext. intros it.
  unfold charge. now rewrite (row_of_after_decrement now db x i row it Hv).
Qed.

(** The stock behind a line item after the decrement of an accepted one:
    what it was, less what the accepted item took from the same row. *)
Lemma stock_for_decrement now db x i0 row0 item i a :
  check_item db x = Accepted i0 row0 ->
  row_of db item = Some i ->
  stock_for db item = Some a ->
  stock_for (with_inventory db (set_row i0 (decremented now row0 x) (inventory db))) item
  = Some (a - charge db i x).
Proof.
  intros Hv Hi Ha. pose proof (check_item_row_of _ _ _ _ Hv) as Hx.
  apply check_item_accepted in Hv as [Hn _].
  unfold charge. rewrite Hx. unfold stock_for, row_of in *.
  cbn [products inventory with_inventory].
  destruct (first _ (products db)) as [[pi product]|]; [|discriminate].
  rewrite (first_set_row_key _ _ _ _ row0 Hn) by reflexivity.
  destruct (first _ (inventory db)) as [[j r]|] eqn:Hf; [|discriminate].
  injection Hi as ->. injection Ha as <-. rewrite (Nat.eqb_sym i0 i).
  destruct (i =? i0)%nat eqn:Hj.
  - apply Nat.eqb_eq in Hj. subst i0.
    apply first_spec in Hf as [Hf _]. assert (r = row0) by congruence. subst r.
    unfold Inventory.available. cbn. f_equal. lia.
  - f_equal. lia.
Qed.

(** The stock behind a line item once the loop is through the items
    [pre]: what it was, less what these items ask of the same row. *)
Lemma fulfil_stock_for now item i pre : forall p t p' t' a,
  fulfil now pre p t = (None, p', t') ->
  row_of p item = Some i ->
  stock_for p item = Some a ->
  row_of p' item = Some i /\ stock_for p' item = Some (a - demand p pre i).
Proof.
  induction pre as [|x pre IH]; intros p t p' t' a H Hi Ha; cbn [fulfil] in H.
  - injection H as <- <-. split; [exact Hi|]. unfold demand. cbn. rewrite Ha. f_equal. lia.
  - destruct (check_item p x) as [i0 row0|msg lk] eqn:Hv; [|discriminate].
    apply (IH _ _ _ _ (a - charge p i x)) in H.
    + destruct H as [Hi' Ha']. split; [exact Hi'|]. rewrite Ha'.
      rewrite (demand_after_decrement now p x i0 row0 pre i Hv).
      unfold demand. cbn [map fold_right]. f_equal. lia.
    + now rewrite (row_of_after_decrement now p x i0 row0 item Hv).
    + now apply stock_for_decrement.
Qed.

Lemma demand_nonneg db i items :
  Forall (fun it => 0 <= OrderItem.quantity it) items -> 0 <= demand db items i.
Proof.
  unfold demand. induction 1 as [|x items Hx _ IH]; cbn [map fold_right]; [lia|].
  assert (0 <= charge db i x).
  { unfold charge. destruct (row_of db x) as [j|]; [destruct (j =? i)%nat|]; lia. }
  lia.
Qed.

Lemma stock_for_row_of db item a :
  stock_for db item = Some a -> exists i, row_of db item = Some i.
Proof.
  unfold stock_for, row_of.
  destruct (first _ (products db)) as [[pi product]|]; [|discriminate].
  destruct (first _ (inventory db)) as [[i row]|]; [eauto | discriminate].
Qed.

(** * Order not found *)

(** C4 (what the code does).  When no order row has the identifier of the
    job and the lookup itself does not fault, [process_order] returns the
    not-found error result, which is no exception, so nothing is retried.
    The module promises to log every result to [sync_logs]; this result it
    does not log: the store is left as it was, no SyncLog is written for
    such an attempt, and no lock is taken. *)
Theorem C4_order_not_found :
  forall self clock fs order_id db,
    (forall o, In o (orders db) -> Order.id o <> order_id) ->
    hd None fs = None ->
    deliver self clock fs order_id db =
    mkAttempt (Ok (RetError (msg_order_not_found order_id))) db [].
Proof.
  intros self clock fs order_id db Hno Hfs.
  assert (Hf : first (fun o => Order.id o =? order_id) (orders db) = None).
  { apply first_none. intros o Ho. apply Z.eqb_neq. auto. }
  unfold deliver, process_order, try_finally, try_except, process_order_try.
  destruct fs as [|[ft|] fs]; cbn in Hfs; try discriminate; cbn; rewrite Hf; reflexivity.
Qed.

Lemma C4_witness :
  deliver worker noon [] 999 shop =
  mkAttempt (Ok (RetError (msg_order_not_found 999))) shop [].
Proof.
  apply C4_order_not_found; [|reflexivity].
  intros o Ho. cbn in Ho.
  repeat (destruct Ho as [<-|Ho]; [discriminate|]). destruct Ho.
Defined.

(** The failing input: for the identifier 999, which no order of the shop
    has, the attempt ends with the not-found result and the audit log has
    not grown by one record: it is still empty. *)
Lemma C4_counterexample :
  (forall o, In o (orders shop) -> Order.id o <> 999) /\
  outcome (deliver worker noon [] 999 shop) = Ok (RetError "Order 999 not found") /\
  sync_logs (store (deliver worker noon [] 999 shop)) = [] /\
  ~ (exists l, sync_logs (store (deliver worker noon [] 999 shop)) = sync_logs shop ++ [l]).
Proof.
  split; [|split; [reflexivity | split; [reflexivity|]]].
  - intros o Ho. cbn in Ho.
    repeat (destruct Ho as [<-|Ho]; [discriminate|]). destruct Ho.
  - intros [l Hl]. discriminate Hl.
Qed.

(** * Business validation errors *)

(** C5 (as the code has it).  Take an order whose line items all have
    non-negative quantities, one of them asking for more than the available
    stock of its SKU.  A fault-free attempt fails the order with a business
    validation error, that of the first line item to be rejected: the
    result is the failed result with the message (no retry is raised),
    every table but [orders] and [sync_logs] is as before the attempt, the
    inventory in particular, the order row is FAILED with the message, and
    exactly one record is appended to the audit log, a FAILURE record for
    the order with the message.  When the loop gets through the items
    before the short one, the message is the insufficient-stock message of
    that item, with the requested quantity and the available stock found at
    the check: the stock the row had before the attempt, less what the
    items before took from the same row. *)
Theorem C5_insufficient_stock :
  forall self clock order_id db oi order item a,
    first (fun o => Order.id o =? order_id) (orders db) = Some (oi, order) ->
    In item (items_of db order) ->
    stock_for db item = Some a ->
    a < OrderItem.quantity item ->
    Forall (fun it => 0 <= OrderItem.quantity it) (items_of db order) ->
    exists msg t,
      deliver self clock [] order_id db =
      mkAttempt (Ok (RetFailed order_id msg))
                (business_failure_store self clock order_id db oi order msg) t /\
      inventory (store (deliver self clock [] order_id db)) = inventory db /\
      nth_error (orders (store (deliver self clock [] order_id db))) oi
      = Some (Order.mk (Order.id order) (Order.external_order_id order) FAILED
                (Order.processed_at order) (Some msg) (Order.retry_count order)) /\
      sync_logs (store (deliver self clock [] order_id db))
      = sync_logs db
          ++ [SyncLog.mk (Some (request_id self)) "process_order" FAILURE (Some order_id)
                None (Some msg) None (Some (elapsed_ms clock))] /\
      forall pre post s1,
        items_of db order = pre ++ item :: post ->
        for_each (process_item clock) pre (SessionLocal (claimed db oi order) []) = (Ok tt, s1) ->
        exists i,
          row_of db item = Some i /\
          0 <= demand db pre i /\
          stock_for (pending s1) item = Some (a - demand db pre i) /\
          msg = msg_insufficient_stock (OrderItem.sku item) (OrderItem.quantity item)
                  (a - demand db pre i).
Proof.
  intros self clock order_id db oi order item a Ho Hin Ha Hlt HC.
  set (R := fun db' => exists a', stock_for db' item = Some a' /\ a' <= a).
  assert (Hst : forall db' x i row,
             R db' -> 0 <= OrderItem.quantity x -> check_item db' x = Accepted i row ->
             R (with_inventory db'
                  (set_row i (decremented (utcnow clock) row x) (inventory db')))).
  { intros db' x i row (a' & Ha' & Hle) Hx Hv.
    destruct (stock_for_after_decrement (utcnow clock) db' x i row item a' Hx Hv Ha')
      as (a'' & Ha'' & Hle'').
    exists a''. split; [exact Ha''|]. now apply Z.le_trans with a'. }
  assert (HR : R (claimed db oi order)) by (exists a; split; [exact Ha|apply Z.le_refl]).
  destruct (deliver_doomed R (fun it => 0 <= OrderItem.quantity it)
              self clock order_id db oi order item) as (msg & p & t & Hf & Hd); auto.
  { intros db' (a' & Ha' & Hle). eexists _, _. apply (check_item_short db' item a' Ha').
    now apply Z.le_lt_trans with a. }
  exists msg, t. split; [exact Hd|]. rewrite Hd. cbn [store].
  split; [reflexivity|]. split.
  { unfold business_failure_store. cbn [orders]. apply first_spec in Ho as [Ho _].
    now apply (nth_error_set_row_eq _ _ _ order). }
  split; [reflexivity|].
  intros pre post s1 Hitems Hrun.
  apply for_each_passed in Hrun as (p' & t' & Hpre & ->). cbn [pending].
  rewrite Hitems in HC. apply Forall_app in HC as [HCpre _].
  destruct (stock_for_row_of db item a Ha) as [i Hi].
  destruct (fulfil_stock_for (utcnow clock) item i pre _ _ _ _ a Hpre Hi Ha) as [_ Ha'].
  change (demand (claimed db oi order) pre i) with (demand db pre i) in Ha'.
  pose proof (demand_nonneg db i pre HCpre) as Hd0.
  exists i. split; [exact Hi|]. split; [exact Hd0|]. split; [exact Ha'|].
  rewrite Hitems, fulfil_app, Hpre in Hf. cbn [fulfil] in Hf.
  rewrite (check_item_short p' item _ Ha') in Hf by lia.
  congruence.
Qed.

Lemma C5_witness :
  exists msg t,
    deliver worker noon [] 102 shop =
    mkAttempt (Ok (RetFailed 102 msg))
      (business_failure_store worker noon 102 shop 2 (Order.mk 102 "E102" PENDING None None 0) msg)
      t /\
    inventory (store (deliver worker noon [] 102 shop)) = inventory shop /\
    nth_error (orders (store (deliver worker noon [] 102 shop))) 2
    = Some (Order.mk 102 "E102" FAILED None (Some msg) 0) /\
    sync_logs (store (deliver worker noon [] 102 shop))
    = sync_logs shop
        ++ [SyncLog.mk (Some "task-1") "process_order" FAILURE (Some 102)
              None (Some msg) None (Some 7)] /\
    forall pre post s1,
      items_of shop (Order.mk 102 "E102" PENDING None None 0)
        = pre ++ OrderItem.mk 3 102 "X1" 5 :: post ->
      for_each (process_item noon) pre
        (SessionLocal (claimed shop 2 (Order.mk 102 "E102" PENDING None None 0)) [])
        = (Ok tt, s1) ->
      exists i,
        row_of shop (OrderItem.mk 3 102 "X1" 5) = Some i /\
        0 <= demand shop pre i /\
        stock_for (pending s1) (OrderItem.mk 3 102 "X1" 5) = Some (2 - demand shop pre i) /\
        msg = msg_insufficient_stock "X1" 5 (2 - demand shop pre i).
Proof.
  apply (C5_insufficient_stock worker noon 102 shop 2
           (Order.mk 102 "E102" PENDING None None 0) (OrderItem.mk 3 102 "X1" 5) 2).
  - reflexivity.
  - cbn. auto.
  - reflexivity.
  - cbn. lia.
  - cbn. repeat constructor; cbn; lia.
Defined.

(** The scenario of the specification: two in stock, five requested. *)
Example insufficient_stock_scenario :
  deliver worker noon [] 102 shop =
  mkAttempt
    (Ok (RetFailed 102 "Insufficient stock for 'X1': requested=5, available=2"))
    (business_failure_store worker noon 102 shop 2 (Order.mk 102 "E102" PENDING None None 0)
       "Insufficient stock for 'X1': requested=5, available=2")
    ["X1"].
Proof. reflexivity. Qed.

(** The statement of the specification fails on two counts.  In order 103 the line item
    for five X1 (two available) comes after an item with an unknown SKU:
    the error raised is the unknown-SKU one and carries no counts.  In order
    104 it comes after an item for minus five X1, which raises the stock to
    seven: the attempt completes. *)
Lemma C5_counterexample :
  (In (OrderItem.mk 5 103 "X1" 5) (items_of shop (Order.mk 103 "E103" PENDING None None 0)) /\
   stock_for shop (OrderItem.mk 5 103 "X1" 5) = Some 2 /\
   outcome (deliver worker noon [] 103 shop)
     = Ok (RetFailed 103 "Product with SKU 'GHOST' not found in catalog")) /\
  (In (OrderItem.mk 7 104 "X1" 5) (items_of shop (Order.mk 104 "E104" PENDING None None 0)) /\
   stock_for shop (OrderItem.mk 7 104 "X1" 5) = Some 2 /\
   outcome (deliver worker noon [] 104 shop) = Ok (RetCompleted 104 "E104" 7)).
Proof.
  repeat split; try reflexivity; cbn; auto.
Qed.




(** * Attempts under any fault schedule *)

Lemma fulfil_trace now items : forall p t r p' t',
  fulfil now items p t = (r, p', t') ->
  (exists k, t' = t ++ firstn k (map OrderItem.sku items)) /\
  (r = None -> t' = t ++ map OrderItem.sku items).
Proof.
  induction items as [|x items IH]; intros p t r p' t' H; cbn in H.
  - injection H as <- <- <-. split; [exists 0%nat|]; cbn; now rewrite app_nil_r.
  - destruct (check_item p x) as [i row|msg lk].
    + apply IH in H as [[k Hk] Hall]. split.
      * exists (S k). cbn. now rewrite Hk, <- app_assoc.
      * intros Hr. cbn. now rewrite (Hall Hr), <- app_assoc.
    + injection H as <- <- <-. split; [|discriminate].
      destruct lk; [exists 1%nat | exists 0%nat]; cbn; [reflexivity | now rewrite app_nil_r].
Qed.

(** The failure bookkeeping swallows its own exceptions and takes no lock. *)
Lemma _mark_failed_run order_id msg task_id clock tb s :
  exists s', _mark_failed order_id msg task_id clock tb s = (Ok tt, s') /\
             lock_trace s' = lock_trace s.
Proof.
  destruct s as [c p t f].
  assert (H : wp (_mark_failed order_id msg task_id clock tb)
                 (fun _ s' => lock_trace s' = t) (fun _ _ => False)
                 (mkSession c p t f)).
  { unfold _mark_failed, query_order. apply wp_try_except, wp_bind.
    apply wp_query; [|intros; now apply wp_rollback].
    intros f1. apply wp_bind.
    destruct (first _ (orders p)) as [[oi o]|]; [apply wp_change | apply wp_ret];
      (apply wp_bind, wp_change, wp_commit; [reflexivity | intros; now apply wp_rollback]). }
  unfold wp in H.
  destruct (_mark_failed order_id msg task_id clock tb (mkSession c p t f)) as [[[]|e] s'];
    [eauto | destruct H].
Qed.

Lemma _log_retry_run order_id task_id attempt error s :
  exists s', _log_retry order_id task_id attempt error s = (Ok tt, s') /\
             lock_trace s' = lock_trace s.
Proof.
  destruct s as [c p t f].
  assert (H : wp (_log_retry order_id task_id attempt error)
                 (fun _ s' => lock_trace s' = t) (fun _ _ => False)
                 (mkSession c p t f)).
  { unfold _log_retry. apply wp_try_except, wp_bind, wp_change, wp_commit;
      [reflexivity | intros; now apply wp_rollback]. }
  unfold wp in H.
  destruct (_log_retry order_id task_id attempt error (mkSession c p t f)) as [[[]|e] s'];
    [eauto | destruct H].
Qed.

(** The [except] clauses never report a completed order and take no lock. *)
Lemma process_order_except_run self clock order_id e s :
  exists r s', process_order_except self clock order_id e s = (r, s') /\
               lock_trace s' = lock_trace s /\
               (forall x, r = Ok x -> is_completed x = false).
Proof.
  assert (G : forall msg tb (k : M TaskReturn),
             (forall s1, exists r s', k s1 = (r, s') /\ lock_trace s' = lock_trace s1 /\
                                      (forall x, r = Ok x -> is_completed x = false)) ->
             exists r s',
               (rollback ;; _mark_failed order_id msg (request_id self) clock tb ;; k) s
                 = (r, s') /\
               lock_trace s' = lock_trace s /\
               (forall x, r = Ok x -> is_completed x = false)).
  { intros msg tb k Hk. unfold bind at 1. cbn.
    destruct (_mark_failed_run order_id msg (request_id self) clock tb (rollback_session s))
      as (s1 & H1 & Ht1).
    unfold bind at 1. rewrite H1.
    destruct (Hk s1) as (r & s' & Hr & Ht & Hc).
    exists r, s'. split; [exact Hr|]. split; [|exact Hc].
    rewrite Ht, Ht1. now destruct s. }
  assert (Gret : forall x s1, is_completed x = false ->
             exists r s', ret x s1 = (r, s') /\ lock_trace s' = lock_trace s1 /\
                          (forall y, r = Ok y -> is_completed y = false)).
  { intros x s1 Hx. exists (Ok x), s1. repeat split. intros y Hy. congruence. }
  assert (Gretry : forall msg (ex : exn) s1,
             exists r s',
               (if (request_retries self <? max_retries)%nat then
                  _log_retry order_id (request_id self) (request_retries self + 1) msg ;;
                  raise (Retry (retry_delay (request_retries self)) ex)
                else ret (RetFailed order_id msg)) s1 = (r, s') /\
               lock_trace s' = lock_trace s1 /\
               (forall y, r = Ok y -> is_completed y = false)).
  { intros msg ex s1. destruct (_ <? _)%nat; [|now apply Gret].
    destruct (_log_retry_run order_id (request_id self) (request_retries self + 1) msg s1)
      as (s2 & H2 & Ht2).
    eexists _, s2. unfold bind. rewrite H2. repeat split; [exact Ht2|discriminate]. }
  unfold process_order_except. destruct e as [msg|ty msg tb|n e'].
  - apply G. intros s1. now apply Gret.
  - apply G. intros s1. apply Gretry.
  - apply G. intros s1. apply Gretry.
Qed.

Lemma firstn_map_app_length {A B} (g : A -> B) (done rest : list A) :
  map g done = firstn (length done) (map g (done ++ rest)).
Proof.
  rewrite map_app, firstn_app, length_map, Nat.sub_diag, firstn_O, app_nil_r.
  now rewrite <- (length_map g done), firstn_all.
Qed.

Lemma process_order_envelope self clock order_id db fs :
  wp (process_order self clock order_id)
     (fun r => attempt_envelope self clock order_id db (is_completed r))
     (fun _ => attempt_envelope self clock order_id db false)
     (SessionLocal db fs).
Proof.
  unfold process_order. apply wp_try_finally, wp_try_except.
  set (skus := map OrderItem.sku (job_items db order_id)).
  (* what the [except] clauses make of an exception raised with a good trace *)
  assert (Hexc : forall e s1,
             (exists k, lock_trace s1 = firstn k skus) ->
             wp (process_order_except self clock order_id e)
                (fun r s' => attempt_envelope self clock order_id db (is_completed r) (close s'))
                (fun _ s' => attempt_envelope self clock order_id db false (close s')) s1).
  { intros e s1 Hk.
    destruct (process_order_except_run self clock order_id e s1) as (r & s' & Hr & Ht & Hc).
    unfold wp. rewrite Hr.
    assert (Hk' : exists k, lock_trace (close s') = firstn k skus).
    { destruct s'; cbn in *. now rewrite Ht. }
    destruct r as [x|e']; (split; [exact Hk'|]); [|discriminate].
    rewrite (Hc x eq_refl). discriminate. }
  assert (Hnil : exists k, @nil string = firstn k skus) by (exists 0%nat; reflexivity).
  unfold SessionLocal, process_order_try.
  apply wp_bind, wp_query; [|intros; apply Hexc; exact Hnil]. intros f1.
  destruct (first _ (orders db)) as [[oi order]|] eqn:Ho.
  2:{ apply wp_ret. split; [exact Hnil|discriminate]. }
  assert (Hji : skus = map OrderItem.sku (items_of db order)).
  { unfold skus, job_items. now rewrite Ho. }
  assert (Hfull : exists k, map OrderItem.sku (items_of db order) = firstn k skus).
  { exists (length skus). now rewrite firstn_all. }
  apply wp_bind, wp_query; [|intros; apply Hexc; exact Hnil]. intros f2.
  fold (items_of db order). apply wp_bind, wp_change. fold (claimed db oi order).
  apply wp_bind, wp_commit; [|intros; apply Hexc; exact Hnil]. intros f3.
  apply wp_bind, wp_reload; [|intros; apply Hexc; exact Hnil]. intros f3'.
  apply wp_bind, wp_query; [|intros; apply Hexc; exact Hnil]. intros f3''.
  cbn [Order.set_status Order.id order_items claimed with_orders].
  fold (items_of db order).
  apply wp_bind, wp_items.
  - intros f4.
    destruct (fulfil _ _ _ _) as [[[msg|] p] t] eqn:Hf;
      pose proof (fulfil_trace _ _ _ _ _ _ _ Hf) as [Hk Hall].
    { apply Hexc. rewrite Hji. exact Hk. }
    specialize (Hall eq_refl). cbn [app] in Hall. subst t.
    apply wp_bind, wp_change, wp_bind, wp_change, wp_bind, wp_commit.
    + intros f5. apply wp_bind, wp_reload; [|intros; apply Hexc; exact Hfull].
      intros f6. apply wp_ret. split; [exact Hfull|].
      intros _. exists oi, order, p. split; [exact Ho|]. split; [exact Hf | reflexivity].
    + intros e f5 _. apply Hexc. exact Hfull.
  - intros done x rest p' t' e f' Hitems Hdone _. apply Hexc. cbn.
    apply fulfil_trace in Hdone as [_ Hall]. specialize (Hall eq_refl). cbn [app] in Hall.
    subst t'. exists (length done). rewrite Hji, Hitems. apply firstn_map_app_length.
Qed.

Lemma deliver_envelope self clock fs order_id db :
  let a := deliver self clock fs order_id db in
  (exists k, locked a = firstn k (map OrderItem.sku (job_items db order_id))) /\
  (forall x y z, outcome a = Ok (RetCompleted x y z) ->
     exists oi order p,
       first (fun o => Order.id o =? order_id) (orders db) = Some (oi, order) /\
       fulfil (utcnow clock) (items_of db order) (claimed db oi order) []
         = (None, p, locked a) /\
       store a = completed_store self clock db oi order p).
Proof.
  pose proof (process_order_envelope self clock order_id db fs) as H.
  unfold wp in H. unfold deliver.
  destruct (process_order self clock order_id (SessionLocal db fs)) as [[r|e] s'];
    cbn; destruct H as [Hk Hc]; (split; [exact Hk|]); intros x y z Hr; [|discriminate].
  injection Hr as ->. apply Hc. reflexivity.
Qed.

(** * The order in which locks are taken *)

(** C3 (as the code has it).  [process_order] walks [order.items] in the
    order in which the relationship yields them and does not sort them:
    whatever the fault schedule, the SKUs whose inventory rows were locked
    are an initial segment of the SKUs of the line items in that stored
    order, and all of them when the attempt completes. *)
Theorem C3_locks_follow_stored_order :
  forall self clock fs order_id db,
    (exists k, locked (deliver self clock fs order_id db)
               = firstn k (map OrderItem.sku (job_items db order_id))) /\
    (forall x y z,
        outcome (deliver self clock fs order_id db) = Ok (RetCompleted x y z) ->
        locked (deliver self clock fs order_id db)
        = map OrderItem.sku (job_items db order_id)).
Proof.
  intros self clock fs order_id db.
  destruct (deliver_envelope self clock fs order_id db) as [Hk Hc].
  split; [exact Hk|]. intros x y z Hr.
  destruct (Hc x y z Hr) as (oi & order & p & Ho & Hf & _).
  apply fulfil_trace in Hf as [_ Hall]. unfold job_items. rewrite Ho.
  exact (Hall eq_refl).
Qed.

Lemma C3_witness :
  locked (deliver worker noon [] 105 shop) = map OrderItem.sku (job_items shop 105).
Proof.
  apply (proj2 (C3_locks_follow_stored_order worker noon [] 105 shop) 105 "E105" 7).
  reflexivity.
Defined.

(** The statement of the specification fails: order 105 lists X1 before W1, the attempt
    completes, and the locks were taken on X1 then W1, which is not the
    ascending order of the SKUs. *)
Lemma C3_counterexample :
  map OrderItem.sku (job_items shop 105) = ["X1"; "W1"] /\
  outcome (deliver worker noon [] 105 shop) = Ok (RetCompleted 105 "E105" 7) /\
  locked (deliver worker noon [] 105 shop) = ["X1"; "W1"] /\
  ascending (locked (deliver worker noon [] 105 shop)) = false /\
  ascending ["W1"; "X1"] = true.
Proof. repeat split. Qed.

(** * Completed attempts *)

Lemma stock_total_set_row rows : forall i r r',
  nth_error rows i = Some r ->
  stock_total (set_row i r' rows)
  = stock_total rows - Inventory.quantity r + Inventory.quantity r'.
Proof.
  unfold stock_total.
  induction rows as [|z rows IH]; intros [|i] r r' H; cbn in *; try discriminate.
  - injection H as ->. lia.
  - rewrite (IH i r r' H). lia.
Qed.

Lemma restocked_refl row : restocked row row 0.
Proof. unfold restocked. repeat split. lia. Qed.

Lemma restocked_trans r1 r2 r3 d1 d2 :
  restocked r1 r2 d1 -> restocked r2 r3 d2 -> restocked r1 r3 (d1 + d2).
Proof.
  unfold restocked. intros (A1 & A2 & A3 & A4 & A5) (B1 & B2 & B3 & B4 & B5).
  repeat split; try congruence. lia.
Qed.

(** What a loop that went through all the line items did to the inventory. *)
Lemma fulfil_success now items : forall p t p' t',
  fulfil now items p t = (None, p', t') ->
  stock_total (inventory p) - stock_total (inventory p') = ordered_total items /\
  length (inventory p') = length (inventory p) /\
  forall i row,
    nth_error (inventory p) i = Some row ->
    exists row',
      nth_error (inventory p') i = Some row' /\
      restocked row row' (demand p items i) /\
      ((forall it, In it items -> row_of p it <> Some i) -> row' = row).
Proof.
  induction items as [|x items IH]; intros p t p' t' H; cbn [fulfil] in H.
  - injection H as <- <-. split; [cbn; lia|]. split; [reflexivity|].
    intros i row Hn. exists row. split; [exact Hn|]. split; [apply restocked_refl | auto].
  - destruct (check_item p x) as [i0 row0|msg lk] eqn:Hv; [|discriminate].
    pose proof (check_item_accepted _ _ _ _ Hv) as [Hn0 _].
    pose proof (check_item_row_of _ _ _ _ Hv) as Hrow.
    apply IH in H as (Htot & Hlen & Hrows). cbn [inventory with_inventory] in *.
    split; [|split].
    + rewrite (stock_total_set_row _ _ _ _ Hn0) in Htot.
      unfold ordered_total in *. cbn in *. lia.
    + now rewrite Hlen, set_row_length.
    + intros i row Hn.
      destruct (Nat.eq_dec i0 i) as [->|Hne].
      * assert (row = row0) by congruence. subst row.
        destruct (Hrows i (decremented now row0 x)) as (row' & Hn' & Hre & Hsame).
        { eapply nth_error_set_row_eq; eauto. }
        exists row'. split; [exact Hn'|]. split.
        -- rewrite (demand_after_decrement now p x i row0 items i Hv) in Hre.
           unfold demand. cbn [map fold_right]. fold (demand p items i).
           unfold charge at 1. rewrite Hrow, Nat.eqb_refl.
           eapply restocked_trans; [|exact Hre].
           unfold restocked. cbn. repeat split.
        -- intros Hfree. exfalso. apply (Hfree x); [now left | exact Hrow].
      * destruct (Hrows i row) as (row' & Hn' & Hre & Hsame).
        { now rewrite nth_error_set_row_neq. }
        exists row'. split; [exact Hn'|]. split.
        -- rewrite (demand_after_decrement now p x i0 row0 items i Hv) in Hre.
           unfold demand. cbn [map fold_right]. fold (demand p items i).
           unfold charge at 1. rewrite Hrow.
           apply Nat.eqb_neq in Hne. rewrite Hne. exact Hre.
        -- intros Hfree. apply Hsame. intros it Hit.
           rewrite (row_of_after_decrement now p x i0 row0 it Hv).
           apply Hfree. now right.
Qed.

(** C6.  When an attempt of [process_order] completes, whatever the fault
    schedule: the order row is COMPLETED, its [processed_at] is the time of
    the attempt and its [error_message] is cleared; every inventory row has
    lost exactly the quantities of the line items charged to it, and
    nothing else of it changed but [updated_at]; a row that no line item is
    charged to is untouched; so the total stock has gone down by the sum of
    the quantities of the order's line items. *)
Theorem C6_completed_order :
  forall self clock fs order_id db x y z,
    outcome (deliver self clock fs order_id db) = Ok (RetCompleted x y z) ->
    exists oi order,
      first (fun o => Order.id o =? order_id) (orders db) = Some (oi, order) /\
      (exists o',
          nth_error (orders (store (deliver self clock fs order_id db))) oi = Some o' /\
          Order.status o' = COMPLETED /\
          Order.processed_at o' = Some (utcnow clock) /\
          Order.error_message o' = None) /\
      (forall i row,
          nth_error (inventory db) i = Some row ->
          exists row',
            nth_error (inventory (store (deliver self clock fs order_id db))) i = Some row' /\
            restocked row row' (demand db (items_of db order) i) /\
            ((forall it, In it (items_of db order) -> row_of db it <> Some i) -> row' = row)) /\
      length (inventory (store (deliver self clock fs order_id db)))
        = length (inventory db) /\
      stock_total (inventory db)
        - stock_total (inventory (store (deliver self clock fs order_id db)))
        = ordered_total (items_of db order).
Proof.
  intros self clock fs order_id db x y z Hr.
  destruct (deliver_envelope self clock fs order_id db) as [_ Hc].
  destruct (Hc x y z Hr) as (oi & order & p & Ho & Hf & Hst).
  rewrite Hst. exists oi, order. split; [exact Ho|].
  pose proof (fulfil_frame _ _ _ _ _ _ _ Hf) as (_ & Hord & _).
  apply fulfil_success in Hf as (Htot & Hlen & Hrows).
  split; [|split; [exact Hrows | split; [exact Hlen | exact Htot]]].
  exists (completed_order clock order). repeat split.
  unfold completed_store. cbn [orders with_orders with_sync_logs]. rewrite Hord.
  unfold claimed. cbn [orders with_orders]. rewrite set_row_twice.
  apply first_spec in Ho as [Ho _]. eapply nth_error_set_row_eq; eauto.
Qed.

Lemma C6_witness :
  exists oi order,
    first (fun o => Order.id o =? 100) (orders shop) = Some (oi, order) /\
    (exists o',
        nth_error (orders (store (deliver worker noon [] 100 shop))) oi = Some o' /\
        Order.status o' = COMPLETED /\
        Order.processed_at o' = Some (utcnow noon) /\
        Order.error_message o' = None) /\
    (forall i row,
        nth_error (inventory shop) i = Some row ->
        exists row',
          nth_error (inventory (store (deliver worker noon [] 100 shop))) i = Some row' /\
          restocked row row' (demand shop (items_of shop order) i) /\
          ((forall it, In it (items_of shop order) -> row_of shop it <> Some i) -> row' = row)) /\
    length (inventory (store (deliver worker noon [] 100 shop))) = length (inventory shop) /\
    stock_total (inventory shop)
      - stock_total (inventory (store (deliver worker noon [] 100 shop)))
      = ordered_total (items_of shop order).
Proof.
  apply (C6_completed_order worker noon [] 100 shop 100 "E100" 7). reflexivity.
Defined.

(** The scenario of the specification: five W1 in stock, three ordered. *)
Example fulfilment_scenario :
  outcome (deliver worker noon [] 100 shop) = Ok (RetCompleted 100 "E100" 7) /\
  map Inventory.quantity (inventory (store (deliver worker noon [] 100 shop))) = [2; 2] /\
  sync_logs (store (deliver worker noon [] 100 shop))
  = [SyncLog.mk (Some "task-1") "process_order" SUCCESS (Some 100)
       (Some "Order E100 processed — 1 items fulfilled.") None None (Some 7)].
Proof. repeat split. Qed.

(** * Orders in a terminal state *)





(** * Retries *)

Lemma sync_logs_marked_failed db order_id msg task_id clock tb :
  sync_logs (marked_failed db order_id msg task_id clock tb)
  = sync_logs db
      ++ (if existsb (fun o => Order.id o =? order_id) (orders db)
          then [failure_log order_id msg task_id clock tb] else []).
Proof.
  unfold marked_failed. rewrite existsb_first.
  destruct (first _ (orders db)) as [[oi order]|]; [reflexivity|].
  now rewrite app_nil_r.
Qed.

Lemma orders_marked_failed db order_id msg task_id clock tb :
  existsb (fun o => Order.id o =? order_id)
    (orders (marked_failed db order_id msg task_id clock tb))
  = existsb (fun o => Order.id o =? order_id) (orders db).
Proof.
  unfold marked_failed. rewrite !existsb_first.
  destruct (first _ (orders db)) as [[oi order]|] eqn:Ho; [|now rewrite Ho].
  cbn [orders with_orders with_sync_logs].
  rewrite (first_set_row _ _ _ _ (failed_order order msg) Ho); [reflexivity|].
  apply first_spec in Ho as [_ Hid]. exact Hid.
Qed.

Lemma sync_logs_retry_logged db order_id task_id attempt error :
  sync_logs (retry_logged db order_id task_id attempt error)
  = sync_logs db
      ++ (if existsb (fun o => Order.id o =? order_id) (orders db)
          then [retry_log order_id task_id attempt error] else []).
Proof.
  unfold retry_logged. destruct (existsb _ _); [reflexivity|]. now rewrite app_nil_r.
Qed.

(** The bookkeeping of a failure, on a session without uncommitted changes
    and under any fault schedule: it goes through, or nothing is written;
    it never raises. *)
Lemma _mark_failed_any order_id msg task_id clock tb c t f :
  wp (_mark_failed order_id msg task_id clock tb)
     (fun _ s' =>
        lock_trace s' = t /\ pending s' = committed s' /\
        (committed s' = c \/ committed s' = marked_failed c order_id msg task_id clock tb))
     (fun _ _ => False)
     (mkSession c c t f).
Proof.
  unfold _mark_failed, query_order. apply wp_try_except, wp_bind.
  apply wp_query; [|intros; apply wp_rollback; auto].
  intros f1. apply wp_bind.
  destruct (first _ (orders c)) as [[oi order]|] eqn:Ho.
  - apply wp_change, wp_bind, wp_change, wp_commit; [|intros; apply wp_rollback; auto].
    intros f2. cbn [lock_trace pending committed]. repeat split. right.
    unfold marked_failed. now rewrite Ho.
  - apply wp_ret, wp_bind, wp_change, wp_commit_checked; [|intros; apply wp_rollback; auto].
    intros f2 Hok. exfalso.
    rewrite (flush_ok_one_log _ _ _ _ (failure_log order_id msg task_id clock tb)) in Hok
      by reflexivity.
    unfold log_ref_ok in Hok.
    cbn [failure_log SyncLog.order_id orders with_sync_logs] in Hok.
    rewrite existsb_first, Ho in Hok. discriminate.
Qed.

Lemma _log_retry_any order_id task_id attempt error c t f :
  wp (_log_retry order_id task_id attempt error)
     (fun _ s' =>
        lock_trace s' = t /\ pending s' = committed s' /\
        (committed s' = c \/ committed s' = retry_logged c order_id task_id attempt error))
     (fun _ _ => False)
     (mkSession c c t f).
Proof.
  unfold _log_retry. apply wp_try_except, wp_bind, wp_change, wp_commit_checked;
    [|intros; apply wp_rollback; auto].
  intros f2 Hok. cbn [lock_trace pending committed]. repeat split. right.
  rewrite (flush_ok_one_log _ _ _ _ (retry_log order_id task_id attempt error)) in Hok
    by reflexivity.
  unfold log_ref_ok in Hok. cbn [retry_log SyncLog.order_id orders with_sync_logs] in Hok.
  unfold retry_logged. now rewrite Hok.
Qed.

(** C7 (as the code has it).  Take an attempt whose [try] block raises an
    exception that is not a [ValueError].  Under every fault schedule: if
    [request.retries] is below [max_retries], which is 3, the attempt ends
    by raising [Retry] for the same exception with a countdown of
    [60 * 2 ** retries] seconds, that is 60, 120 and 240 seconds for
    retries 0, 1 and 2; otherwise it returns the failed result and nothing
    is re-scheduled.  The audit log is written on a best-effort basis:
    what the attempt appends is at most a FAILURE record with the error,
    then at most a RETRY record "Retry attempt n", both for this job and
    this order; no RETRY record without the retry; both are written when
    the order exists and no further fault is met, a RETRY record exactly
    when the retry is raised; neither is written when no order has the id
    of the job, whose records the database refuses.  An attempt whose
    [try] block raises a [ValueError] returns the failed result under
    every fault schedule: a business validation error is never retried. *)
Theorem C7_retry_policy :
  forall self clock order_id s,
    (forall ty msg tb s1,
        process_order_try self clock order_id s = (Raise (OtherError ty msg tb), s1) ->
        exists s' (failure_written retry_written : bool),
          process_order self clock order_id s
          = (if (request_retries self <? max_retries)%nat
             then Raise (Retry (60 * 2 ^ Z.of_nat (request_retries self))
                           (OtherError ty msg tb))
             else Ok (RetFailed order_id (fstr [ty; ": "; msg])),
             s') /\
          sync_logs (committed s')
          = sync_logs (committed s1)
              ++ (if failure_written
                  then [SyncLog.mk (Some (request_id self)) "process_order" FAILURE
                          (Some order_id) None (Some (fstr [ty; ": "; msg])) (Some tb)
                          (Some (elapsed_ms clock))]
                  else [])
              ++ (if retry_written
                  then [SyncLog.mk (Some (request_id self)) "process_order" RETRY
                          (Some order_id)
                          (Some (fstr ["Retry attempt ";
                                       str_of_Z (Z.of_nat (request_retries self + 1))]))
                          (Some (fstr [ty; ": "; msg])) None None]
                  else []) /\
          (retry_written = true -> (request_retries self < max_retries)%nat) /\
          (faults s1 = [] ->
           failure_written
           = existsb (fun o => Order.id o =? order_id) (orders (committed s1)) /\
           retry_written
           = failure_written && (request_retries self <? max_retries)%nat) /\
          (existsb (fun o => Order.id o =? order_id) (orders (committed s1)) = false ->
           failure_written = false /\ retry_written = false)) /\
    (forall msg s1,
        process_order_try self clock order_id s = (Raise (ValueError msg), s1) ->
        exists s', process_order self clock order_id s = (Ok (RetFailed order_id msg), s')) /\
    max_retries = 3%nat /\
    60 * 2 ^ Z.of_nat 0 = 60 /\ 60 * 2 ^ Z.of_nat 1 = 120 /\ 60 * 2 ^ Z.of_nat 2 = 240.
Proof.
  intros self clock order_id s. split; [|split; [|repeat split]].
  - intros ty msg tb [c p t f] Htry.
    set (error_msg := fstr [ty; ": "; msg]).
    set (F := SyncLog.mk (Some (request_id self)) "process_order" FAILURE (Some order_id)
                None (Some error_msg) (Some tb) (Some (elapsed_ms clock))).
    set (R := SyncLog.mk (Some (request_id self)) "process_order" RETRY (Some order_id)
                (Some (fstr ["Retry attempt ";
                             str_of_Z (Z.of_nat (request_retries self + 1))]))
                (Some error_msg) None None).
    set (known := existsb (fun o => Order.id o =? order_id) (orders c)).
    unfold process_order, try_finally, try_except. rewrite Htry.
    unfold process_order_except. cbn [exn_type_name exn_str format_exc]. fold error_msg.
    unfold bind at 1, rollback at 1, rollback_session.
    cbn [committed lock_trace faults].
    (* the failure record *)
    pose proof (_mark_failed_any order_id error_msg (request_id self) clock (Some tb) c t f)
      as H2. unfold wp in H2.
    pose proof (_mark_failed_quiet order_id error_msg (request_id self) clock (Some tb) c t)
      as H2q.
    destruct (_mark_failed order_id error_msg (request_id self) clock (Some tb)
                (mkSession c c t f)) as [[[]|e2] [c2 p2 t2 f2]] eqn:E2; [|destruct H2].
    cbn [lock_trace pending committed] in H2. destruct H2 as (-> & -> & Hc2).
    unfold bind at 1. rewrite E2.
    assert (Hlog2 : exists wf : bool,
               sync_logs c2 = sync_logs c ++ (if wf then [F] else []) /\
               existsb (fun o => Order.id o =? order_id) (orders c2) = known /\
               (known = false -> wf = false) /\
               (f = [] -> wf = known /\ f2 = [])).
    { destruct f as [|x f'].
      - rewrite H2q in E2.
        assert (Ec : c2 = marked_failed c order_id error_msg (request_id self) clock (Some tb))
          by congruence.
        assert (Ef : f2 = []) by congruence. subst c2 f2. exists known.
        rewrite sync_logs_marked_failed, orders_marked_failed. fold known.
        split; [reflexivity|]. split; [reflexivity|]. split; [auto|]. intros _. split; reflexivity.
      - destruct Hc2 as [->| ->].
        + exists false. rewrite app_nil_r.
          split; [reflexivity|]. split; [reflexivity|]. split; [auto|]. discriminate.
        + exists known. rewrite sync_logs_marked_failed, orders_marked_failed. fold known.
          split; [reflexivity|]. split; [reflexivity|]. split; [auto|]. discriminate. }
    destruct Hlog2 as (wf & Hl2 & Hk2 & Hno2 & Hq2).
    destruct (request_retries self <? max_retries)%nat eqn:Hr.
    + (* the retry record *)
      pose proof (_log_retry_any order_id (request_id self) (request_retries self + 1)
                    error_msg c2 t f2) as H3. unfold wp in H3.
      pose proof (_log_retry_quiet order_id (request_id self) (request_retries self + 1)
                    error_msg c2 t) as H3q.
      unfold bind at 1.
      destruct (_log_retry order_id (request_id self) (request_retries self + 1) error_msg
                  (mkSession c2 c2 t f2)) as [[[]|e3] [c3 p3 t3 f3]] eqn:E3; [|destruct H3].
      cbn [lock_trace pending committed] in H3. destruct H3 as (-> & -> & Hc3).
      cbn [raise close rollback_session committed].
      assert (Hlog3 : exists wr : bool,
                 sync_logs c3 = sync_logs c2 ++ (if wr then [R] else []) /\
                 (known = false -> wr = false) /\ (f2 = [] -> wr = known)).
      { destruct f2 as [|x f2'].
        - rewrite H3q in E3.
          assert (Ec : c3 = retry_logged c2 order_id (request_id self) (request_retries self + 1)
                             error_msg) by congruence.
          subst c3. exists known.
          rewrite sync_logs_retry_logged, Hk2.
          split; [reflexivity|]. split; [auto|]. reflexivity.
        - destruct Hc3 as [->| ->].
          + exists false. rewrite app_nil_r.
            split; [reflexivity|]. split; [auto|]. discriminate.
          + exists known. rewrite sync_logs_retry_logged, Hk2.
            split; [reflexivity|]. split; [auto|]. discriminate. }
      destruct Hlog3 as (wr & Hl3 & Hno3 & Hq3).
      exists (mkSession c3 c3 t f3), wf, wr. split; [reflexivity|].
      cbn [committed]. rewrite Hl3, Hl2, <- app_assoc.
      split; [reflexivity|]. split; [intros _; now apply Nat.ltb_lt|]. split.
      * intros Hf. cbn in Hf. destruct (Hq2 Hf) as [Hwf Hf2]. rewrite (Hq3 Hf2), Hwf.
        split; [reflexivity|]. now rewrite andb_true_r.
      * intros Hk. fold known in Hk. auto.
    + exists (mkSession c2 c2 t f2), wf, false. split; [reflexivity|].
      cbn [committed close rollback_session ret]. rewrite Hl2, app_nil_r.
      split; [reflexivity|]. split; [discriminate|]. split.
      * intros Hf. cbn in Hf. destruct (Hq2 Hf) as [Hwf _].
        split; [exact Hwf|]. now rewrite andb_false_r.
      * intros Hk. fold known in Hk. auto.
  - intros msg s1 Htry.
    unfold process_order, try_finally, try_except. rewrite Htry.
    unfold process_order_except. cbn [exn_str].
    unfold bind at 1, rollback at 1.
    destruct (_mark_failed_run order_id msg (request_id self) clock None (rollback_session s1))
      as (s2 & H2 & _).
    unfold bind at 1. rewrite H2. cbn. eauto.
Qed.

Lemma C7_witness :
  exists s',
    process_order worker noon 100 (SessionLocal shop lock_timeout)
    = (Raise (Retry 60 (OtherError "OperationalError" "lock timeout" "Traceback")), s') /\
    map SyncLog.status (sync_logs (committed s')) = [FAILURE; RETRY] /\
    map SyncLog.order_id (sync_logs (committed s')) = [Some 100; Some 100].
Proof.
  destruct (proj1 (C7_retry_policy worker noon 100 (SessionLocal shop lock_timeout))
              "OperationalError" "lock timeout" "Traceback"
              (mkSession (claimed shop 0 (Order.mk 100 "E100" PENDING None None 0))
                         (claimed shop 0 (Order.mk 100 "E100" PENDING None None 0)) [] [])
              eq_refl)
    as (s' & failure_written & retry_written & Hrun & Hlogs & _ & Hquiet & _).
  destruct (Hquiet eq_refl) as [Hf Hr]. rewrite Hf in Hr. cbn in Hf, Hr. subst.
  exists s'. split; [exact Hrun|]. rewrite Hlogs. split; reflexivity.
Defined.

(** The statement of the specification fails: the RETRY record is written on a best-effort
    basis.  Order 100 meets the lock timeout on its first delivery; the
    failure is recorded, the connection is lost when the RETRY record is
    committed, which [_log_retry] swallows: the retry is raised, after 60
    seconds, and the audit log holds no RETRY record. *)
Lemma C7_counterexample :
  request_retries worker = 0%nat /\
  outcome (deliver worker noon
             (lock_timeout
                ++ [None; None; Some (mkFault "OperationalError" "connection lost" "Traceback")])
             100 shop)
  = Raise (Retry 60 (OtherError "OperationalError" "lock timeout" "Traceback")) /\
  map SyncLog.status
    (sync_logs (store (deliver worker noon
                         (lock_timeout
                            ++ [None; None;
                                Some (mkFault "OperationalError" "connection lost" "Traceback")])
                         100 shop)))
  = [FAILURE].
Proof. repeat split. Qed.

(** A job whose every delivery meets the lock timeout: three retries, after
    60, 120 and 240 seconds, then the permanent failure. *)
Example retries_then_permanent_failure :
  fst (run_job "task-1" noon [lock_timeout; lock_timeout; lock_timeout; lock_timeout; lock_timeout]
         0 100 shop)
  = [Raise (Retry 60 (OtherError "OperationalError" "lock timeout" "Traceback"));
     Raise (Retry 120 (OtherError "OperationalError" "lock timeout" "Traceback"));
     Raise (Retry 240 (OtherError "OperationalError" "lock timeout" "Traceback"));
     Ok (RetFailed 100 "OperationalError: lock timeout")].
Proof. reflexivity. Qed.

(** * The inventory scan *)

Lemma scan_row_spec low out row :
  scan_row (low, out) row =
  let '(inv, product) := row in
  let available := Inventory.quantity inv - Inventory.reserved inv in
  match classify inv with
  | OutOfStockClass =>
      (low, out ++ [OutOfStock.mk (scan_sku product) (scan_name inv product) available])
  | LowStockClass =>
      (low ++ [LowStock.mk (scan_sku product) (scan_name inv product) available
                 (Inventory.reorder_level inv)], out)
  | HealthyClass => (low, out)
  end.
Proof.
  destruct row as [inv product]. unfold scan_row, classify, scan_sku, scan_name. cbn zeta.
  destruct (_ <=? 0) eqn:H0; [reflexivity|].
  apply Z.leb_gt in H0. apply Z.ltb_lt in H0. rewrite H0. cbn [andb].
  now destruct (_ <=? Inventory.reorder_level inv).
Qed.

(** The per-item records of a scan are, up to their order in the log, the
    records of the rows one by one. *)
Lemma scan_rows_logs d rows : forall low out low' out',
  fold_left scan_row rows (low, out) = (low', out') ->
  Permutation (map (out_of_stock_log d) out' ++ map (low_stock_log d) low')
              ((map (out_of_stock_log d) out ++ map (low_stock_log d) low)
                 ++ flat_map (row_logs d) rows).
Proof.
  induction rows as [|row rows IH]; intros low out low' out' H; cbn [fold_left flat_map] in *.
  - injection H as <- <-. now rewrite app_nil_r.
  - rewrite scan_row_spec in H. unfold row_logs at 1. destruct row as [inv product].
    cbn zeta in *. destruct (classify inv).
    + apply IH in H. rewrite H, map_app. cbn [map].
      rewrite <- !app_assoc. apply Permutation_app_head. cbn [app].
      apply Permutation_middle.
    + apply IH in H. rewrite H, map_app. cbn [map].
      rewrite <- !app_assoc. reflexivity.
    + apply IH in H. exact H.
Qed.

(** The rows in the order the database returns them give the same records,
    up to their order. *)
Lemma arranged_rows_logs (arrange : list Inventory.t -> list Inventory.t) d db :
  (forall l, Permutation (arrange l) l) ->
  Permutation
    (flat_map (row_logs d)
       (map (fun inv =>
               (inv, find (fun p => Product.id p =? Inventory.product_id inv) (products db)))
            (arrange (inventory db))))
    (flat_map (row_logs d) (scan_rows db)).
Proof.
  intros Harr. unfold scan_rows. apply Permutation_flat_map, Permutation_map, Harr.
Qed.

Lemma for_each_add_log {A} (mk_log : A -> SyncLog.t) items : forall c p t f,
  for_each (fun item => add_log (mk_log item)) items (mkSession c p t f)
  = (Ok tt, mkSession c (with_sync_logs p (sync_logs p ++ map mk_log items)) t f).
Proof.
  induction items as [|x items IH]; intros c p t f; cbn [for_each map].
  - rewrite app_nil_r. now destruct p.
  - unfold bind, add_log, change. cbn. rewrite IH. cbn. now rewrite <- app_assoc.
Qed.

Lemma wp_for_each_add_log {A} (mk_log : A -> SyncLog.t) items
    (Q : unit -> Session -> Prop) E c p t f :
  Q tt (mkSession c (with_sync_logs p (sync_logs p ++ map mk_log items)) t f) ->
  wp (for_each (fun item => add_log (mk_log item)) items) Q E (mkSession c p t f).
Proof.
  intros H. unfold wp. now rewrite for_each_add_log.
Qed.

(** The records of the scan name no order: the database takes them. *)
Lemma flush_ok_anonymous c p t f logs :
  sync_logs p = sync_logs c ++ logs ->
  Forall (fun l => SyncLog.order_id l = None) logs ->
  flush_ok (mkSession c p t f) = true.
Proof.
  intros Hp Hlogs. unfold flush_ok. cbn [committed pending]. rewrite Hp, added_app.
  apply forallb_forall. intros l Hl. unfold log_ref_ok.
  rewrite Forall_forall in Hlogs. now rewrite (Hlogs l Hl).
Qed.

Lemma scan_records_anonymous d low out summary has_issues :
  Forall (fun l => SyncLog.order_id l = None)
    ((map (out_of_stock_log d) out ++ map (low_stock_log d) low)
       ++ [summary_log d summary has_issues]).
Proof.
  rewrite !Forall_app. repeat split.
  - apply Forall_forall. intros l Hl. apply in_map_iff in Hl. now destruct Hl as (x & <- & _).
  - apply Forall_forall. intros l Hl. apply in_map_iff in Hl. now destruct Hl as (x & <- & _).
  - now constructor.
Qed.

(** What a scan does, under any fault schedule: it completes and appends
    the per-item records and the summary, or it fails at one of its two
    round trips and appends the failure record, or nothing when the
    database refuses that one too.  It never raises. *)
Lemma sync_inventory_runs arrange clock db fs :
  let rows :=
    map (fun inv =>
           (inv, find (fun p => Product.id p =? Inventory.product_id inv) (products db)))
        (arrange (inventory db)) in
  let low := fst (fold_left scan_row rows ([], [])) in
  let out := snd (fold_left scan_row rows ([], [])) in
  let d := elapsed_ms clock in
  wp (sync_inventory arrange clock)
     (fun r s' =>
        (r = ScanCompleted (length rows) (length low) (length out) d /\
         committed s'
         = with_sync_logs db
             (sync_logs db
                ++ (map (out_of_stock_log d) out ++ map (low_stock_log d) low)
                ++ [summary_log d (scan_summary (length rows) low out)
                      ((0 <? length low)%nat || (0 <? length out)%nat)])) \/
        (exists e, is_fault e /\ r = ScanFailed (exn_str e) /\
                   (committed s' = db \/
                    committed s'
                    = with_sync_logs db (sync_logs db ++ [scan_failure_log d (exn_str e)]))))
     (fun _ _ => False)
     (SessionLocal db fs).
Proof.
  intros rows low out d. unfold sync_inventory, SessionLocal.
  apply wp_try_finally, wp_try_except.
  assert (Hexc : forall e p' t' f',
             is_fault e ->
             wp (rollback ;;
                 try_except
                   (add_log (scan_failure_log (elapsed_ms clock) (exn_str e)) ;; commit)
                   (fun _ => rollback) ;;
                 ret (ScanFailed (exn_str e)))
                (fun r s' =>
                   (r = ScanCompleted (length rows) (length low) (length out) d /\
                    committed (close s')
                    = with_sync_logs db
                        (sync_logs db
                           ++ (map (out_of_stock_log d) out ++ map (low_stock_log d) low)
                           ++ [summary_log d (scan_summary (length rows) low out)
                                 ((0 <? length low)%nat || (0 <? length out)%nat)])) \/
                   (exists e, is_fault e /\ r = ScanFailed (exn_str e) /\
                              (committed (close s') = db \/
                               committed (close s')
                               = with_sync_logs db
                                   (sync_logs db ++ [scan_failure_log d (exn_str e)]))))
                (fun _ _ => False)
                (mkSession db p' t' f')).
  { intros e p' t' f' He.
    apply wp_bind, wp_rollback, wp_bind, wp_try_except, wp_bind, wp_change, wp_commit.
    - intros f1. apply wp_ret. right. exists e. split; [exact He|]. split; [reflexivity|].
      right. reflexivity.
    - intros e' f1 _. apply wp_rollback, wp_ret. right. exists e.
      split; [exact He|]. split; [reflexivity|]. left. reflexivity. }
  unfold sync_inventory_try.
  apply wp_bind. unfold query_inventory_all. apply wp_query; [|intros; now apply Hexc].
  intros f1. fold rows. subst low out.
  destruct (fold_left scan_row rows ([], [])) as [low out]. cbn [fst snd].
  apply wp_bind, wp_for_each_add_log, wp_bind, wp_for_each_add_log.
  apply wp_bind, wp_change, wp_bind, wp_commit.
  - intros f2. apply wp_ret. left. split; [reflexivity|]. cbn. now rewrite <- !app_assoc.
  - intros e f2 He. now apply Hexc.
Qed.

(** A scan that meets no fault, in full. *)
Lemma run_scan_quiet arrange clock db :
  run_scan arrange clock [] db =
  let rows :=
    map (fun inv =>
           (inv, find (fun p => Product.id p =? Inventory.product_id inv) (products db)))
        (arrange (inventory db)) in
  let '(low, out) := fold_left scan_row rows ([], []) in
  (Ok (ScanCompleted (length rows) (length low) (length out) (elapsed_ms clock)),
   with_sync_logs db
     (sync_logs db
        ++ (map (out_of_stock_log (elapsed_ms clock)) out
              ++ map (low_stock_log (elapsed_ms clock)) low)
        ++ [summary_log (elapsed_ms clock) (scan_summary (length rows) low out)
              ((0 <? length low)%nat || (0 <? length out)%nat)])).
Proof.
  cbn zeta.
  unfold run_scan, sync_inventory, try_finally, try_except, sync_inventory_try, SessionLocal.
  unfold bind at 1. unfold query_inventory_all, bind at 1.
  cbn [db_op faults]. unfold bind at 1, view at 1, ret at 1. cbn [pending].
  destruct (fold_left scan_row _ ([], [])) as [low out].
  unfold bind at 1. rewrite for_each_add_log.
  unfold bind at 1. rewrite for_each_add_log.
  unfold bind at 1, add_log, change. cbn [committed pending lock_trace faults].
  unfold bind at 1.
  rewrite commit_quiet.
  2:{ apply (flush_ok_anonymous _ _ _ _
               ((map (out_of_stock_log (elapsed_ms clock)) out
                   ++ map (low_stock_log (elapsed_ms clock)) low)
                  ++ [summary_log (elapsed_ms clock)
                        (scan_summary
                           (length
                              (map (fun inv =>
                                      (inv, find (fun p => Product.id p =? Inventory.product_id inv)
                                              (products db)))
                                 (arrange (inventory db)))) low out)
                        ((0 <? length low)%nat || (0 <? length out)%nat)])).
      - cbn. now rewrite <- !app_assoc.
      - apply scan_records_anonymous. }
  cbn. now rewrite <- !app_assoc.
Qed.

(** The scan, under any fault schedule, keeps what does not depend on the
    audit log. *)
Lemma sync_inventory_keeps (Q : DB -> Prop) arrange clock :
  (forall db l, Q db -> Q (with_sync_logs db l)) ->
  keeps_both Q (sync_inventory arrange clock).
Proof.
  intros Hlogs [c p t f] [Hc Hp]. cbn in Hc, Hp.
  unfold sync_inventory. apply wp_try_finally, wp_try_except.
  assert (Hexc : forall e c' p' t' f',
             Q c' ->
             wp (rollback ;;
                 try_except
                   (add_log (scan_failure_log (elapsed_ms clock) (exn_str e)) ;; commit)
                   (fun _ => rollback) ;;
                 ret (ScanFailed (exn_str e)))
                (fun _ s' => both Q (close s')) (fun _ s' => both Q (close s'))
                (mkSession c' p' t' f')).
  { intros e c' p' t' f' Hc'.
    apply wp_bind, wp_rollback, wp_bind, wp_try_except, wp_bind, wp_change, wp_commit.
    - intros f1. apply wp_ret. split; cbn; apply Hlogs, Hc'.
    - intros e' f1 _. apply wp_rollback, wp_ret. split; exact Hc'. }
  unfold sync_inventory_try.
  apply wp_bind. unfold query_inventory_all. apply wp_query; [|intros; now apply Hexc].
  intros f1. destruct (fold_left scan_row _ _) as [low out].
  apply wp_bind, wp_for_each_add_log, wp_bind, wp_for_each_add_log.
  apply wp_bind, wp_change, wp_bind, wp_commit.
  - intros f2. apply wp_ret. split; cbn; repeat apply Hlogs; exact Hp.
  - intros e f2 _. now apply Hexc.
Qed.

Lemma run_scan_keeps (Q : DB -> Prop) arrange clock fs db :
  (forall db' l, Q db' -> Q (with_sync_logs db' l)) ->
  Q db -> Q (snd (run_scan arrange clock fs db)).
Proof.
  intros Hlogs Hdb. unfold run_scan.
  pose proof (sync_inventory_keeps Q arrange clock Hlogs (SessionLocal db fs)) as H.
  unfold wp in H.
  destruct (sync_inventory arrange clock (SessionLocal db fs)) as [[r|e] s']; apply H;
    split; exact Hdb.
Qed.

Lemma out_of_stock_logs_status d out :
  Forall (fun l => SyncLog.status l = FAILURE) (map (out_of_stock_log d) out).
Proof.
  apply Forall_forall. intros l Hl. apply in_map_iff in Hl. now destruct Hl as (x & <- & _).
Qed.

Lemma low_stock_logs_status d low :
  Forall (fun l => SyncLog.status l = SUCCESS) (map (low_stock_log d) low).
Proof.
  apply Forall_forall. intros l Hl. apply in_map_iff in Hl. now destruct Hl as (x & <- & _).
Qed.

(** C9 (as amended).  Let the database return the inventory rows in any
    order.  A scan that meets no database fault writes, for every inventory
    row and on [available = quantity - reserved]: one record of status
    FAILURE when [available <= 0], one record of status SUCCESS when
    [0 < available <= reorder_level], no record otherwise; the FAILURE
    records come first, and one summary record, of status SUCCESS, closes
    the run.  Under a fault schedule the scan either does exactly that, or
    it fails and writes none of these records: it leaves the store as it
    was, or with one FAILURE record that carries the error.  In every case
    it returns, and the product, inventory, order and line-item tables are
    as they were. *)
Theorem C9_inventory_scan :
  forall arrange clock db,
    (forall l : list Inventory.t, Permutation (arrange l) l) ->
    (exists out_records low_records,
        run_scan arrange clock [] db
        = (Ok (ScanCompleted (length (inventory db)) (length low_records)
                 (length out_records) (elapsed_ms clock)),
           with_sync_logs db
             (sync_logs db ++ out_records ++ low_records
                ++ [SyncLog.mk None "sync_inventory" SUCCESS None
                      (Some (fstr ["Inventory sync done: ";
                                   str_of_Z (Z.of_nat (length (inventory db)));
                                   " products checked, ";
                                   str_of_Z (Z.of_nat (length low_records)); " low stock, ";
                                   str_of_Z (Z.of_nat (length out_records));
                                   " out of stock."]))
                      None None (Some (elapsed_ms clock))])) /\
        Permutation (out_records ++ low_records)
                    (flat_map (row_logs (elapsed_ms clock)) (scan_rows db)) /\
        Forall (fun l => SyncLog.status l = FAILURE) out_records /\
        Forall (fun l => SyncLog.status l = SUCCESS) low_records /\
        (forall inv,
            In inv (inventory db) ->
            let product :=
              find (fun p => Product.id p =? Inventory.product_id inv) (products db) in
            let available := Inventory.quantity inv - Inventory.reserved inv in
            (available <= 0 ->
             In (SyncLog.mk None "sync_inventory" FAILURE None
                   (Some (fstr ["OUT OF STOCK: "; scan_sku product; " — ";
                                scan_name inv product]))
                   (Some (fstr ["Available: "; str_of_Z available]))
                   None (Some (elapsed_ms clock)))
                out_records) /\
            (0 < available /\ available <= Inventory.reorder_level inv ->
             In (SyncLog.mk None "sync_inventory" SUCCESS None
                   (Some (fstr ["LOW STOCK: "; scan_sku product; " — ";
                                scan_name inv product; ", ";
                                "available="; str_of_Z available;
                                ", reorder_level="; str_of_Z (Inventory.reorder_level inv)]))
                   None None (Some (elapsed_ms clock)))
                low_records))) /\
    (forall fs,
        run_scan arrange clock fs db = run_scan arrange clock [] db \/
        exists error,
          fst (run_scan arrange clock fs db) = Ok (ScanFailed error) /\
          (snd (run_scan arrange clock fs db) = db \/
           snd (run_scan arrange clock fs db)
           = with_sync_logs db
               (sync_logs db
                  ++ [SyncLog.mk None "sync_inventory" FAILURE None None (Some error) None
                        (Some (elapsed_ms clock))]))) /\
    (forall fs, business_tables (snd (run_scan arrange clock fs db)) = business_tables db).
Proof.
  intros arrange clock db Harr. split; [|split].
  - rewrite run_scan_quiet. cbn zeta.
    destruct (fold_left scan_row _ ([], [])) as [low out] eqn:Hfold.
    exists (map (out_of_stock_log (elapsed_ms clock)) out),
           (map (low_stock_log (elapsed_ms clock)) low).
    assert (Hperm : Permutation
                      (map (out_of_stock_log (elapsed_ms clock)) out
                         ++ map (low_stock_log (elapsed_ms clock)) low)
                      (flat_map (row_logs (elapsed_ms clock)) (scan_rows db))).
    { apply (scan_rows_logs (elapsed_ms clock)) in Hfold. cbn [map app] in Hfold.
      rewrite Hfold. now apply arranged_rows_logs. }
    split; [|split; [exact Hperm|split; [|split]]].
    + rewrite !length_map, (Permutation_length (Harr (inventory db))).
      unfold summary_log, scan_summary, str_of_len. cbn [negb]. rewrite <- !app_assoc.
      now destruct (negb _).
    + apply out_of_stock_logs_status.
    + apply low_stock_logs_status.
    + intros inv Hinv.
      set (product := find _ (products db)).
      set (available := Inventory.quantity inv - Inventory.reserved inv).
      assert (Hin : forall l, In l (row_logs (elapsed_ms clock) (inv, product)) ->
                              In l (map (out_of_stock_log (elapsed_ms clock)) out
                                      ++ map (low_stock_log (elapsed_ms clock)) low)).
      { intros l Hl. apply (Permutation_in l (Permutation_sym Hperm)).
        apply in_flat_map. exists (inv, product). split; [|exact Hl].
        unfold scan_rows. apply in_map_iff. now exists inv. }
      split.
      * intros Hav. 
        assert (Hrow : In (SyncLog.mk None "sync_inventory" FAILURE None
                             (Some (fstr ["OUT OF STOCK: "; scan_sku product; " — ";
                                          scan_name inv product]))
                             (Some (fstr ["Available: "; str_of_Z available]))
                             None (Some (elapsed_ms clock)))
                          (row_logs (elapsed_ms clock) (inv, product))).
        { unfold row_logs, classify. fold available.
          destruct (available <=? 0) eqn:H0; [now left | apply Z.leb_gt in H0; lia]. }
        apply Hin, in_app_or in Hrow. destruct Hrow as [Hrow|Hrow]; [exact Hrow|].
        pose proof (low_stock_logs_status (elapsed_ms clock) low) as Hs.
        rewrite Forall_forall in Hs. apply Hs in Hrow. discriminate Hrow.
      * intros [Hpos Hle].
        assert (Hrow : In (SyncLog.mk None "sync_inventory" SUCCESS None
                             (Some (fstr ["LOW STOCK: "; scan_sku product; " — ";
                                          scan_name inv product; ", ";
                                          "available="; str_of_Z available;
                                          ", reorder_level=";
                                          str_of_Z (Inventory.reorder_level inv)]))
                             None None (Some (elapsed_ms clock)))
                          (row_logs (elapsed_ms clock) (inv, product))).
        { unfold row_logs, classify. fold available.
          destruct (available <=? 0) eqn:H0; [apply Z.leb_le in H0; lia|].
          destruct (0 <? available) eqn:H1; [|apply Z.ltb_ge in H1; lia].
          destruct (available <=? Inventory.reorder_level inv) eqn:H2;
            [now left | apply Z.leb_gt in H2; lia]. }
        apply Hin, in_app_or in Hrow. destruct Hrow as [Hrow|Hrow]; [|exact Hrow].
        pose proof (out_of_stock_logs_status (elapsed_ms clock) out) as Hs.
        rewrite Forall_forall in Hs. apply Hs in Hrow. discriminate Hrow.
  - intros fs. pose proof (sync_inventory_runs arrange clock db fs) as H.
    cbn zeta in H. unfold wp in H. rewrite run_scan_quiet. cbn zeta. unfold run_scan.
    destruct (sync_inventory arrange clock (SessionLocal db fs)) as [[r|e] s']; [|contradiction].
    destruct (fold_left scan_row _ ([], [])) as [low out]. cbn [fst snd] in *.
    destruct H as [[-> Hc]|(e & _ & -> & Hc)].
    + left. now rewrite Hc.
    + right. exists (exn_str e). split; [reflexivity|]. exact Hc.
  - intros fs.
    apply (run_scan_keeps (fun db' => business_tables db' = business_tables db)); auto.
Qed.

Lemma C9_witness :
  exists out_records low_records summary,
    snd (run_scan (@rev Inventory.t) noon [] shop)
    = with_sync_logs shop (sync_logs shop ++ out_records ++ low_records ++ [summary]) /\
    In (SyncLog.mk None "sync_inventory" SUCCESS None
          (Some "LOW STOCK: W1 — Widget, available=5, reorder_level=15")
          None None (Some (elapsed_ms noon)))
       low_records.
Proof.
  destruct (proj1 (C9_inventory_scan (@rev Inventory.t) noon shop
                     (fun l => Permutation_sym (Permutation_rev l))))
    as (out_records & low_records & Hrun & _ & _ & _ & Hrows).
  exists out_records, low_records. eexists. split.
  - rewrite Hrun. reflexivity.
  - apply (proj2 (Hrows (Inventory.mk 10 1 5 0 15 0) (or_introl eq_refl))). cbn. lia.
Defined.

(** The statement of the specification fails: a scan that loses the
    connection at its commit writes no summary record and no record for the
    rows it examined, W1 with five left of a reorder level of fifteen among
    them; when the failure record cannot be written either, the run leaves
    no trace in the audit log. *)
Lemma C9_counterexample :
  run_scan (fun l => l) noon
    [None; Some (mkFault "OperationalError" "connection lost" "Traceback")] shop
  = (Ok (ScanFailed "connection lost"),
     with_sync_logs shop
       [SyncLog.mk None "sync_inventory" FAILURE None None (Some "connection lost") None
          (Some (elapsed_ms noon))]) /\
  run_scan (fun l => l) noon
    [None; Some (mkFault "OperationalError" "connection lost" "Traceback");
     Some (mkFault "OperationalError" "connection lost" "Traceback")] shop
  = (Ok (ScanFailed "connection lost"), shop).
Proof. split; reflexivity. Qed.

(** The scenario of the specification: after order 100 took three of the
    five W1, the scan reports W1 as low on stock; X1, with two left and a
    reorder level of one, is healthy. *)
Example low_stock_scenario :
  map (fun l => (SyncLog.status l, SyncLog.details l))
      (sync_logs (snd (run_scan (fun l => l) noon []
                         (with_sync_logs (store (deliver worker noon [] 100 shop)) []))))
  = [(SUCCESS, Some "LOW STOCK: W1 — Widget, available=2, reorder_level=15");
     (SUCCESS, Some "Inventory sync done: 2 products checked, 1 low stock, 0 out of stock.")].
Proof. reflexivity. Qed.
(** * The retry counter *)

Lemma retry_counts_invariant rc : TaskInvariant (fun db => retry_counts db = rc).
Proof.
  split; unfold retry_counts; cbn; auto.
  intros db i o o' Hdb Hn (_ & _ & Hrc). rewrite map_set_row, Hrc.
  rewrite set_row_same; [exact Hdb|]. now rewrite nth_error_map, Hn.
Qed.

Lemma run_job_keeps (Q : DB -> Prop) task_id clock order_id :
  TaskInvariant Q ->
  forall fss retries db, Q db -> Q (snd (run_job task_id clock fss retries order_id db)).
Proof.
  intros HQ. induction fss as [|fs fss IH]; intros retries db Hdb; [exact Hdb|].
  cbn [run_job].
  pose proof (deliver_keeps Q HQ (mkTask task_id retries) clock order_id fs db Hdb) as Hd.
  destruct (outcome _) as [r|[msg|ty msg tb|n e]]; try exact Hd.
  specialize (IH (S retries) _ Hd).
  now destruct (run_job task_id clock fss (S retries) order_id _).
Qed.

Lemma Forall2_le_set_row l1 : forall l2 i v v',
  Forall2 Z.le l1 l2 -> nth_error l2 i = Some v -> v <= v' ->
  Forall2 Z.le l1 (set_row i v' l2).
Proof.
  induction l1 as [|x l1 IH]; intros l2 i v v' H Hn Hv; inversion H; subst.
  - destruct i; discriminate.
  - destruct i as [|i]; cbn in *.
    + injection Hn as ->. constructor; [lia | assumption].
    + constructor; [assumption | eapply IH; eauto].
Qed.

Lemma Forall2_le_refl l : Forall2 Z.le l l.
Proof. induction l; constructor; auto. lia. Qed.

(** The manual retry endpoint, under any fault schedule, lowers no retry
    counter. *)
Lemma retry_order_monotone rc dispatch order_id :
  keeps_both (fun db => Forall2 Z.le rc (retry_counts db)) (retry_order dispatch order_id).
Proof.
  intros [c p t f] [Hc Hp]. cbn in Hc, Hp. unfold retry_order.
  apply wp_try_finally, wp_bind, wp_query; [|intros; split; exact Hc]. intros f1.
  destruct (first _ (orders p)) as [[oi order]|] eqn:Ho.
  2:{ apply wp_ret. split; exact Hc. }
  destruct (negb _); [apply wp_ret; split; exact Hc|].
  assert (Hp' : Forall2 Z.le rc
                  (retry_counts
                     (with_orders p
                        (set_row oi
                           (Order.set_retry_count
                              (Order.set_error_message (Order.set_status order PENDING) None)
                              (Order.retry_count order + 1))
                           (orders p))))).
  { unfold retry_counts in *. cbn [orders with_orders]. rewrite map_set_row.
    apply first_spec in Ho as [Ho _].
    eapply Forall2_le_set_row; [exact Hp | now rewrite nth_error_map, Ho | cbn; lia]. }
  apply wp_bind, wp_change, wp_bind, wp_commit; [|intros; split; exact Hc].
  intros f2. apply wp_bind, wp_try_except, wp_bind, wp_reload.
  - intros f3. apply wp_ret, wp_bind, wp_ret, wp_ret. split; exact Hp'.
  - intros e f3 _. apply wp_ret, wp_bind, wp_reload.
    + intros f4. apply wp_ret. split; exact Hp'.
    + intros e' f4 _. split; exact Hp'.
Qed.

Lemma run_retry_order_quiet dispatch order_id db oi order :
  first (fun o => Order.id o =? order_id) (orders db) = Some (oi, order) ->
  Order.status order = FAILED \/ Order.status order = PENDING ->
  run_retry_order dispatch [] order_id db
  = (Ok (WebhookResponse "retrying"
           (fstr ["Order "; str_of_Z order_id;
                  " has been re-queued for processing (retry #";
                  str_of_Z (Order.retry_count order + 1); ")."])
           (Order.id order) (dispatch (Order.id order))),
     with_orders db
       (set_row oi (Order.mk (Order.id order) (Order.external_order_id order) PENDING
                      (Order.processed_at order) None (Order.retry_count order + 1))
          (orders db))).
Proof.
  intros Ho Hst.
  match goal with |- _ = ?rhs => set (X := rhs) end.
  assert (H : wp (retry_order dispatch order_id)
                 (fun r s' => (Ok r, committed s') = X) (fun _ _ => False)
                 (SessionLocal db [])).
  { unfold retry_order, SessionLocal, query_order.
    apply wp_try_finally, wp_bind, wp_query_quiet. rewrite Ho.
    assert (Hneg : negb (OrderStatus_eqb (Order.status order) FAILED
                         || OrderStatus_eqb (Order.status order) PENDING) = false)
      by (destruct Hst as [-> | ->]; reflexivity).
    rewrite Hneg.
    apply wp_bind, wp_change, wp_bind, wp_commit_quiet; [now apply flush_ok_no_log|].
    apply wp_bind, wp_try_except, wp_bind, wp_reload_quiet, wp_ret, wp_bind, wp_ret, wp_ret.
    reflexivity. }
  unfold wp in H. unfold run_retry_order.
  destruct (retry_order dispatch order_id (SessionLocal db [])) as [[r|e] s'];
    [exact H | destruct H].
Qed.

(** C8 (as the code has it).  No operation lowers a retry counter.  An
    attempt of [process_order], a whole job with its automatic retries and
    the inventory scan leave [retry_count] of every order as it was, under
    every fault schedule: the automatic retries are counted by the job's
    own [request.retries], not by the order.  The manual retry endpoint
    never lowers a counter, and an accepted manual retry raises the counter
    of its order by one.  Hence an order that ends FAILED after its
    automatic retries are exhausted has the [retry_count] it had before
    the job. *)
Theorem C8_retry_count_monotone :
  forall clock fs order_id db,
    (forall self, retry_counts (store (deliver self clock fs order_id db)) = retry_counts db) /\
    (forall task_id fss retries,
        retry_counts (snd (run_job task_id clock fss retries order_id db)) = retry_counts db) /\
    (forall arrange, retry_counts (snd (run_scan arrange clock fs db)) = retry_counts db) /\
    (forall dispatch,
        Forall2 Z.le (retry_counts db)
          (retry_counts (snd (run_retry_order dispatch fs order_id db)))) /\
    (forall dispatch oi order,
        first (fun o => Order.id o =? order_id) (orders db) = Some (oi, order) ->
        Order.status order = FAILED \/ Order.status order = PENDING ->
        retry_counts (snd (run_retry_order dispatch [] order_id db))
        = set_row oi (Order.retry_count order + 1) (retry_counts db)).
Proof.
  intros clock fs order_id db. split; [|split; [|split; [|split]]].
  - intros self.
    now apply (deliver_keeps _ (retry_counts_invariant (retry_counts db))).
  - intros task_id fss retries.
    now apply (run_job_keeps _ task_id clock order_id
                 (retry_counts_invariant (retry_counts db))).
  - intros arrange.
    now apply (run_scan_keeps (fun db' => retry_counts db' = retry_counts db)).
  - intros dispatch. unfold run_retry_order.
    pose proof (retry_order_monotone (retry_counts db) dispatch order_id
                  (SessionLocal db fs)) as H.
    unfold wp in H.
    destruct (retry_order dispatch order_id (SessionLocal db fs)) as [[r|e] s'];
      apply H; split; apply Forall2_le_refl.
  - intros dispatch oi order Ho Hst.
    rewrite (run_retry_order_quiet dispatch order_id db oi order Ho Hst).
    unfold retry_counts. cbn [snd orders with_orders]. now rewrite map_set_row.
Qed.

Lemma C8_witness :
  retry_counts (snd (run_retry_order (fun _ => Some "task-2") [] 102
                       (store (deliver worker noon [] 102 shop))))
  = set_row 2 (0 + 1) (retry_counts (store (deliver worker noon [] 102 shop))).
Proof.
  apply (proj2 (proj2 (proj2 (proj2
           (C8_retry_count_monotone noon [] 102 (store (deliver worker noon [] 102 shop))))))
           (fun _ => Some "task-2") 2%nat
           (Order.mk 102 "E102" FAILED None
              (Some "Insufficient stock for 'X1': requested=5, available=2") 0)).
  - reflexivity.
  - left. reflexivity.
Defined.

(** The statement of the specification fails in its second half: the job for order 100
    meets the lock timeout at every delivery, is retried three times and
    then fails for good; the order is FAILED and its [retry_count] is
    still 0, below the maximum of 3. *)
Lemma C8_counterexample :
  fst (run_job "task-1" noon [lock_timeout; lock_timeout; lock_timeout; lock_timeout] 0 100 shop)
  = [Raise (Retry 60 (OtherError "OperationalError" "lock timeout" "Traceback"));
     Raise (Retry 120 (OtherError "OperationalError" "lock timeout" "Traceback"));
     Raise (Retry 240 (OtherError "OperationalError" "lock timeout" "Traceback"));
     Ok (RetFailed 100 "OperationalError: lock timeout")] /\
  nth_error
    (orders (snd (run_job "task-1" noon [lock_timeout; lock_timeout; lock_timeout; lock_timeout]
                    0 100 shop))) 0
  = Some (Order.mk 100 "E100" FAILED None (Some "OperationalError: lock timeout") 0) /\
  ~ (Z.of_nat max_retries <= 0).
Proof.
  split; [reflexivity|]. split; [reflexivity|]. cbn. lia.
Qed.

(** * More on attempts: edge cases *)






(** * More on attempts: what an attempt never does *)

Section AttemptFrame.
Variables (order_id : Z) (Q : DB -> Prop).
Hypothesis HQ : AttemptInvariant order_id Q.
Variables (self : Task) (clock : Clock).

Lemma first_order_id (l : list Order.t) oi order :
  first (fun o => Order.id o =? order_id) l = Some (oi, order) ->
  nth_error l oi = Some order /\ Order.id order = order_id.
Proof.
  intros H. apply first_spec in H as [Hn Hid]. split; [exact Hn|]. now apply Z.eqb_eq.
Qed.

Lemma _mark_failed_holds msg task_id tb :
  keeps_both Q (_mark_failed order_id msg task_id clock tb).
Proof.
  intros [c p t f] [Hc Hp]. cbn in Hc, Hp. unfold _mark_failed.
  apply wp_try_except.
  apply wp_bind, wp_query; [|intros; apply wp_rollback; split; assumption].
  intros f1. apply wp_bind.
  assert (G : forall p', Q p' ->
            wp (add_log (failure_log order_id msg task_id clock tb) ;; commit)
               (fun _ : unit => both Q)
               (fun e => wp (rollback : M unit) (fun _ => both Q) (fun _ => both Q))
               (mkSession c p' t f1)).
  { intros p' Hp'. apply wp_bind, wp_change, wp_commit.
    - intros f2. split; cbn; apply (att_log _ _ HQ); auto.
    - intros e f2 _. apply wp_rollback. split; assumption. }
  destruct (first _ (orders p)) as [[oi order]|] eqn:Ho.
  - apply wp_change. apply G. apply first_order_id in Ho as [Ho Hid].
    eapply (att_order _ _ HQ); eauto. repeat split.
  - apply wp_ret. apply G, Hp.
Qed.

Lemma _log_retry_holds task_id attempt error :
  keeps_both Q (_log_retry order_id task_id attempt error).
Proof.
  intros [c p t f] [Hc Hp]. cbn in Hc, Hp. unfold _log_retry.
  apply wp_try_except, wp_bind, wp_change, wp_commit.
  - intros f2. split; cbn; apply (att_log _ _ HQ); auto.
  - intros e f2 _. apply wp_rollback. split; assumption.
Qed.

(** The [except] clauses start by rolling back: they need the invariant of
    the committed store only. *)
Lemma process_order_except_holds e s :
  Q (committed s) ->
  wp (process_order_except self clock order_id e)
     (fun _ s' => Q (committed s')) (fun _ s' => Q (committed s')) s.
Proof.
  destruct s as [c p t f]. cbn [committed]. intros Hc.
  assert (Hroll : both Q (mkSession c c t f)) by (split; assumption).
  assert (Hfst : forall s', both Q s' -> Q (committed s')) by (intros s' [H _]; exact H).
  assert (G : forall msg tb (k : M TaskReturn),
             (forall s1, both Q s1 ->
                wp k (fun _ s' => Q (committed s')) (fun _ s' => Q (committed s')) s1) ->
             wp (rollback ;; _mark_failed order_id msg (request_id self) clock tb ;; k)
                (fun _ s' => Q (committed s')) (fun _ s' => Q (committed s'))
                (mkSession c p t f)).
  { intros msg tb k Hk. apply wp_bind, wp_rollback, wp_bind.
    eapply wp_conseq; [apply _mark_failed_holds, Hroll | | auto].
    intros u s1 Hs1. now apply Hk. }
  assert (Gretry : forall msg (ex : exn) s1, both Q s1 ->
             wp (if (request_retries self <? max_retries)%nat then
                   _log_retry order_id (request_id self) (request_retries self + 1) msg ;;
                   raise (Retry (retry_delay (request_retries self)) ex)
                 else ret (RetFailed order_id msg))
                (fun _ s' => Q (committed s')) (fun _ s' => Q (committed s')) s1).
  { intros msg ex s1 Hs1. destruct (_ <? _)%nat; [|apply wp_ret; auto].
    apply wp_bind. eapply wp_conseq; [apply _log_retry_holds, Hs1 | | auto].
    intros u s2 Hs2. apply wp_raise; auto. }
  unfold process_order_except. destruct e as [msg|ty msg tb|n e'].
  - apply G. intros s1 Hs1. apply wp_ret; auto.
  - apply G. intros s1 Hs1. now apply Gretry.
  - apply G. intros s1 Hs1. now apply Gretry.
Qed.

Hypothesis HQdec : survives_decrement Q.

Lemma process_order_try_holds : keeps_both Q (process_order_try self clock order_id).
Proof.
  intros [c p t f] [Hc Hp]. cbn in Hc, Hp. unfold process_order_try.
  apply wp_bind, wp_query; [|intros; split; assumption]. intros f1.
  destruct (first _ (orders p)) as [[oi order]|] eqn:Ho.
  2:{ apply wp_ret. split; assumption. }
  apply first_order_id in Ho as [Ho Hid].
  apply wp_bind, wp_query; [|intros; split; assumption]. intros f2.
  apply wp_bind, wp_change.
  assert (Hp1 : Q (with_orders p (set_row oi (Order.set_status order PROCESSING) (orders p)))).
  { eapply (att_order _ _ HQ); eauto. repeat split. }
  apply wp_bind, wp_commit; [|intros; split; assumption]. intros f3.
  apply wp_bind, wp_reload; [|intros; split; assumption]. intros f3'.
  unfold load_items at 1. apply wp_bind, wp_query; [|intros; split; assumption].
  intros f3''.
  apply wp_bind.
  apply (wp_conseq _
           (fun _ s' => both Q s' /\
                        nth_error (orders (pending s')) oi
                        = Some (Order.set_status order PROCESSING))
           _ (fun _ => both Q) (fun _ => both Q)); [| |auto].
  - apply (wp_for_each (process_item clock)
             (fun _ s' => both Q s' /\
                          nth_error (orders (pending s')) oi
                          = Some (Order.set_status order PROCESSING))).
    + intros done x rest [c4 p4 t4 f4] _ [[Hc4 Hp4] Ho4]. cbn in *.
      apply wp_process_item.
      * intros f'. destruct (check_item p4 x) as [i row|msg lk] eqn:Hv.
        -- repeat split; cbn; auto; now apply HQdec.
        -- split; assumption.
      * intros e f' _. split; assumption.
    + repeat split; cbn; auto. eapply nth_error_set_row_eq; eauto.
  - intros u [c4 p4 t4 f4] [[Hc4 Hp4] Ho4]. cbn in *.
    apply wp_bind, wp_change. apply wp_bind, wp_change.
    assert (Hp5 : forall o' l, order_touch (Order.set_status order PROCESSING) o' ->
              Q (with_sync_logs (with_orders p4 (set_row oi o' (orders p4)))
                   (sync_logs (with_orders p4 (set_row oi o' (orders p4))) ++ [l]))).
    { intros o' l Ht. apply (att_log _ _ HQ). eapply (att_order _ _ HQ); eauto. }
    apply wp_bind, wp_commit.
    + intros f5. apply wp_bind, wp_reload.
      * intros f6. apply wp_ret. split; cbn; apply Hp5; repeat split.
      * intros e f6 _. split; cbn; apply Hp5; repeat split.
    + intros e f5 _. split; cbn; [assumption|]. apply Hp5; repeat split.
Qed.

Lemma deliver_holds fs db : Q db -> Q (store (deliver self clock fs order_id db)).
Proof.
  intros Hdb. unfold deliver.
  assert (H : wp (process_order self clock order_id)
                 (fun _ s' => Q (committed s')) (fun _ s' => Q (committed s'))
                 (SessionLocal db fs)).
  { unfold process_order. apply wp_try_finally, wp_try_except.
    eapply wp_conseq; [apply process_order_try_holds; split; exact Hdb | |].
    - intros a [c p t f] [Hc _]. exact Hc.
    - intros e s1 [Hc _].
      eapply wp_conseq; [apply process_order_except_holds, Hc | |];
        intros x [c p t f] H; exact H. }
  unfold wp in H.
  destruct (process_order self clock order_id (SessionLocal db fs)) as [[r|e] s']; exact H.
Qed.
End AttemptFrame.

Lemma untouched_but_invariant order_id db :
  AttemptInvariant order_id (untouched_but order_id db) /\
  survives_decrement (untouched_but order_id db).
Proof.
  split; [split|].
  - intros db' l H. exact H.
  - intros db' i o o' (Hp & Hi & Hlen & Hother & Hall) Hn Hid Ht.
    unfold untouched_but. cbn [products order_items orders with_orders].
    split; [exact Hp|]. split; [exact Hi|]. split; [now rewrite set_row_length|]. split.
    + intros j o0 Hj Hne. destruct (Nat.eq_dec i j) as [->|Hij].
      * rewrite (Hother j o0 Hj Hne) in Hn. congruence.
      * rewrite nth_error_set_row_neq by exact Hij. now apply Hother.
    + intros j o0 Hj. destruct (Hall j o0 Hj) as (o1 & Hj1 & Ht1).
      destruct (Nat.eq_dec i j) as [->|Hij].
      * exists o'. split; [eapply nth_error_set_row_eq; eauto|].
        assert (o1 = o) by congruence. subst o1.
        destruct Ht1 as (A1 & A2 & A3), Ht as (B1 & B2 & B3).
        repeat split; congruence.
      * exists o1. split; [now rewrite nth_error_set_row_neq | exact Ht1].
  - intros db' item i row now H _. exact H.
Qed.

Lemma log_extends_invariant order_id db :
  AttemptInvariant order_id (log_extends db) /\ survives_decrement (log_extends db).
Proof.
  split; [split|].
  - intros db' l [l0 H]. exists (l0 ++ [l]). cbn. now rewrite H, app_assoc.
  - intros db' i o o' H _ _ _. exact H.
  - intros db' item i row now H _. exact H.
Qed.

(** X3.  Whatever the fault schedule and however it ends, an attempt on an
    order leaves the catalog and the line items alone, adds and removes no
    order, changes no row of another order, keeps the id, the external id
    and the retry counter of every order, and only ever appends to the
    audit log. *)
Theorem attempt_touches_its_order_only :
  forall self clock fs order_id db,
    untouched_but order_id db (store (deliver self clock fs order_id db)) /\
    log_extends db (store (deliver self clock fs order_id db)).
Proof.
  intros self clock fs order_id db. split.
  - destruct (untouched_but_invariant order_id db) as [H1 H2].
    apply (deliver_holds order_id _ H1 self clock H2).
    unfold untouched_but. repeat split; auto.
    intros j o Hj. exists o. split; [exact Hj|]. repeat split.
  - destruct (log_extends_invariant order_id db) as [H1 H2].
    apply (deliver_holds order_id _ H1 self clock H2).
    exists []. now rewrite app_nil_r.
Qed.

(** X4.  No partial decrement survives: whatever the fault schedule and
    however the attempt ends, the committed inventory is in the end
    exactly what it was before the attempt, or the inventory with every
    line item of the order taken off, as the check-and-decrement loop
    leaves it when it accepts them all; and it is the latter when the
    attempt returns the completed result. *)
Theorem inventory_changes_only_on_completion :
  forall self clock fs order_id db,
    (inventory (store (deliver self clock fs order_id db)) = inventory db \/
     exists oi order p t,
       first (fun o => Order.id o =? order_id) (orders db) = Some (oi, order) /\
       fulfil (utcnow clock) (items_of db order) (claimed db oi order) [] = (None, p, t) /\
       inventory (store (deliver self clock fs order_id db)) = inventory p) /\
    (forall x y z,
        outcome (deliver self clock fs order_id db) = Ok (RetCompleted x y z) ->
        exists oi order p t,
          first (fun o => Order.id o =? order_id) (orders db) = Some (oi, order) /\
          fulfil (utcnow clock) (items_of db order) (claimed db oi order) [] = (None, p, t) /\
          inventory (store (deliver self clock fs order_id db)) = inventory p).
Proof.
  intros self clock fs order_id db. split.
  - set (Q := fun db' =>
                inventory db' = inventory db \/
                exists oi order p t,
                  first (fun o => Order.id o =? order_id) (orders db) = Some (oi, order) /\
                  fulfil (utcnow clock) (items_of db order) (claimed db oi order) []
                  = (None, p, t) /\
                  inventory db' = inventory p).
    assert (HQ : AttemptInvariant order_id Q) by (split; intros; assumption).
    assert (H : wp (process_order self clock order_id)
                   (fun _ s' => Q (committed s')) (fun _ s' => Q (committed s'))
                   (SessionLocal db fs)).
    { unfold process_order. apply wp_try_finally, wp_try_except.
      assert (Hexc : forall e s1, Q (committed s1) ->
                 wp (process_order_except self clock order_id e)
                    (fun _ s' => Q (committed (close s')))
                    (fun _ s' => Q (committed (close s'))) s1).
      { intros e s1 Hc.
        eapply wp_conseq; [apply (process_order_except_holds order_id Q HQ), Hc | |];
          intros r [c p t f] H; exact H. }
      assert (Hsame : Q db) by (left; reflexivity).
      unfold SessionLocal, process_order_try.
      apply wp_bind, wp_query; [|intros; apply Hexc; exact Hsame]. intros f1.
      destruct (first _ (orders db)) as [[oi order]|] eqn:Ho.
      2:{ apply wp_ret. exact Hsame. }
      apply wp_bind, wp_query; [|intros; apply Hexc; exact Hsame]. intros f2.
      apply wp_bind, wp_change. fold (claimed db oi order).
      assert (Hclaimed : Q (claimed db oi order)) by (left; reflexivity).
      apply wp_bind, wp_commit; [|intros; apply Hexc; exact Hsame]. intros f3.
      apply wp_bind, wp_reload; [|intros; apply Hexc; exact Hclaimed]. intros f3'.
      apply wp_bind, wp_query; [|intros; apply Hexc; exact Hclaimed]. intros f3''.
      cbn [Order.set_status Order.id order_items claimed with_orders].
      fold (items_of db order). fold (claimed db oi order).
      apply wp_bind, wp_items.
      - intros f4. destruct (fulfil _ _ _ _) as [[[msg|] p] t] eqn:Hf.
        { apply Hexc. exact Hclaimed. }
        assert (Hdone : forall o l,
                   Q (with_sync_logs (with_orders p o) l)).
        { intros o l. right. exists oi, order, p, t. auto. }
        apply wp_bind, wp_change, wp_bind, wp_change, wp_bind, wp_commit.
        + intros f5. apply wp_bind, wp_reload.
          * intros f6. apply wp_ret. apply Hdone.
          * intros e f6 _. apply Hexc. apply Hdone.
        + intros e f5 _. apply Hexc. exact Hclaimed.
      - intros done x rest p' t' e f' _ _ _. apply Hexc. exact Hclaimed. }
    unfold wp in H. unfold deliver.
    destruct (process_order self clock order_id (SessionLocal db fs)) as [[r|e] s']; exact H.
  - intros x y z Hr.
    destruct (deliver_envelope self clock fs order_id db) as [_ H].
    destruct (H x y z Hr) as (oi & order & p & Ho & Hf & Hs).
    exists oi, order, p, (locked (deliver self clock fs order_id db)).
    split; [exact Ho|]. split; [exact Hf|]. now rewrite Hs.
Qed.

(** A decrement that outlives a failed attempt: order 100 completes and
    commits, and the connection is lost when the order is read once more
    for the result.  The attempt ends in a retry, the three W1 are gone,
    and the order is marked FAILED. *)
Example decrement_survives_a_late_fault :
  let a := deliver worker noon
             [None; None; None; None; None; None; None; None;
              Some (mkFault "OperationalError" "connection lost" "Traceback")]
             100 shop in
  outcome a = Raise (Retry 60 (OtherError "OperationalError" "connection lost" "Traceback")) /\
  map Inventory.quantity (inventory (store a)) = [2; 2] /\
  map Inventory.quantity (inventory shop) = [5; 2] /\
  option_map Order.status (nth_error (orders (store a)) 0) = Some FAILED.
Proof. repeat split. Qed.
(** * The manual retry endpoint *)

(** X5.  The retry endpoint answers by the order's presence and status.
    For an unknown id it answers 404, and for an order that is COMPLETED,
    CANCELLED or PROCESSING it answers 400 naming the status; in both
    cases the store is left as it was under every fault schedule.  Only a
    FAILED or PENDING order is reset: PENDING, error message cleared,
    retry counter one higher, everything else kept, and the job is
    dispatched again. *)
Theorem retry_order_decision :
  forall dispatch order_id db,
    match first (fun o => Order.id o =? order_id) (orders db) with
    | None =>
        (forall fs, snd (run_retry_order dispatch fs order_id db) = db) /\
        fst (run_retry_order dispatch [] order_id db)
        = Ok (HTTPException 404 (msg_order_not_found order_id))
    | Some (oi, order) =>
        match Order.status order with
        | FAILED | PENDING =>
            run_retry_order dispatch [] order_id db
            = (Ok (WebhookResponse "retrying"
                     (fstr ["Order "; str_of_Z order_id;
                            " has been re-queued for processing (retry #";
                            str_of_Z (Order.retry_count order + 1); ")."])
                     (Order.id order) (dispatch (Order.id order))),
               with_orders db
                 (set_row oi
                    (Order.mk (Order.id order) (Order.external_order_id order) PENDING
                       (Order.processed_at order) None (Order.retry_count order + 1))
                    (orders db)))
        | st =>
            (forall fs, snd (run_retry_order dispatch fs order_id db) = db) /\
            fst (run_retry_order dispatch [] order_id db)
            = Ok (HTTPException 400
                    (fstr ["Can only retry failed or pending orders. Current status: ";
                           OrderStatus_value st]))
        end
    end.
Proof.
  intros dispatch order_id db.
  destruct (first _ (orders db)) as [[oi order]|] eqn:Ho.
  - destruct (Order.status order) eqn:Hst.
    + apply run_retry_order_quiet; auto.
    + split.
      * intros fs. unfold run_retry_order, retry_order, try_finally, SessionLocal.
        destruct fs as [|[ft|] fs]; cbn; rewrite ?Ho, ?Hst; reflexivity.
      * unfold run_retry_order, retry_order, try_finally, SessionLocal. cbn.
        rewrite Ho, Hst. reflexivity.
    + split.
      * intros fs. unfold run_retry_order, retry_order, try_finally, SessionLocal.
        destruct fs as [|[ft|] fs]; cbn; rewrite ?Ho, ?Hst; reflexivity.
      * unfold run_retry_order, retry_order, try_finally, SessionLocal. cbn.
        rewrite Ho, Hst. reflexivity.
    + apply run_retry_order_quiet; auto.
    + split.
      * intros fs. unfold run_retry_order, retry_order, try_finally, SessionLocal.
        destruct fs as [|[ft|] fs]; cbn; rewrite ?Ho, ?Hst; reflexivity.
      * unfold run_retry_order, retry_order, try_finally, SessionLocal. cbn.
        rewrite Ho, Hst. reflexivity.
  - split.
    + intros fs. unfold run_retry_order, retry_order, try_finally, SessionLocal.
      destruct fs as [|[ft|] fs]; cbn; rewrite ?Ho; reflexivity.
    + unfold run_retry_order, retry_order, try_finally, SessionLocal. cbn.
      rewrite Ho. reflexivity.
Qed.

(** * The webhook *)

Lemma next_id_above skipped ids x : In x ids -> x < next_id skipped ids.
Proof.
  unfold next_id. induction ids as [|y ids IH]; intros H; [destruct H|].
  cbn [fold_right]. destruct H as [->|H]; [lia|]. specialize (IH H). lia.
Qed.

Lemma first_from_app {A} (p : A -> bool) x : forall l k,
  first_from p (l ++ [x]) k =
  match first_from p l k with
  | Some r => Some r
  | None => if p x then Some ((k + length l)%nat, x) else None
  end.
Proof.
  induction l as [|y l IH]; intros k; cbn.
  - now rewrite Nat.add_0_r.
  - destruct (p y); [reflexivity|]. rewrite IH.
    now replace (S k + length l)%nat with (k + S (length l))%nat by lia.
Qed.

Lemma first_app {A} (p : A -> bool) x l :
  first p (l ++ [x]) =
  match first p l with
  | Some r => Some r
  | None => if p x then Some (length l, x) else None
  end.
Proof. unfold first. now rewrite first_from_app. Qed.

(** The rows of an accepted payload: one per line and in the order of the
    lines, for the new order, numbered from [id] on. *)
Lemma accepted_lines_spec order_id lines : forall id,
  Forall (fun it => OrderItem.order_id it = order_id) (accepted_lines id order_id lines) /\
  map (fun it => (OrderItem.sku it, OrderItem.quantity it)) (accepted_lines id order_id lines)
  = map (fun l => (line_sku l, ShopifyLineItem.quantity l)) lines /\
  map OrderItem.id (accepted_lines id order_id lines)
  = map (fun k => id + Z.of_nat k) (seq 0 (length lines)).
Proof.
  induction lines as [|x lines IH]; intros id; cbn [accepted_lines map length seq].
  - repeat split. constructor.
  - destruct (IH (id + 1)) as (Hall & Hmap & Hids). split; [|split].
    + constructor; [reflexivity | exact Hall].
    + now rewrite Hmap.
    + rewrite Hids, <- seq_shift, map_map. f_equal; [cbn; lia|].
      apply map_ext. intros k. lia.
Qed.

Lemma calm_step n fs : calm (S n) fs -> calm 1 fs /\ calm n (skipn 1 fs).
Proof.
  unfold calm. destruct fs as [|f fs]; cbn.
  - intros _. split; [constructor | now rewrite firstn_nil].
  - intros H. inversion H; subst. split; [|assumption].
    destruct n; cbn; constructor; auto.
Qed.

Lemma calm_weaken n m fs : (n <= m)%nat -> calm m fs -> calm n fs.
Proof.
  unfold calm. revert m fs. induction n as [|n IH]; intros m fs Hle H; [constructor|].
  destruct m as [|m]; [lia|]. destruct fs as [|f fs]; cbn in *; [constructor|].
  inversion H; subst. constructor; [reflexivity|]. apply (IH m); [lia | assumption].
Qed.

Lemma calm_skipn n m fs : calm (n + m) fs -> calm m (skipn n fs).
Proof.
  revert fs. induction n as [|n IH]; intros fs H; [exact H|].
  destruct fs as [|f fs]; cbn in *.
  - unfold calm. rewrite firstn_nil. constructor.
  - apply IH. unfold calm in *. cbn in H. now inversion H.
Qed.

Lemma db_op_calm c p t fs :
  calm 1 fs -> db_op (mkSession c p t fs) = (Ok tt, mkSession c p t (skipn 1 fs)).
Proof.
  unfold calm. destruct fs as [|[f|] fs]; cbn; intros H; try reflexivity.
  inversion H; subst. discriminate.
Qed.

Lemma add_line_calm float_ok texts order item c p t fs :
  calm 1 fs -> float_ok (ShopifyLineItem.price item) = true ->
  adapt texts (line_sku item) = None ->
  add_line float_ok texts order item (mkSession c p t fs) =
  (Ok (new_line order item), mkSession c p t (skipn 1 fs)).
Proof.
  intros Hc Hf Ha. unfold add_line, query_product, float. rewrite Hf, Ha.
  unfold bind at 1. unfold bind at 1. rewrite (db_op_calm _ _ _ _ Hc). reflexivity.
Qed.

Lemma lines_calm float_ok texts order lines : forall c p t fs,
  calm (length lines) fs ->
  forallb (fun item => float_ok (ShopifyLineItem.price item)) lines = true ->
  Forall (fun item => adapt texts (line_sku item) = None) lines ->
  collect (add_line float_ok texts order) lines (mkSession c p t fs) =
  (Ok (map (new_line order) lines), mkSession c p t (skipn (length lines) fs)).
Proof.
  induction lines as [|x lines IH]; intros c p t fs Hc Hf Ha.
  - reflexivity.
  - cbn [forallb] in Hf. apply andb_prop in Hf as [Hx Hf].
    inversion Ha as [|? ? Hax Ha']; subst.
    cbn [length] in Hc. apply calm_step in Hc as [H1 Hn].
    cbn [collect]. unfold bind at 1. rewrite (add_line_calm _ _ _ _ _ _ _ _ H1 Hx Hax).
    unfold bind at 1. rewrite (IH _ _ _ _ Hn Hf Ha'). cbn [map length ret].
    unfold ret. f_equal. f_equal. rewrite skipn_skipn. f_equal. lia.
Qed.

Lemma wp_db_op_calm (Q : unit -> Session -> Prop) E c p t fs :
  calm 1 fs -> Q tt (mkSession c p t (skipn 1 fs)) -> wp db_op Q E (mkSession c p t fs).
Proof.
  intros Hc HQ. unfold wp. now rewrite (db_op_calm _ _ _ _ Hc).
Qed.

Lemma wp_query_calm {A} (read : DB -> A) (Q : A -> Session -> Prop) E c p t fs :
  calm 1 fs -> Q (read p) (mkSession c p t (skipn 1 fs)) ->
  wp (db_op ;; db <- view ;; ret (read db)) Q E (mkSession c p t fs).
Proof.
  intros Hc HQ. apply wp_bind, wp_db_op_calm; [exact Hc|]. exact HQ.
Qed.

Lemma skipn_head {A} (l : list A) : forall k,
  match skipn k l with
  | x :: _ => nth_error l k = Some x
  | [] => nth_error l k = None
  end.
Proof.
  induction l as [|y l IH]; intros [|k]; cbn; auto. apply IH.
Qed.

(** The loop over the lines of the payload, under any fault schedule: it
    changes nothing, and when it gets through, every price was readable
    and the objects it added are those of the lines. *)
Lemma wp_collect_lines float_ok texts order items : forall c p t f,
  wp (collect (add_line float_ok texts order) items)
     (fun lines s' =>
        lines = map (new_line order) items /\
        committed s' = c /\ pending s' = p /\ lock_trace s' = t /\
        forallb (fun item => float_ok (ShopifyLineItem.price item)) items = true)
     (fun _ s' => committed s' = c)
     (mkSession c p t f).
Proof.
  induction items as [|x items IH]; intros c p t f; cbn [collect].
  - apply wp_ret. repeat split.
  - apply wp_bind. unfold add_line. apply wp_bind.
    destruct (adapt texts (line_sku x)); [apply wp_raise; reflexivity|].
    unfold query_product. apply wp_query; [|intros; reflexivity]. intros f'.
    apply wp_bind. unfold float.
    destruct (float_ok (ShopifyLineItem.price x)) eqn:Hx;
      [apply wp_ret | apply wp_raise; reflexivity].
    apply wp_ret, wp_bind.
    eapply wp_conseq; [apply IH | | auto].
    intros ys [c' p' t' f''] (-> & Hc & Hp & Ht & Hf). cbn in Hc, Hp, Ht. subst.
    apply wp_ret. cbn [map forallb]. rewrite Hx, Hf. repeat split.
Qed.

(** The commit that flushes the line items, under any fault schedule. *)
Lemma wp_commit_order_items texts seqs lines (Q : unit -> Session -> Prop) E c p t f :
  (forall rows f',
      insert_order_items texts (order_items_id_seq seqs) lines = inl rows ->
      Q tt (mkSession (with_order_items p (order_items p ++ rows))
              (with_order_items p (order_items p ++ rows)) t f')) ->
  (forall e f', E e (mkSession c p t f')) ->
  wp (commit_order_items texts seqs lines) Q E (mkSession c p t f).
Proof.
  intros HQ HE. unfold commit_order_items. apply wp_bind, wp_db_op; [|auto].
  intros f'. unfold wp.
  destruct (insert_order_items texts (order_items_id_seq seqs) lines) as [rows|e] eqn:Hins;
    cbn [pending lock_trace faults]; [now apply HQ | apply HE].
Qed.

(** A payload that fits is inserted as it is. *)
Lemma insert_order_item_fit texts order id x :
  line_fits texts x ->
  insert_order_item texts id (new_line order x)
  = inl (OrderItem.mk id (Order.id order) (line_sku x) (ShopifyLineItem.quantity x)).
Proof.
  intros (_ & Hsku & (stored & Hname) & Hq).
  unfold insert_order_item, new_line.
  cbn [NewOrderItem.sku NewOrderItem.name NewOrderItem.quantity NewOrderItem.order_id].
  unfold kept in Hsku. rewrite Hsku. cbn [and_then]. rewrite Hname. cbn [and_then].
  now rewrite Hq.
Qed.

Lemma insert_order_items_fit texts order lines : forall id,
  Forall (line_fits texts) lines ->
  insert_order_items texts id (map (new_line order) lines)
  = inl (accepted_lines id (Order.id order) lines).
Proof.
  induction lines as [|x lines IH]; intros id Hfit; cbn [map insert_order_items accepted_lines].
  - reflexivity.
  - inversion Hfit as [|? ? Hx Hfit']; subst.
    rewrite (insert_order_item_fit texts order id x Hx). cbn [and_then].
    rewrite (IH (id + 1) Hfit'). reflexivity.
Qed.

Lemma inserted_fit texts skipped payload db :
  is_new payload db ->
  payload_fits texts payload ->
  inserted texts skipped payload db
  = Some (accepted_order skipped payload db, accepted_store skipped payload db).
Proof.
  intros Hnew (Hid & (n & Hname) & (m & Hmail) & (cur & Hcur) & Hlines).
  unfold inserted, insert_order. unfold kept in Hid. rewrite Hid, Hname, Hmail.
  cbn [varchar_opt] in Hcur. cbn [and_then].
  destruct (varchar texts 10 (ShopifyOrderWebhook.currency payload)) as [cur'|e];
    [|discriminate Hcur]. cbn [and_then].
  rewrite existsb_first. unfold is_new in Hnew. rewrite Hnew.
  cbn [sequences orders_id_seq order_items_id_seq]. fold (accepted_order skipped payload db).
  now rewrite (insert_order_items_fit texts _ _ _ Hlines).
Qed.

(** What is inserted for a payload: the order row with the next id of the
    sequence, PENDING and with cleared counters, and one row per line, for
    that order, with the quantity of the line and the next ids of the
    sequence, after the rows that were there. *)
Lemma insert_order_items_spec texts order_id lines : forall id rows,
  insert_order_items texts id (map (new_line order_id) lines) = inl rows ->
  map (fun it => (OrderItem.id it, OrderItem.order_id it, OrderItem.quantity it)) rows
  = map (fun it => (OrderItem.id it, OrderItem.order_id it, OrderItem.quantity it))
        (accepted_lines id (Order.id order_id) lines).
Proof.
  induction lines as [|x lines IH]; intros id rows H;
    cbn [map insert_order_items accepted_lines] in *.
  - now injection H as <-.
  - unfold and_then at 1 in H.
    destruct (insert_order_item texts id (new_line order_id x)) as [row|e] eqn:Hrow;
      [|discriminate].
    unfold and_then at 1 in H.
    destruct (insert_order_items texts (id + 1) (map (new_line order_id) lines))
      as [rest|e] eqn:Hrest; [|discriminate].
    injection H as <-. cbn [map]. rewrite (IH _ _ Hrest). f_equal.
    unfold insert_order_item, and_then in Hrow.
    destruct (varchar texts 50 _); [|discriminate].
    destruct (varchar_opt texts 255 _); [|discriminate].
    destruct (int4_ok _); [|discriminate].
    now injection Hrow as <-.
Qed.

Lemma inserted_spec texts skipped payload db order db' :
  inserted texts skipped payload db = Some (order, db') ->
  Order.id order = next_id (skipped_orders skipped) (map Order.id (orders db)) /\
  Order.status order = PENDING /\
  Order.processed_at order = None /\ Order.error_message order = None /\
  Order.retry_count order = 0 /\
  products db' = products db /\ inventory db' = inventory db /\
  sync_logs db' = sync_logs db /\
  orders db' = orders db ++ [order] /\
  exists rows,
    order_items db' = order_items db ++ rows /\
    map (fun it => (OrderItem.id it, OrderItem.order_id it, OrderItem.quantity it)) rows
    = map (fun it => (OrderItem.id it, OrderItem.order_id it, OrderItem.quantity it))
          (accepted_lines
             (next_id (skipped_order_items skipped) (map OrderItem.id (order_items db)))
             (Order.id order) (ShopifyOrderWebhook.line_items payload)).
Proof.
  unfold inserted. intros H.
  destruct (insert_order _ _ _ _ _ _ _) as [o|e] eqn:Ho; [|discriminate].
  destruct (insert_order_items _ _ _) as [rows|e] eqn:Hrows; [|discriminate].
  injection H as -> <-.
  unfold insert_order, and_then in Ho.
  destruct (varchar texts 100 _); [|discriminate].
  destruct (varchar_opt texts 255 _); [|discriminate].
  destruct (varchar_opt texts 255 _); [|discriminate].
  destruct (varchar texts 10 _); [|discriminate].
  destruct (existsb _ _); [discriminate|]. injection Ho as <-.
  pose proof (insert_order_items_spec _ _ _ _ _ Hrows) as Hspec.
  cbn. repeat split. exists rows. split; [reflexivity|]. exact Hspec.
Qed.

(** The webhook on a new payload that fits and has readable prices, when no
    fault is met up to and including the commit: the order and its lines
    are committed; what is left to happen is the refresh of the order. *)
Lemma run_webhook_calm float_ok texts dispatch skipped fs payload db :
  is_new payload db ->
  prices_ok float_ok payload = true ->
  payload_fits texts payload ->
  calm (3 + length (ShopifyOrderWebhook.line_items payload)) fs ->
  run_webhook float_ok texts dispatch skipped fs payload db =
  (match nth_error fs (3 + length (ShopifyOrderWebhook.line_items payload)) with
   | Some (Some f) => Raise (OtherError (fault_type f) (fault_msg f) (fault_tb f))
   | _ => Ok (accepted_reply dispatch skipped payload db)
   end,
   accepted_store skipped payload db).
Proof.
  intros Hnew Hok Hfit Hc.
  pose proof (inserted_fit texts skipped payload db Hnew Hfit) as Hins.
  unfold inserted in Hins.
  destruct (insert_order _ _ _ _ _ _ _) as [order|e] eqn:Ho; [|discriminate].
  destruct (insert_order_items _ _ _) as [rows|e] eqn:Hrows; [|discriminate].
  injection Hins as Horder _ Hitems. apply app_inv_head in Hitems. subst order rows.
  unfold prices_ok in Hok. apply andb_prop in Hok as [Htot Hlines].
  assert (Hadapt : Forall (fun item => adapt texts (line_sku item) = None)
                     (ShopifyOrderWebhook.line_items payload)).
  { destruct Hfit as (_ & _ & _ & _ & Hl). eapply Forall_impl; [|exact Hl].
    intros item (Ha & _). exact Ha. }
  set (n := length (ShopifyOrderWebhook.line_items payload)) in *.
  assert (H1 : calm 1 fs) by (apply (calm_weaken 1 (3 + n)); [lia | exact Hc]).
  assert (H2 : calm 1 (skipn 1 fs)).
  { apply (calm_weaken 1 (2 + n)); [lia|]. apply (calm_skipn 1 (2 + n)), Hc. }
  assert (H3 : calm n (skipn 1 (skipn 1 fs))).
  { rewrite skipn_skipn. apply (calm_weaken n (1 + n)); [lia|].
    apply (calm_skipn 2 (1 + n)), Hc. }
  assert (H4 : calm 1 (skipn n (skipn 1 (skipn 1 fs)))).
  { rewrite !skipn_skipn. apply (calm_skipn (n + 1 + 1) 1).
    replace (n + 1 + 1 + 1)%nat with (3 + n)%nat by lia. exact Hc. }
  set (X := (match nth_error fs (3 + n) with
             | Some (Some f) => Raise (OtherError (fault_type f) (fault_msg f) (fault_tb f))
             | _ => Ok (accepted_reply dispatch skipped payload db)
             end, accepted_store skipped payload db)).
  assert (H : wp (receive_shopify_order float_ok texts dispatch (sequences skipped db) payload)
                 (fun r s' => (Ok r, committed s') = X)
                 (fun e s' => (Raise e, committed s') = X)
                 (SessionLocal db fs)).
  { unfold receive_shopify_order, SessionLocal.
    apply wp_try_finally, wp_bind. unfold query_order_by_external.
    apply wp_query_calm; [exact H1|]. unfold is_new in Hnew. rewrite Hnew.
    apply wp_bind. unfold float. rewrite Htot. apply wp_ret.
    apply wp_bind. unfold flush_order.
    apply wp_bind, wp_db_op_calm; [exact H2|].
    apply wp_bind, wp_view. cbn [pending]. rewrite Ho.
    apply wp_bind, wp_change, wp_ret.
    apply wp_bind.
    eapply wp_of_run; [apply (lines_calm _ _ _ _ _ _ _ _ H3 Hlines Hadapt)|].
    apply wp_bind. unfold commit_order_items.
    apply wp_bind, wp_db_op_calm; [exact H4|].
    unfold wp at 1. cbn beta. rewrite Hrows. cbn [pending lock_trace faults].
    apply wp_bind, wp_db_op_at. fold n.
    pose proof (skipn_head fs (3 + n)) as Hh.
    replace (skipn 1 (skipn n (skipn 1 (skipn 1 fs)))) with (skipn (3 + n) fs)
      by (rewrite !skipn_skipn; f_equal; lia).
    unfold X, accepted_reply.
    destruct (skipn (3 + n) fs) as [|[f|] rest]; rewrite Hh; reflexivity. }
  unfold wp in H. unfold run_webhook.
  destruct (receive_shopify_order float_ok texts dispatch (sequences skipped db) payload
              (SessionLocal db fs))
    as [[r|e] s']; exact H.
Qed.

Lemma receive_shopify_order_envelope float_ok texts dispatch skipped fs payload db :
  wp (receive_shopify_order float_ok texts dispatch (sequences skipped db) payload)
     (fun r s' =>
        webhook_envelope float_ok texts dispatch skipped payload db (Ok r) (committed s'))
     (fun e s' =>
        webhook_envelope float_ok texts dispatch skipped payload db (Raise e) (committed s'))
     (SessionLocal db fs).
Proof.
  unfold receive_shopify_order, SessionLocal.
  apply wp_try_finally, wp_bind. unfold query_order_by_external.
  apply wp_query; [|intros; left; reflexivity]. intros f1.
  destruct (first _ (orders db)) as [[oi existing]|] eqn:Hnew.
  { apply wp_ret. left. repeat split. eauto. }
  apply wp_bind. unfold float at 1.
  destruct (float_ok (ShopifyOrderWebhook.total_price payload)) eqn:Htot;
    [apply wp_ret | apply wp_raise; left; reflexivity].
  apply wp_bind. unfold flush_order.
  apply wp_bind, wp_db_op; [|intros; left; reflexivity]. intros f2.
  apply wp_bind, wp_view. cbn [pending].
  destruct (insert_order _ _ _ _ _ _ _) as [order|e] eqn:Ho;
    [|apply wp_raise; left; reflexivity].
  apply wp_bind, wp_change, wp_ret.
  apply wp_bind.
  eapply wp_conseq; [apply wp_collect_lines | | intros e s' Hc; left; exact Hc].
  intros lines [c p t f] (-> & Hc & Hp & _ & Hf). cbn in Hc, Hp. subst c p.
  assert (Hok : prices_ok float_ok payload = true).
  { unfold prices_ok. now rewrite Htot, Hf. }
  apply wp_bind, wp_commit_order_items; [|intros; left; reflexivity].
  intros rows f3 Hrows.
  assert (Hins : inserted texts skipped payload db
                 = Some (order,
                         with_order_items (with_orders db (orders db ++ [order]))
                           (order_items (with_orders db (orders db ++ [order])) ++ rows))).
  { unfold inserted. now rewrite Ho, Hrows. }
  apply wp_bind, wp_db_op.
  - intros f4. apply wp_ret. right. exists order. repeat split; assumption.
  - intros e f4 He. right. exists order. repeat split; assumption.
Qed.

Lemma run_webhook_envelope float_ok texts dispatch skipped fs payload db :
  webhook_envelope float_ok texts dispatch skipped payload db
    (fst (run_webhook float_ok texts dispatch skipped fs payload db))
    (snd (run_webhook float_ok texts dispatch skipped fs payload db)).
Proof.
  pose proof (receive_shopify_order_envelope float_ok texts dispatch skipped fs payload db)
    as H.
  unfold wp in H. unfold run_webhook.
  destruct (receive_shopify_order float_ok texts dispatch (sequences skipped db) payload
              (SessionLocal db fs))
    as [[r|e] s']; exact H.
Qed.

Lemma run_webhook_existing float_ok texts dispatch skipped payload db oi existing :
  first (fun o => String.eqb (Order.external_order_id o)
                    (str_of_Z (ShopifyOrderWebhook.id payload)))
        (orders db) = Some (oi, existing) ->
  (forall fs, snd (run_webhook float_ok texts dispatch skipped fs payload db) = db) /\
  run_webhook float_ok texts dispatch skipped [] payload db
  = (Ok (WebhookResponse "duplicate"
           (fstr ["Order "; str_of_Z (ShopifyOrderWebhook.id payload); " already exists."])
           (Order.id existing) None),
     db).
Proof.
  intros Hex. split.
  - intros fs.
    unfold run_webhook, receive_shopify_order, try_finally, query_order_by_external,
      SessionLocal.
    destruct fs as [|[f|] fs]; cbn; rewrite ?Hex; reflexivity.
  - unfold run_webhook, receive_shopify_order, try_finally, query_order_by_external,
      SessionLocal.
    cbn. rewrite Hex. reflexivity.
Qed.

(** X6.  The webhook is idempotent on the external id: when an order with
    the id of the payload exists, the store is left as it was under every
    fault schedule, and a fault-free request answers "duplicate" with the
    id of the existing order and without a task: nothing is dispatched. *)
Theorem webhook_duplicate :
  forall float_ok texts dispatch skipped payload db oi existing,
    first (fun o => String.eqb (Order.external_order_id o)
                      (str_of_Z (ShopifyOrderWebhook.id payload)))
          (orders db) = Some (oi, existing) ->
    (forall fs, snd (run_webhook float_ok texts dispatch skipped fs payload db) = db) /\
    run_webhook float_ok texts dispatch skipped [] payload db
    = (Ok (WebhookResponse "duplicate"
             (fstr ["Order "; str_of_Z (ShopifyOrderWebhook.id payload); " already exists."])
             (Order.id existing) None),
       db).
Proof.
  intros float_ok texts dispatch skipped payload db oi existing Hex.
  now apply run_webhook_existing with (oi := oi).
Qed.

Lemma duplicate_payload_witness :
  (forall fs, snd (run_webhook any_float short_texts broker_up none_skipped fs empty_payload
                     (accepted_store none_skipped empty_payload shop))
              = accepted_store none_skipped empty_payload shop) /\
  run_webhook any_float short_texts broker_up none_skipped [] empty_payload
    (accepted_store none_skipped empty_payload shop)
  = (Ok (WebhookResponse "duplicate" "Order 90001 already exists." 109 None),
     accepted_store none_skipped empty_payload shop).
Proof.
  apply (webhook_duplicate any_float short_texts broker_up none_skipped empty_payload
           (accepted_store none_skipped empty_payload shop)
           9%nat (Order.mk 109 "90001" PENDING None None 0)).
  reflexivity.
Defined.

(** X7.  The webhook stores a payload whole or not at all, whatever the
    payload, the ids the sequences have skipped and the fault schedule:
    the committed store afterwards is the store before, or the store with
    what the database made of the order row and of every line of the
    payload.  The reply "duplicate" comes with the store as it was and
    without a task; the reply "accepted" comes with the payload stored,
    and carries the id of the new order and what the dispatch returned;
    there is no other reply.  What is stored is the store before with one
    more order, PENDING and with the next id of the sequence of orders,
    and one row per line of the payload, for that order and with the
    quantity of the line, numbered from the next id of the sequence of
    line items on. *)
Theorem webhook_all_or_nothing :
  forall float_ok texts dispatch skipped fs payload db,
    match fst (run_webhook float_ok texts dispatch skipped fs payload db) with
    | Ok (WebhookResponse st m i t) =>
        (st = "duplicate" /\ t = None /\
         snd (run_webhook float_ok texts dispatch skipped fs payload db) = db) \/
        (st = "accepted" /\ t = dispatch i /\
         exists order,
           inserted texts skipped payload db
           = Some (order, snd (run_webhook float_ok texts dispatch skipped fs payload db)) /\
           i = Order.id order)
    | Ok (HTTPException _ _) => False
    | Raise _ =>
        snd (run_webhook float_ok texts dispatch skipped fs payload db) = db \/
        exists order,
          inserted texts skipped payload db
          = Some (order, snd (run_webhook float_ok texts dispatch skipped fs payload db))
    end /\
    (forall order db',
        inserted texts skipped payload db = Some (order, db') ->
        order = Order.mk (next_id (skipped_orders skipped) (map Order.id (orders db)))
                  (Order.external_order_id order) PENDING None None 0 /\
        products db' = products db /\ inventory db' = inventory db /\
        sync_logs db' = sync_logs db /\
        orders db' = orders db ++ [order] /\
        exists rows,
          order_items db' = order_items db ++ rows /\
          map (fun it => (OrderItem.id it, OrderItem.order_id it, OrderItem.quantity it)) rows
          = map (fun it => (OrderItem.id it, OrderItem.order_id it, OrderItem.quantity it))
                (accepted_lines
                   (next_id (skipped_order_items skipped)
                      (map OrderItem.id (order_items db)))
                   (Order.id order) (ShopifyOrderWebhook.line_items payload))).
Proof.
  intros float_ok texts dispatch skipped fs payload db. split.
  - pose proof (run_webhook_envelope float_ok texts dispatch skipped fs payload db) as H.
    unfold webhook_envelope in H.
    destruct (fst (run_webhook float_ok texts dispatch skipped fs payload db))
      as [[c d|st m i t]|e].
    + destruct H.
    + destruct H as [(Hst & Hs & Ht & _)|(order & Hins & Hst & _ & Hi & Ht & _)];
        [left; auto|].
      right. subst. split; [reflexivity|]. split; [reflexivity|]. now exists order.
    + destruct H as [H|(order & H & _)]; [now left | right; now exists order].
  - intros order db' Hins.
    destruct (inserted_spec _ _ _ _ _ _ Hins)
      as (Hid & Hst & Hpa & Hem & Hrc & Hp & Hi & Hl & Ho & Hrows).
    split; [|auto 6].
    destruct order as [id ext st pa em rc]. cbn in *. now subst.
Qed.

(** X8.  A new payload with an unreadable price, the total or that of any
    line, is refused by an exception and leaves no trace, under every
    fault schedule. *)
Theorem webhook_unreadable_price :
  forall float_ok texts dispatch skipped fs payload db,
    is_new payload db ->
    prices_ok float_ok payload = false ->
    exists e, run_webhook float_ok texts dispatch skipped fs payload db = (Raise e, db).
Proof.
  intros float_ok texts dispatch skipped fs payload db Hnew Hbad.
  pose proof (run_webhook_envelope float_ok texts dispatch skipped fs payload db) as H.
  unfold webhook_envelope in H.
  destruct (run_webhook float_ok texts dispatch skipped fs payload db)
    as [[[c d|st m i t]|e] db']; cbn [fst snd] in H.
  - destruct H.
  - exfalso.
    destruct H as [(_ & _ & _ & oi & ex & Hex & _)|(order & _ & _ & _ & _ & _ & _ & Hok)].
    + unfold is_new in Hnew. congruence.
    + congruence.
  - exists e. destruct H as [->|(order & _ & _ & Hok & _)]; [reflexivity | congruence].
Qed.

Lemma unreadable_price_witness :
  exists e,
    run_webhook (fun text => negb (String.eqb text "abc")) short_texts broker_up none_skipped []
      (ShopifyOrderWebhook.mk 90002 None "5.00" "USD" None
         [ShopifyLineItem.mk (Some "W1") None None 1 "abc" None None])
      shop
    = (Raise e, shop).
Proof.
  apply (webhook_unreadable_price (fun text => negb (String.eqb text "abc")) short_texts
           broker_up none_skipped []
           (ShopifyOrderWebhook.mk 90002 None "5.00" "USD" None
              [ShopifyLineItem.mk (Some "W1") None None 1 "abc" None None])
           shop); reflexivity.
Defined.

Lemma accepted_order_found skipped payload db :
  first (fun o => Order.id o =? Order.id (accepted_order skipped payload db))
        (orders (accepted_store skipped payload db))
  = Some (length (orders db), accepted_order skipped payload db).
Proof.
  cbn [orders accepted_store]. rewrite first_app, first_none.
  - now rewrite Z.eqb_refl.
  - intros o Ho. apply Z.eqb_neq. unfold accepted_order. cbn [Order.id].
    assert (Order.id o < next_id (skipped_orders skipped) (map Order.id (orders db))); [|lia].
    apply next_id_above, in_map, Ho.
Qed.

Lemma accepted_order_found_by_external skipped payload db :
  is_new payload db ->
  first (fun o => String.eqb (Order.external_order_id o)
                    (str_of_Z (ShopifyOrderWebhook.id payload)))
        (orders (accepted_store skipped payload db))
  = Some (length (orders db), accepted_order skipped payload db).
Proof.
  intros Hnew. unfold is_new in Hnew. cbn [orders accepted_store].
  rewrite first_app, Hnew. cbn. now rewrite String.eqb_refl.
Qed.

Lemma filter_none {A} (p : A -> bool) l :
  (forall x, In x l -> p x = false) -> filter p l = [].
Proof.
  induction l as [|y l IH]; intros H; [reflexivity|].
  cbn. rewrite (H y) by now left. apply IH. intros x Hx. apply H. now right.
Qed.

Lemma accepted_job_items skipped payload db :
  items_have_orders db ->
  map (fun it => (OrderItem.sku it, OrderItem.quantity it))
      (job_items (accepted_store skipped payload db)
         (Order.id (accepted_order skipped payload db)))
  = map (fun l => (line_sku l, ShopifyLineItem.quantity l))
        (ShopifyOrderWebhook.line_items payload).
Proof.
  intros Hfk. unfold job_items. rewrite accepted_order_found.
  unfold items_of. cbn [order_items accepted_store].
  destruct (accepted_lines_spec (Order.id (accepted_order skipped payload db))
              (ShopifyOrderWebhook.line_items payload)
              (next_id (skipped_order_items skipped) (map OrderItem.id (order_items db))))
    as (Hall & Hmap & _).
  rewrite filter_app, <- Hmap.
  replace (filter _ (order_items db)) with (@nil OrderItem.t).
  - cbn [app]. f_equal. apply forallb_filter_id. apply forallb_forall. intros it Hit.
    rewrite Forall_forall in Hall. rewrite (Hall it Hit). apply Z.eqb_refl.
  - symmetry. apply filter_none.
    intros it Hit. apply Z.eqb_neq. unfold accepted_order. cbn [Order.id].
    assert (OrderItem.order_id it
            < next_id (skipped_orders skipped) (map Order.id (orders db))); [|lia].
    apply next_id_above, Hfk, Hit.
Qed.


Lemma items_have_orders_shop : items_have_orders shop.
Proof.
  intros it Hit. cbn in Hit.
  repeat (destruct Hit as [<-|Hit]; [cbn; tauto|]). destruct Hit.
Qed.

Lemma sample_payload_fits : payload_fits short_texts sample_payload.
Proof.
  split; [reflexivity|]. split; [eexists; reflexivity|]. split; [eexists; reflexivity|].
  split; [eexists; reflexivity|].
  repeat constructor; try reflexivity; eexists; reflexivity.
Qed.


(** The sample payload on the shop: order 109 with the lines W1 and
    UNKNOWN-77 (the variant id 0 counts as missing), numbered 14 and 15. *)
Example sample_payload_lines :
  job_items (accepted_store none_skipped sample_payload shop) 109
  = [OrderItem.mk 14 109 "W1" 2; OrderItem.mk 15 109 "UNKNOWN-77" 1].
Proof. reflexivity. Qed.

(** A quantity that is no integer of 32 bits: the database refuses the
    line at the commit, and nothing of the payload is stored; the id 109
    that was drawn for the order is lost. *)
Example quantity_out_of_range :
  exists e,
    run_webhook any_float short_texts broker_up none_skipped []
      (ShopifyOrderWebhook.mk 90003 None "5.00" "USD" None
         [ShopifyLineItem.mk (Some "W1") None None 2147483648 "5.00" None None])
      shop
    = (Raise e, shop).
Proof. eexists. reflexivity. Qed.

(** X10.  The job the webhook dispatches finds its order and works on the
    lines of the payload: on the store of an accepted payload, whatever
    ids the sequences have skipped, a fault-free attempt at the new order
    never answers "not found", and under every fault schedule the locks it
    takes follow the SKUs of the payload's lines in their order. *)
Theorem dispatched_job_works_on_the_payload :
  forall self clock fs skipped payload db,
    items_have_orders db ->
    (exists k,
        locked (deliver self clock fs (Order.id (accepted_order skipped payload db))
                  (accepted_store skipped payload db))
        = firstn k (map line_sku (ShopifyOrderWebhook.line_items payload))) /\
    (forall m,
        outcome (deliver self clock [] (Order.id (accepted_order skipped payload db))
                   (accepted_store skipped payload db))
        <> Ok (RetError m)).
Proof.
  intros self clock fs skipped payload db Hfk. split.
  - destruct (deliver_envelope self clock fs (Order.id (accepted_order skipped payload db))
                (accepted_store skipped payload db)) as [[k Hk] _].
    exists k. rewrite Hk. f_equal.
    pose proof (accepted_job_items skipped payload db Hfk) as H.
    apply (f_equal (map fst)) in H. rewrite !map_map in H. exact H.
  - intros m. rewrite deliver_quiet, accepted_order_found.
    destruct (fulfil _ _ _ _) as [[[msg|] p] t]; discriminate.
Qed.

Lemma dispatched_job_witness :
  (exists k,
      locked (deliver worker noon lock_timeout
                (Order.id (accepted_order (mkSkipped 0 0 1 0) sample_payload shop))
                (accepted_store (mkSkipped 0 0 1 0) sample_payload shop))
      = firstn k (map line_sku (ShopifyOrderWebhook.line_items sample_payload))) /\
  (forall m,
      outcome (deliver worker noon []
                 (Order.id (accepted_order (mkSkipped 0 0 1 0) sample_payload shop))
                 (accepted_store (mkSkipped 0 0 1 0) sample_payload shop))
      <> Ok (RetError m)).
Proof.
  apply (dispatched_job_works_on_the_payload worker noon lock_timeout (mkSkipped 0 0 1 0)
           sample_payload shop).
  apply items_have_orders_shop.
Defined.

(** X11.  An order can be stored without ever being dispatched.  When the
    webhook for a new payload that fits the columns and has readable
    prices commits and the refresh of the order that follows faults, the
    request ends in that exception with the order and its lines stored.
    A repetition of the request is then answered "duplicate", stores
    nothing and dispatches nothing; the manual retry endpoint accepts the
    order, which is PENDING, and dispatches its job. *)
Theorem order_stored_but_never_dispatched :
  forall float_ok texts dispatch skipped fs payload db f,
    is_new payload db ->
    prices_ok float_ok payload = true ->
    payload_fits texts payload ->
    calm (3 + length (ShopifyOrderWebhook.line_items payload)) fs ->
    nth_error fs (3 + length (ShopifyOrderWebhook.line_items payload)) = Some (Some f) ->
    run_webhook float_ok texts dispatch skipped fs payload db
    = (Raise (OtherError (fault_type f) (fault_msg f) (fault_tb f)),
       accepted_store skipped payload db) /\
    (forall dispatch' skipped',
        run_webhook float_ok texts dispatch' skipped' [] payload
          (accepted_store skipped payload db)
        = (Ok (WebhookResponse "duplicate"
                 (fstr ["Order "; str_of_Z (ShopifyOrderWebhook.id payload);
                        " already exists."])
                 (Order.id (accepted_order skipped payload db)) None),
           accepted_store skipped payload db)) /\
    (forall dispatch',
        fst (run_retry_order dispatch' [] (Order.id (accepted_order skipped payload db))
               (accepted_store skipped payload db))
        = Ok (WebhookResponse "retrying"
                (fstr ["Order "; str_of_Z (Order.id (accepted_order skipped payload db));
                       " has been re-queued for processing (retry #"; str_of_Z (0 + 1); ")."])
                (Order.id (accepted_order skipped payload db))
                (dispatch' (Order.id (accepted_order skipped payload db))))).
Proof.
  intros float_ok texts dispatch skipped fs payload db f Hnew Hok Hfit Hc Hf.
  split; [|split].
  - now rewrite (run_webhook_calm float_ok texts dispatch skipped fs payload db
                   Hnew Hok Hfit Hc), Hf.
  - intros dispatch' skipped'.
    apply (run_webhook_existing float_ok texts dispatch' skipped' payload
             (accepted_store skipped payload db)
             (length (orders db)) (accepted_order skipped payload db)).
    now apply accepted_order_found_by_external.
  - intros dispatch'.
    rewrite (run_retry_order_quiet dispatch' _ _ _ _ (accepted_order_found skipped payload db));
      [reflexivity | now right].
Qed.

Lemma never_dispatched_witness :
  run_webhook any_float short_texts broker_up none_skipped refresh_fails sample_payload shop
  = (Raise (OtherError "OperationalError" "connection lost" "Traceback"),
     accepted_store none_skipped sample_payload shop) /\
  (forall dispatch' skipped',
      run_webhook any_float short_texts dispatch' skipped' [] sample_payload
        (accepted_store none_skipped sample_payload shop)
      = (Ok (WebhookResponse "duplicate"
               (fstr ["Order "; str_of_Z (ShopifyOrderWebhook.id sample_payload);
                      " already exists."])
               (Order.id (accepted_order none_skipped sample_payload shop)) None),
         accepted_store none_skipped sample_payload shop)) /\
  (forall dispatch',
      fst (run_retry_order dispatch' []
             (Order.id (accepted_order none_skipped sample_payload shop))
             (accepted_store none_skipped sample_payload shop))
      = Ok (WebhookResponse "retrying"
              (fstr ["Order ";
                     str_of_Z (Order.id (accepted_order none_skipped sample_payload shop));
                     " has been re-queued for processing (retry #"; str_of_Z (0 + 1); ")."])
              (Order.id (accepted_order none_skipped sample_payload shop))
              (dispatch' (Order.id (accepted_order none_skipped sample_payload shop))))).
Proof.
  apply (order_stored_but_never_dispatched any_float short_texts broker_up none_skipped
           refresh_fails sample_payload shop
           (mkFault "OperationalError" "connection lost" "Traceback")).
  - reflexivity.
  - reflexivity.
  - apply sample_payload_fits.
  - unfold calm. cbn. repeat constructor.
  - reflexivity.
Defined.
(** * The read-only endpoints: alerts and metrics *)

Lemma count_low_stock_filter rows :
  count_low_stock rows = Z.of_nat (length (filter Inventory.is_low_stock rows)).
Proof.
  unfold count_low_stock.
  assert (G : forall n, fold_left (fun n inv => if Inventory.is_low_stock inv then n + 1 else n)
                          rows n
                        = n + Z.of_nat (length (filter Inventory.is_low_stock rows))).
  { induction rows as [|inv rows IH]; intros n; cbn [fold_left filter length].
    - cbn. lia.
    - rewrite IH. destruct (Inventory.is_low_stock inv); cbn [length]; lia. }
  now rewrite G.
Qed.

Lemma filter_fst_map {A B} (p : A -> bool) (g : A -> B) l :
  filter (fun row => p (fst row)) (map (fun x => (x, g x)) l)
  = map (fun x => (x, g x)) (filter p l).
Proof.
  induction l as [|x l IH]; cbn; [reflexivity|].
  destruct (p x); cbn; now rewrite IH.
Qed.

Lemma filter_Permutation {A} (p : A -> bool) (l l' : list A) :
  Permutation l l' -> Permutation (filter p l) (filter p l').
Proof.
  induction 1 as [|x l l' _ IH|x y l|l l' l'' _ IH1 _ IH2]; cbn [filter].
  - constructor.
  - destruct (p x); [now constructor | exact IH].
  - destruct (p x), (p y); try reflexivity. apply perm_swap.
  - now transitivity (filter p l').
Qed.

(** The alerts that meet no fault, in full: the low rows, in the order the
    database returned the rows. *)
Lemma run_inventory_alerts_quiet arrange db :
  run_inventory_alerts arrange [] db
  = (Ok (map _build_inventory_response
           (filter (fun row => Inventory.is_low_stock (fst row))
              (map (fun inv =>
                      (inv, find (fun p => Product.id p =? Inventory.product_id inv)
                              (products db)))
                 (arrange (inventory db))))),
     db).
Proof. reflexivity. Qed.

(** The metrics that meet no fault, in full. *)
Lemma run_get_metrics_quiet db :
  run_get_metrics [] db
  = (Ok (MetricsResponse.mk
           (Z.of_nat (length (filter (fun _ => true) (orders db))))
           (Z.of_nat (length (orders_in COMPLETED db)))
           (Z.of_nat (length (orders_in FAILED db)))
           (Z.of_nat (length (filter (fun o => OrderStatus_eqb (Order.status o) PENDING
                                               || OrderStatus_eqb (Order.status o) PROCESSING)
                                (orders db))))
           (count_low_stock (inventory db))
           (Z.of_nat (length (sync_logs db)))),
     db).
Proof. reflexivity. Qed.

(** The two lists of a scan count the rows out of stock and the rows low
    but not out of stock. *)
Lemma scan_counts rows : forall low out low' out',
  fold_left scan_row rows (low, out) = (low', out') ->
  (length low' + length out' =
   length low + length out
   + length (filter (fun row => Inventory.is_low_stock (fst row)) rows)
   + length (filter (fun row => out_but_not_low (fst row)) rows))%nat.
Proof.
  induction rows as [|[inv product] rows IH]; intros low out low' out' H;
    cbn [fold_left filter] in *.
  - injection H as <- <-. cbn. lia.
  - unfold scan_row at 2 in H. unfold out_but_not_low at 1.
    unfold Inventory.is_low_stock, Inventory.available. cbn [fst].
    destruct (Inventory.quantity inv - Inventory.reserved inv <=? 0) eqn:H0;
      destruct (Inventory.quantity inv - Inventory.reserved inv
                <=? Inventory.reorder_level inv) eqn:H1;
      cbn [andb negb length]; apply IH in H; rewrite H;
      rewrite ?length_app; cbn [length];
      unfold Inventory.is_low_stock, Inventory.available; lia.
Qed.

Lemma orders_partition (l : list Order.t) :
  (length l =
   length (filter (fun o => OrderStatus_eqb (Order.status o) COMPLETED) l)
   + length (filter (fun o => OrderStatus_eqb (Order.status o) FAILED) l)
   + length (filter (fun o => OrderStatus_eqb (Order.status o) PENDING
                              || OrderStatus_eqb (Order.status o) PROCESSING) l)
   + length (filter (fun o => OrderStatus_eqb (Order.status o) CANCELLED) l))%nat.
Proof.
  induction l as [|o l IH]; cbn [filter length]; [reflexivity|].
  destruct (Order.status o); cbn [OrderStatus_eqb orb length]; lia.
Qed.

Lemma filter_all {A} (l : list A) : filter (fun _ => true) l = l.
Proof. induction l as [|x l IH]; cbn; now rewrite ?IH. Qed.

(** The read-only endpoints leave the store as it is, whatever the faults. *)
Lemma run_inventory_alerts_reads arrange fs db :
  snd (run_inventory_alerts arrange fs db) = db.
Proof.
  unfold run_inventory_alerts, inventory_alerts, try_finally, query_inventory_all,
    SessionLocal.
  destruct fs as [|[f|] fs]; reflexivity.
Qed.

Lemma get_metrics_reads fs db :
  wp get_metrics (fun _ s' => committed s' = db) (fun _ s' => committed s' = db)
     (SessionLocal db fs).
Proof.
  unfold get_metrics, count_orders, SessionLocal.
  apply wp_try_finally.
  do 4 (apply wp_bind, wp_query; [intros ? | reflexivity]).
  do 2 (apply wp_bind, wp_db_op; [intros ? | reflexivity]).
  do 2 (apply wp_bind, wp_query; [intros ? | reflexivity]).
  apply wp_ret. reflexivity.
Qed.

Lemma run_get_metrics_reads fs db : snd (run_get_metrics fs db) = db.
Proof.
  pose proof (get_metrics_reads fs db) as H. unfold wp in H. unfold run_get_metrics.
  destruct (get_metrics (SessionLocal db fs)) as [[r|e] s']; exact H.
Qed.

(** X12.  The order counters of the metrics count every order once, but
    for the cancelled ones, which no counter takes: without faults the
    total is the sum of the completed, the failed and the pending orders
    (PENDING or PROCESSING) and of the CANCELLED orders of the store.  The
    request changes nothing, whatever the faults. *)
Theorem metrics_count_orders_by_status :
  forall db,
    (forall fs, snd (run_get_metrics fs db) = db) /\
    exists m,
      fst (run_get_metrics [] db) = Ok m /\
      MetricsResponse.total_orders m = Z.of_nat (length (orders db)) /\
      MetricsResponse.total_orders m
      = MetricsResponse.completed_orders m + MetricsResponse.failed_orders m
        + MetricsResponse.pending_orders m + Z.of_nat (length (orders_in CANCELLED db)) /\
      MetricsResponse.total_sync_logs m = Z.of_nat (length (sync_logs db)).
Proof.
  intros db. split; [intros fs; apply run_get_metrics_reads|].
  rewrite run_get_metrics_quiet. eexists. split; [reflexivity|].
  cbn [MetricsResponse.total_orders MetricsResponse.completed_orders
       MetricsResponse.failed_orders MetricsResponse.pending_orders
       MetricsResponse.total_sync_logs].
  rewrite filter_all. repeat split.
  unfold orders_in. rewrite (orders_partition (orders db)) at 1. lia.
Qed.

(** X13.  The alerts, the metrics and the scan against each other, the
    database returning the inventory rows in whatever order to each.
    Without faults, the alert endpoint answers one entry per inventory row
    that [is_low_stock] holds of, in the order in which the rows came
    back, and leaves the store as it was, as do the metrics; the metrics
    count as many low stock alerts as there are entries; and the scan
    reports, low stock and out of stock together, these rows and those
    that are out of stock above their (negative) reorder level. *)
Theorem alerts_metrics_and_scan_agree :
  forall arrange arrange' clock db,
    (forall l : list Inventory.t, Permutation (arrange l) l) ->
    (forall l : list Inventory.t, Permutation (arrange' l) l) ->
    exists alerts m low out db',
      run_inventory_alerts arrange [] db = (Ok alerts, db) /\
      run_get_metrics [] db = (Ok m, db) /\
      run_scan arrange' clock [] db
      = (Ok (ScanCompleted (length (inventory db)) low out (elapsed_ms clock)), db') /\
      map InventoryResponse.id alerts
      = map Inventory.id (filter Inventory.is_low_stock (arrange (inventory db))) /\
      Permutation (map InventoryResponse.id alerts)
                  (map Inventory.id (filter Inventory.is_low_stock (inventory db))) /\
      Forall (fun a => InventoryResponse.is_low_stock a = true /\
                       InventoryResponse.available a <= InventoryResponse.reorder_level a)
             alerts /\
      MetricsResponse.low_stock_alerts m = Z.of_nat (length alerts) /\
      (low + out = length alerts + length (filter out_but_not_low (inventory db)))%nat.
Proof.
  intros arrange arrange' clock db Harr Harr'.
  pose proof (run_scan_quiet arrange' clock db) as Hscan. cbn zeta in Hscan.
  destruct (fold_left scan_row _ ([], [])) as [low out] eqn:Hfold.
  apply scan_counts in Hfold.
  rewrite !filter_fst_map, !length_map in Hfold.
  rewrite length_map, (Permutation_length (Harr' (inventory db))) in Hscan.
  rewrite (Permutation_length (filter_Permutation Inventory.is_low_stock _ _
                                 (Harr' (inventory db)))) in Hfold.
  rewrite (Permutation_length (filter_Permutation out_but_not_low _ _
                                 (Harr' (inventory db)))) in Hfold.
  eexists _, _, (length low), (length out), _.
  split; [apply run_inventory_alerts_quiet|].
  split; [apply run_get_metrics_quiet|].
  split; [exact Hscan|].
  rewrite filter_fst_map, !map_map, !length_map.
  cbn [MetricsResponse.low_stock_alerts].
  assert (Hids : map (fun x => InventoryResponse.id
                                 (_build_inventory_response
                                    (x, find (fun p => Product.id p =? Inventory.product_id x)
                                          (products db))))
                     (filter Inventory.is_low_stock (arrange (inventory db)))
                 = map Inventory.id (filter Inventory.is_low_stock (arrange (inventory db)))).
  { apply map_ext. reflexivity. }
  split; [exact Hids|]. split; [|split; [|split]].
  - rewrite Hids. apply Permutation_map, filter_Permutation, Harr.
  - apply Forall_forall. intros a Ha. apply in_map_iff in Ha as (inv & <- & Hin).
    apply filter_In in Hin as [_ Hlow]. cbn. split; [exact Hlow|].
    unfold Inventory.is_low_stock in Hlow. now apply Z.leb_le.
  - rewrite count_low_stock_filter.
    now rewrite (Permutation_length (filter_Permutation Inventory.is_low_stock _ _
                                       (Harr (inventory db)))).
  - cbn [length] in Hfold.
    rewrite (Permutation_length (filter_Permutation Inventory.is_low_stock _ _
                                   (Harr (inventory db)))).
    lia.
Qed.

Lemma alerts_metrics_and_scan_witness :
  exists alerts m low out db',
    run_inventory_alerts (@rev Inventory.t) [] shop = (Ok alerts, shop) /\
    run_get_metrics [] shop = (Ok m, shop) /\
    run_scan (fun l => l) noon [] shop
    = (Ok (ScanCompleted (length (inventory shop)) low out (elapsed_ms noon)), db') /\
    map InventoryResponse.id alerts
    = map Inventory.id (filter Inventory.is_low_stock (rev (inventory shop))) /\
    Permutation (map InventoryResponse.id alerts)
                (map Inventory.id (filter Inventory.is_low_stock (inventory shop))) /\
    Forall (fun a => InventoryResponse.is_low_stock a = true /\
                     InventoryResponse.available a <= InventoryResponse.reorder_level a)
           alerts /\
    MetricsResponse.low_stock_alerts m = Z.of_nat (length alerts) /\
    (low + out = length alerts + length (filter out_but_not_low (inventory shop)))%nat.
Proof.
  apply (alerts_metrics_and_scan_agree (@rev Inventory.t) (fun l => l) noon shop).
  - intros l. apply Permutation_sym, Permutation_rev.
  - intros l. reflexivity.
Defined.

(** A row with nothing available and a reorder level of -1: out of stock
    for the scan, no alert for the endpoint and the metrics. *)
Example negative_reorder_level :
  let db := with_inventory shop [Inventory.mk 10 1 0 0 (-1) 0] in
  fst (run_scan (fun l => l) noon [] db) = Ok (ScanCompleted 1 0 1 7) /\
  fst (run_inventory_alerts (fun l => l) [] db) = Ok [] /\
  option_map MetricsResponse.low_stock_alerts
    (match fst (run_get_metrics [] db) with Ok m => Some m | Raise _ => None end) = Some 0.
Proof. repeat split. Qed.

(** The alerts of a store with two low rows, when the database returns the
    rows in the reverse order. *)
Example alerts_in_returned_order :
  let db := with_inventory shop [Inventory.mk 10 1 5 0 15 0; Inventory.mk 11 2 1 0 1 0] in
  option_map (map InventoryResponse.id)
    (match fst (run_inventory_alerts (@rev Inventory.t) [] db) with
     | Ok alerts => Some alerts
     | Raise _ => None
     end)
  = Some [11; 10].
Proof. reflexivity. Qed.
(** * The seed script *)

Section SeedLoop.
Variable levels : list (string * InventoryLevel.t).
Variable seqs : Sequences.
Variable clock : Clock.

Lemma seed_product_quiet counters pd c p t :
  seed_product levels seqs clock counters pd (mkSession c p t [])
  = (Ok (snd (seed_row levels seqs (utcnow clock) (p, counters) pd)),
     mkSession c (fst (seed_row levels seqs (utcnow clock) (p, counters) pd)) t []).
Proof.
  destruct counters as [created skipped].
  unfold seed_product, seed_row, query_product, flush_product, bind, db_op, view, ret, change.
  cbn [faults pending committed lock_trace].
  destruct (first _ (products p)) as [[i q]|]; reflexivity.
Qed.

(** The loop without faults: the pure loop on the session's view. *)
Lemma seed_loop_quiet l : forall counters c p t,
  fold_each (seed_product levels seqs clock) l counters (mkSession c p t [])
  = (Ok (snd (fold_left (seed_row levels seqs (utcnow clock)) l (p, counters))),
     mkSession c (fst (fold_left (seed_row levels seqs (utcnow clock)) l (p, counters))) t []).
Proof.
  induction l as [|pd l IH]; intros counters c p t; cbn [fold_each fold_left].
  - reflexivity.
  - unfold bind. rewrite seed_product_quiet, IH.
    now rewrite <- surjective_pairing.
Qed.

(** The loop under any fault schedule: nothing is committed, and the view
    is that of the pure loop unless a fault ends it. *)
Lemma wp_seed_loop l : forall counters c p t f,
  wp (fold_each (seed_product levels seqs clock) l counters)
     (fun counters' s' =>
        committed s' = c /\
        (pending s', counters') = fold_left (seed_row levels seqs (utcnow clock)) l (p, counters))
     (fun e s' => committed s' = c /\ is_fault e)
     (mkSession c p t f).
Proof.
  induction l as [|pd l IH]; intros [created skipped] c p t f; cbn [fold_each fold_left].
  - apply wp_ret. split; reflexivity.
  - apply wp_bind. unfold seed_product at 1. apply wp_bind. unfold query_product.
    apply wp_query; [|intros e f' He; split; [reflexivity | exact He]].
    intros f1. unfold seed_row at 2.
    destruct (first _ (products p)) as [[i q]|].
    + apply wp_ret, IH.
    + apply wp_bind. unfold flush_product.
      apply wp_bind, wp_db_op; [|intros e f' He; split; [reflexivity | exact He]].
      intros f2. apply wp_bind, wp_change, wp_ret. apply wp_bind, wp_change, wp_ret.
      apply IH.
Qed.
End SeedLoop.

Section SeedRows.
Variable levels : list (string * InventoryLevel.t).
Variable seqs : Sequences.
Variable now : Z.

(** The loop appends: one product and one inventory row for it per SKU that
    was missing, nothing else. *)
Lemma seed_rows_grow l : forall db counters,
  exists ps invs,
    fst (fold_left (seed_row levels seqs now) l (db, counters))
    = mkDB (products db ++ ps) (inventory db ++ invs)
        (orders db) (order_items db) (sync_logs db) /\
    map Inventory.product_id invs = map Product.id ps /\
    snd (fold_left (seed_row levels seqs now) l (db, counters))
    = (fst counters + Z.of_nat (length ps),
       snd counters + Z.of_nat (length l) - Z.of_nat (length ps)).
Proof.
  induction l as [|pd l IH]; intros db [created skipped]; cbn [fold_left].
  - exists [], []. rewrite !app_nil_r. destruct db. cbn. repeat split. f_equal; lia.
  - unfold seed_row at 2 4.
    destruct (first _ (products db)) as [[i q]|].
    + destruct (IH db (created, skipped + 1)) as (ps & invs & Hdb & Hids & Hc).
      exists ps, invs. rewrite Hdb, Hc. cbn [fst snd length]. repeat split; [exact Hids|].
      f_equal; lia.
    + match goal with
      | |- context [fold_left _ l (?d, ?k)] =>
          destruct (IH d k) as (ps & invs & Hdb & Hids & Hc)
      end.
      rewrite Hdb, Hc. cbn [products inventory orders order_items sync_logs fst snd].
      eexists (_ :: ps), (_ :: invs). rewrite <- !app_assoc. cbn [app].
      split; [reflexivity|]. split; [cbn; now rewrite Hids|].
      cbn [length]. f_equal; lia.
Qed.

(** A SKU that is in the catalog stays in it. *)
Lemma seed_rows_keep_catalog l sku : forall db counters,
  in_catalog db sku ->
  in_catalog (fst (fold_left (seed_row levels seqs now) l (db, counters))) sku.
Proof.
  intros db counters (i & p & Hp).
  destruct (seed_rows_grow l db counters) as (ps & invs & -> & _).
  unfold in_catalog. cbn [products]. clear invs.
  induction ps as [|q ps IH] using rev_ind; [rewrite app_nil_r; eauto|].
  destruct IH as (i' & p' & Hp'). rewrite app_assoc, first_app, Hp'. eauto.
Qed.

(** Every SKU of the list is in the catalog in the end. *)
Lemma seed_rows_catalog l : forall db counters,
  Forall (fun pd => in_catalog (fst (fold_left (seed_row levels seqs now) l (db, counters)))
                      (SeedProduct.sku pd)) l.
Proof.
  induction l as [|pd l IH]; intros db [created skipped]; [constructor|].
  cbn [fold_left].
  destruct (seed_row levels seqs now (db, (created, skipped)) pd) as [db1 k1] eqn:Hs.
  constructor; [|apply IH].
  apply seed_rows_keep_catalog. unfold seed_row in Hs.
  destruct (first _ (products db)) as [[i q]|] eqn:Hq; injection Hs as <- _.
  - exists i, q. exact Hq.
  - unfold in_catalog. cbn [products]. rewrite first_app, Hq. cbn [Product.sku].
    rewrite String.eqb_refl. eauto.
Qed.

(** When every SKU of the list is in the catalog the loop changes nothing
    and skips them all. *)
Lemma seed_rows_fixed l : forall db counters,
  Forall (fun pd => in_catalog db (SeedProduct.sku pd)) l ->
  fold_left (seed_row levels seqs now) l (db, counters)
  = (db, (fst counters, snd counters + Z.of_nat (length l))).
Proof.
  induction l as [|pd l IH]; intros db [created skipped] H; cbn [fold_left fst snd length].
  - f_equal. f_equal. lia.
  - inversion H as [|? ? (i & q & Hq) Hl]; subst. unfold seed_row at 2. rewrite Hq.
    rewrite (IH _ _ Hl). cbn [fst snd]. f_equal. f_equal. lia.
Qed.

Lemma existsb_snoc {A} (p : A -> bool) l x : existsb p (l ++ [x]) = existsb p l || p x.
Proof. rewrite existsb_app. cbn. now rewrite orb_false_r. Qed.

(** The products without an inventory row are those that were without
    before, when the ids of the products are below those the sequence
    hands out. *)
Lemma seed_rows_unstocked l : forall db counters,
  Forall (fun p => Product.id p < products_id_seq seqs + fst counters) (products db) ->
  unstocked (fst (fold_left (seed_row levels seqs now) l (db, counters))) = unstocked db.
Proof.
  induction l as [|pd l IH]; intros db [created skipped] Hids; cbn [fold_left];
    [reflexivity|].
  cbn [fst] in Hids.
  unfold seed_row at 2. destruct (first _ (products db)) as [[i q]|]; [now apply IH|].
  rewrite IH.
  2:{ cbn [products fst]. apply Forall_app. split.
      - eapply Forall_impl; [|exact Hids]. cbn. intros p Hp. lia.
      - constructor; [cbn; lia | constructor]. }
  unfold unstocked. cbn [products inventory].
  rewrite filter_app. cbn [filter]. rewrite existsb_snoc. cbn [seed_inventory].
  unfold seed_inventory at 2. cbn [Inventory.product_id Product.id].
  rewrite Z.eqb_refl, orb_true_r. cbn [negb]. rewrite app_nil_r.
  apply filter_ext_in. intros p Hp. rewrite existsb_snoc.
  unfold seed_inventory. cbn [Inventory.product_id Product.id].
  rewrite Forall_forall in Hids. specialize (Hids p Hp).
  replace (products_id_seq seqs + created =? Product.id p) with false
    by (symmetry; apply Z.eqb_neq; lia).
  now rewrite orb_false_r.
Qed.
End SeedRows.

Section SeedRuns.
Variable seed_products : list SeedProduct.t.
Variable levels : list (string * InventoryLevel.t).

(** A run of the script without faults, in full. *)
Lemma run_seed_quiet clock skipped db :
  run_seed_with seed_products levels clock skipped [] db
  = (let '(db', (created, skipped)) :=
       fold_left (seed_row levels (sequences skipped db) (utcnow clock)) seed_products
         (db, (0, 0)) in
     Ok (mkSeedSummary created skipped (Z.of_nat (length (products db')))
           (count_low_stock (inventory db'))),
     seeded_with seed_products levels skipped (utcnow clock) db).
Proof.
  match goal with |- _ = ?rhs => set (X := rhs) end.
  assert (H : wp (seed_with seed_products levels (sequences skipped db) clock)
                 (fun r s' => (Ok r, committed s') = X) (fun _ _ => False)
                 (SessionLocal db [])).
  { unfold seed_with, SessionLocal.
    apply wp_try_finally, wp_try_except, wp_bind.
    eapply wp_of_run; [apply seed_loop_quiet|].
    destruct (seed_rows_grow levels (sequences skipped db) (utcnow clock) seed_products db
                (0, 0)) as (ps & invs & Hdb & _).
    unfold X, seeded_with.
    destruct (fold_left _ seed_products (db, (0, 0))) as [db' [created skipped']].
    cbn [fst snd] in *.
    apply wp_bind, wp_commit_quiet; [apply flush_ok_no_log; now rewrite Hdb|].
    apply wp_bind, wp_query_quiet, wp_bind, wp_query_quiet, wp_ret. reflexivity. }
  unfold wp in H. unfold run_seed_with.
  destruct (seed_with seed_products levels (sequences skipped db) clock (SessionLocal db []))
    as [[r|e] s']; [exact H | destruct H].
Qed.

(** A run of the script under any fault schedule. *)
Lemma run_seed_envelope clock skipped fs db :
  match fst (run_seed_with seed_products levels clock skipped fs db) with
  | Ok _ =>
      snd (run_seed_with seed_products levels clock skipped fs db)
      = seeded_with seed_products levels skipped (utcnow clock) db
  | Raise e =>
      is_fault e /\
      (snd (run_seed_with seed_products levels clock skipped fs db) = db \/
       snd (run_seed_with seed_products levels clock skipped fs db)
       = seeded_with seed_products levels skipped (utcnow clock) db)
  end.
Proof.
  set (db1 := seeded_with seed_products levels skipped (utcnow clock) db).
  assert (H : wp (seed_with seed_products levels (sequences skipped db) clock)
                 (fun _ s' => committed s' = db1)
                 (fun e s' => is_fault e /\ (committed s' = db \/ committed s' = db1))
                 (SessionLocal db fs)).
  { unfold seed_with, SessionLocal.
    apply wp_try_finally, wp_try_except, wp_bind.
    eapply wp_conseq; [apply wp_seed_loop | |].
    - intros counters [c p t f] [Hc Hp]. cbn in Hc, Hp. subst c.
      assert (Hs : p = db1) by (unfold db1, seeded_with; now rewrite <- Hp).
      subst p.
      apply wp_bind, wp_commit.
      + intros f1.
        apply wp_bind, wp_query;
          [intros f2 | intros e f2 He; apply wp_bind, wp_rollback, wp_raise; cbn; auto].
        apply wp_bind, wp_query;
          [intros f3 | intros e f3 He; apply wp_bind, wp_rollback, wp_raise; cbn; auto].
        apply wp_ret. reflexivity.
      + intros e f1 He. apply wp_bind, wp_rollback, wp_raise. cbn. auto.
    - intros e [c p t f] [Hc He]. cbn in Hc. subst c.
      apply wp_bind, wp_rollback, wp_raise. cbn. auto. }
  unfold wp in H. unfold run_seed_with.
  destruct (seed_with seed_products levels (sequences skipped db) clock (SessionLocal db fs))
    as [[r|e] s']; exact H.
Qed.

(** Seeding twice. *)
Lemma run_seed_twice clock clock' skipped skipped' db :
  exists first_run second_run,
    run_seed_with seed_products levels clock skipped [] db
    = (Ok first_run, seeded_with seed_products levels skipped (utcnow clock) db) /\
    run_seed_with seed_products levels clock' skipped' []
      (seeded_with seed_products levels skipped (utcnow clock) db)
    = (Ok second_run, seeded_with seed_products levels skipped (utcnow clock) db) /\
    seed_created first_run + seed_skipped first_run = Z.of_nat (length seed_products) /\
    seed_created second_run = 0 /\
    seed_skipped second_run = Z.of_nat (length seed_products) /\
    seed_total second_run = seed_total first_run /\
    seed_low_stock second_run = seed_low_stock first_run.
Proof.
  pose proof (seed_rows_catalog levels (sequences skipped db) (utcnow clock) seed_products
                db (0, 0)) as Hcat.
  fold (seeded_with seed_products levels skipped (utcnow clock) db) in Hcat.
  set (db1 := seeded_with seed_products levels skipped (utcnow clock) db) in *.
  pose proof (seed_rows_fixed levels (sequences skipped' db1) (utcnow clock') seed_products
                db1 (0, 0) Hcat) as Hfix.
  destruct (seed_rows_grow levels (sequences skipped db) (utcnow clock) seed_products db
              (0, 0)) as (ps & invs & _ & _ & Hc).
  assert (Hsame : seeded_with seed_products levels skipped' (utcnow clock') db1 = db1).
  { unfold seeded_with at 1. now rewrite Hfix. }
  rewrite !run_seed_quiet, Hsame, Hfix. unfold db1, seeded_with.
  destruct (fold_left (seed_row levels (sequences skipped db) (utcnow clock)) seed_products
              (db, (0, 0)))
    as [db' [created skipped0]].
  cbn [fst snd] in *. injection Hc as -> ->.
  do 2 eexists. split; [reflexivity|]. split; [reflexivity|].
  cbn [seed_created seed_skipped seed_total seed_low_stock].
  repeat split; lia.
Qed.
End SeedRuns.

(** The ids of a table are below the next value of its sequence. *)
Lemma products_below_sequence skipped db :
  Forall (fun p => Product.id p < products_id_seq (sequences skipped db) + 0) (products db).
Proof.
  apply Forall_forall. intros p Hp. cbn [sequences products_id_seq].
  pose proof (next_id_above (skipped_products skipped) (map Product.id (products db))
                (Product.id p) (in_map _ _ _ Hp)).
  lia.
Qed.

(** X14.  The seed script stores all of its products or nothing: under
    every fault schedule, and whatever ids the sequences have skipped, the
    store is in the end either as it was or seeded in full, and seeded in
    full when the script raises nothing, as it does when no fault is met;
    only a fault makes it raise.  Seeding appends: the products that were
    missing with one inventory row each, after the rows that were there,
    which are kept as they are, as are the orders, their items and the
    audit log. *)
Theorem seed_all_or_nothing :
  forall clock skipped fs db,
    match fst (run_seed clock skipped fs db) with
    | Ok _ => snd (run_seed clock skipped fs db) = seeded skipped (utcnow clock) db
    | Raise e =>
        is_fault e /\
        (snd (run_seed clock skipped fs db) = db \/
         snd (run_seed clock skipped fs db) = seeded skipped (utcnow clock) db)
    end /\
    (exists summary,
        run_seed clock skipped [] db = (Ok summary, seeded skipped (utcnow clock) db)) /\
    exists ps invs,
      seeded skipped (utcnow clock) db
      = mkDB (products db ++ ps) (inventory db ++ invs)
          (orders db) (order_items db) (sync_logs db) /\
      map Inventory.product_id invs = map Product.id ps.
Proof.
  intros clock skipped fs db. split; [apply run_seed_envelope|]. split.
  - destruct (run_seed_twice SEED_PRODUCTS INVENTORY_LEVELS clock clock skipped skipped db)
      as (first_run & _ & H & _).
    exists first_run. exact H.
  - destruct (seed_rows_grow INVENTORY_LEVELS (sequences skipped db) (utcnow clock)
                SEED_PRODUCTS db (0, 0))
      as (ps & invs & Hdb & Hids & _).
    exists ps, invs. split; [exact Hdb | exact Hids].
Qed.

(** X15.  The seed script is idempotent: run without faults on a store it
    has seeded, at whatever time and whatever ids the sequences have
    skipped, it leaves the store as it is, creates nothing and skips its
    twenty products, and prints the totals of the first run.  In the
    first run every product is created or skipped. *)
Theorem seed_idempotent :
  forall clock clock' skipped skipped' db,
    exists first_run second_run,
      run_seed clock skipped [] db = (Ok first_run, seeded skipped (utcnow clock) db) /\
      run_seed clock' skipped' [] (seeded skipped (utcnow clock) db)
      = (Ok second_run, seeded skipped (utcnow clock) db) /\
      seed_created first_run + seed_skipped first_run = 20 /\
      seed_created second_run = 0 /\
      seed_skipped second_run = 20 /\
      seed_total second_run = seed_total first_run /\
      seed_low_stock second_run = seed_low_stock first_run.
Proof.
  intros clock clock' skipped skipped' db.
  exact (run_seed_twice SEED_PRODUCTS INVENTORY_LEVELS clock clock' skipped skipped' db).
Qed.

(** X16.  After seeding, every SKU of the seed list is in the catalog, and
    the products without an inventory row are those that had none before:
    the script gives each product it creates its row. *)
Theorem seed_stocks_what_it_creates :
  forall skipped now db,
    Forall (fun pd => in_catalog (seeded skipped now db) (SeedProduct.sku pd)) SEED_PRODUCTS /\
    unstocked (seeded skipped now db) = unstocked db.
Proof.
  intros skipped now db. split.
  - apply seed_rows_catalog.
  - apply seed_rows_unstocked, products_below_sequence.
Qed.

(** Seeding the shop: the twenty products are new, four of them and the two
    of the shop are low. *)
Example seed_the_shop :
  fst (run_seed noon none_skipped [] shop) = Ok (mkSeedSummary 20 0 23 6).
Proof. reflexivity. Qed.

(** X17.  On a seeded store an order for seed products can only fail for
    stock.  When every product of the store had its inventory row before
    seeding, the processor finds, for a line item with a SKU of the seed
    list, the product and its inventory row: the line is accepted, or
    rejected for insufficient stock with the row lock held. *)
Theorem seeded_products_reach_the_stock_check :
  forall skipped now db item,
    unstocked db = [] ->
    In (OrderItem.sku item) (map SeedProduct.sku SEED_PRODUCTS) ->
    exists i row,
      check_item (seeded skipped now db) item
      = if Inventory.available row <? OrderItem.quantity item
        then Rejected (msg_insufficient_stock (OrderItem.sku item) (OrderItem.quantity item)
                         (Inventory.available row)) true
        else Accepted i row.
Proof.
  intros skipped now db item Hstock Hsku.
  apply in_map_iff in Hsku as (pd & Hpd & Hin).
  pose proof (seed_rows_catalog INVENTORY_LEVELS (sequences skipped db) now SEED_PRODUCTS db
                (0, 0)) as Hcat.
  rewrite Forall_forall in Hcat. destruct (Hcat pd Hin) as (pi & p & Hp).
  pose proof (seed_rows_unstocked INVENTORY_LEVELS (sequences skipped db) now SEED_PRODUCTS db
                (0, 0) (products_below_sequence skipped db)) as Hun.
  fold (seeded_with SEED_PRODUCTS INVENTORY_LEVELS skipped now db) in Hp, Hun.
  fold (seeded skipped now db) in Hp, Hun.
  rewrite Hpd in Hp. unfold check_item. rewrite Hp.
  destruct (first _ (inventory (seeded skipped now db))) as [[i row]|] eqn:Hrow; [eauto|].
  exfalso.
  assert (Hp' : In p (unstocked (seeded skipped now db))).
  { unfold unstocked. apply filter_In. split.
    - apply first_spec in Hp as [Hn _]. now apply nth_error_In in Hn.
    - apply negb_true_iff. apply not_true_is_false. intros Hex.
      apply existsb_exists in Hex as (inv & Hinv & Heq).
      pose proof (first_from_none _ _ _ Hrow inv Hinv) as Hno. cbn in Hno. congruence. }
  rewrite Hun, Hstock in Hp'. destruct Hp'.
Qed.

Lemma seeded_products_witness :
  exists i row,
    check_item (seeded (mkSkipped 3 0 0 0) 1000 stocked_shop) (OrderItem.mk 1 1 "MUG-001" 2)
    = if Inventory.available row <? OrderItem.quantity (OrderItem.mk 1 1 "MUG-001" 2)
      then Rejected (msg_insufficient_stock (OrderItem.sku (OrderItem.mk 1 1 "MUG-001" 2))
                       (OrderItem.quantity (OrderItem.mk 1 1 "MUG-001" 2))
                       (Inventory.available row)) true
      else Accepted i row.
Proof.
  apply (seeded_products_reach_the_stock_check (mkSkipped 3 0 0 0) 1000 stocked_shop
           (OrderItem.mk 1 1 "MUG-001" 2)).
  - reflexivity.
  - cbn. tauto.
Defined.
(** * The detail endpoint *)

Lemma run_get_order_quiet order_id db :
  run_get_order [] order_id db
  = (Ok match first (fun o => Order.id o =? order_id) (orders db) with
        | None => OrderHTTPException 404 (msg_order_not_found order_id)
        | Some (_, order) => OrderFound (order_response db order)
        end,
     db).
Proof.
  unfold run_get_order, get_order, try_finally, SessionLocal. cbn.
  destruct (first _ (orders db)) as [[oi order]|]; reflexivity.
Qed.

Lemma run_get_order_reads fs order_id db : snd (run_get_order fs order_id db) = db.
Proof.
  unfold run_get_order, get_order, try_finally, SessionLocal.
  destruct fs as [|[f|] fs]; cbn; [| reflexivity |];
    destruct (first _ (orders db)) as [[oi order]|]; reflexivity.
Qed.

(** X18.  The detail endpoint after an attempt.  The endpoint changes
    nothing, whatever the faults.  Without faults: for an id the processor
    does not find, the endpoint answers 404 with the message of the
    processor; after a completed attempt it shows the order "completed",
    without error message, processed at the time of the attempt; after a
    failed one it shows it "failed" with the error the attempt returned
    and the processing time it had; in both cases with the external id,
    the retry count and the line items it showed before the attempt. *)
Theorem detail_shows_the_attempt :
  forall self clock order_id db,
    (forall fs, snd (run_get_order fs order_id db) = db) /\
    match outcome (deliver self clock [] order_id db),
          fst (run_get_order [] order_id db),
          fst (run_get_order [] order_id (store (deliver self clock [] order_id db))) with
    | Ok (RetError m), Ok (OrderHTTPException code detail), Ok after =>
        code = 404 /\ detail = m /\ after = OrderHTTPException code detail
    | Ok (RetCompleted _ external _), Ok (OrderFound before), Ok (OrderFound after) =>
        after = OrderResponse.mk (OrderResponse.id before) external "completed"
                  (OrderResponse.retry_count before) None (Some (utcnow clock))
                  (OrderResponse.items before) /\
        OrderResponse.external_order_id before = external /\
        OrderResponse.id before = order_id
    | Ok (RetFailed _ error), Ok (OrderFound before), Ok (OrderFound after) =>
        after = OrderResponse.mk (OrderResponse.id before)
                  (OrderResponse.external_order_id before) "failed"
                  (OrderResponse.retry_count before) (Some error)
                  (OrderResponse.processed_at before)
                  (OrderResponse.items before) /\
        OrderResponse.id before = order_id
    | _, _, _ => False
    end.
Proof.
  intros self clock order_id db. split; [intros fs; apply run_get_order_reads|].
  rewrite deliver_quiet, (run_get_order_quiet order_id db).
  destruct (first _ (orders db)) as [[oi order]|] eqn:Ho.
  2:{ cbn [outcome store fst]. rewrite run_get_order_quiet, Ho. cbn. auto. }
  pose proof (first_spec _ _ _ _ Ho) as [Hn Hid]. apply Z.eqb_eq in Hid.
  destruct (fulfil _ _ _ _) as [[[msg|] p] t] eqn:Hf; cbn [outcome store fst].
  - rewrite (marked_failed_claimed self clock order_id db oi order msg Ho).
    rewrite run_get_order_quiet. unfold business_failure_store. cbn [orders].
    rewrite (first_set_row _ _ _ _ (failed_order order msg) Ho)
      by (cbn; now apply Z.eqb_eq).
    cbn. auto.
  - apply fulfil_frame in Hf as (_ & Hord & Hitems & _).
    rewrite run_get_order_quiet. unfold completed_store. cbn [orders with_orders with_sync_logs].
    rewrite Hord. unfold claimed. cbn [orders with_orders]. rewrite set_row_twice.
    rewrite (first_set_row _ _ _ _ (completed_order clock order) Ho)
      by (cbn; now apply Z.eqb_eq).
    unfold order_response. cbn [order_items with_sync_logs with_orders]. rewrite Hitems.
    cbn. auto.
Qed.

